(** * RakiBot: retrieval, scoring, caching and source escalation

    A shallow embedding of the retrieval / confidence / escalation core of
    RakiBot (Python) and the properties of it that the specification states.

    Sources embedded:
    - [app/services/agh_rag_service.py]        ([AGHRAGService])
    - [app/services/enhanced_embedding_service.py]
                                ([EmbeddingCache], [AdvancedEmbeddingService])
    - [app/core/advanced_rag_engine.py]        ([AdvancedAtlasRAGEngine])

    Modelling conventions.
    - Python [str] is [string]; the character class tests ([str.lower],
      [str.split], [\w], [\b], [\d], [\s]) are the ASCII ones.  They are
      Python's on ASCII text; Python's also know the letters, digits and
      blanks beyond ASCII, so what depends on them is stated of ASCII text
      ([Py.isascii]).
    - A Python [float] that is compared, sorted or clamped is a rational
      [Q]: every finite float is a rational and float comparison is
      comparison of the rationals.  Sums and quotients are the exact ones.
    - Calls that leave the process or the repository (Ollama, the web
      search service, [numpy.argsort], [numpy.linalg.norm], [hashlib.md5],
      nltk's stop words, the clock) are oracles: fields of a record or
      explicit arguments.  An oracle that can raise returns [option].
    - [try: ... except Exception] is the [option] monad with a default.
    - The files of the cache directory are finite maps ([gmap]); word sets
      are finite sets ([gset]). *)

From Stdlib Require Import QArith Qround Qminmax Lia Lqa.
From stdpp Require Import base list gmap strings sorting.
From Stdlib Require Import Ascii.

Set Warnings "-abstract-large-number".
Local Open Scope string_scope.
Local Open Scope nat_scope.
Local Open Scope list_scope.

(* ===================================================================== *)
(** * Part I. The program                                                 *)
(* ===================================================================== *)

(** ** Python string primitives (ASCII) *)
Module Py.

Definition code (c : ascii) : nat := nat_of_ascii c.

(** [str.isspace] on one character: TAB..CR, FS..US and the blank. *)
Definition is_space (c : ascii) : bool :=
  ((9 <=? code c) && (code c <=? 13)) || ((28 <=? code c) && (code c <=? 32)).

Definition is_upper (c : ascii) : bool := (65 <=? code c) && (code c <=? 90).
Definition is_lower (c : ascii) : bool := (97 <=? code c) && (code c <=? 122).
Definition is_digit (c : ascii) : bool := (48 <=? code c) && (code c <=? 57).

(** The regular-expression class [\w]. *)
Definition is_word (c : ascii) : bool :=
  is_upper c || is_lower c || is_digit c || (code c =? 95).

Definition lower_char (c : ascii) : ascii :=
  if is_upper c then ascii_of_nat (code c + 32) else c.

(** [s.lower()] on ASCII text, where it maps one character at a time.
    Beyond ASCII Python's [lower] has more letters and reads a capital
    sigma by its place in the word. *)
Fixpoint lower (s : string) : string :=
  match s with
  | EmptyString => EmptyString
  | String c s' => String (lower_char c) (lower s')
  end.

Fixpoint rev_onto (s acc : string) : string :=
  match s with
  | EmptyString => acc
  | String c s' => rev_onto s' (String c acc)
  end.
Definition rev (s : string) : string := rev_onto s EmptyString.

Fixpoint lstrip (s : string) : string :=
  match s with
  | EmptyString => EmptyString
  | String c s' => if is_space c then lstrip s' else s
  end.
Definition rstrip (s : string) : string := rev (lstrip (rev s)).

(** [s.strip()] *)
Definition strip (s : string) : string := lstrip (rstrip s).

(** [s.split()]: the maximal runs of non-blank characters.  [cur] is the
    run being read, reversed. *)
Fixpoint split_from (cur : string) (s : string) : list string :=
  match s with
  | EmptyString => if String.eqb cur EmptyString then [] else [rev cur]
  | String c s' =>
      if is_space c
      then (if String.eqb cur EmptyString then split_from EmptyString s'
            else rev cur :: split_from EmptyString s')
      else split_from (String c cur) s'
  end.
Definition split (s : string) : list string := split_from EmptyString s.

(** [re.findall(r'\b\w+\b', s)]: the maximal runs of word characters. *)
Fixpoint words_from (cur : string) (s : string) : list string :=
  match s with
  | EmptyString => if String.eqb cur EmptyString then [] else [rev cur]
  | String c s' =>
      if is_word c then words_from (String c cur) s'
      else (if String.eqb cur EmptyString then words_from EmptyString s'
            else rev cur :: words_from EmptyString s')
  end.
Definition findall_words (s : string) : list string := words_from EmptyString s.

(** [sub in s] *)
Fixpoint contains (sub s : string) : bool :=
  String.prefix sub s ||
  match s with
  | EmptyString => false
  | String _ s' => contains sub s'
  end.

(** [s.replace(old, new)] for a non-empty [old]: occurrences are found left
    to right and do not overlap.  [skip] counts the characters of the
    occurrence being replaced that are still to be dropped. *)
Fixpoint replace_from (skip : nat) (old new s : string) : string :=
  match s with
  | EmptyString => EmptyString
  | String c s' =>
      match skip with
      | S k => replace_from k old new s'
      | O => if String.prefix old s
             then new +:+ replace_from (String.length old - 1) old new s'
             else String c (replace_from 0 old new s')
      end
  end.

(** With an empty [old] Python puts [new] before every character and at
    the end. *)
Fixpoint intersperse (new s : string) : string :=
  match s with
  | EmptyString => new
  | String c s' => new +:+ String c (intersperse new s')
  end.

Definition replace (s old new : string) : string :=
  if String.eqb old EmptyString then intersperse new s
  else replace_from 0 old new s.

(** [sep.join(l)] *)
Fixpoint join (sep : string) (l : list string) : string :=
  match l with
  | [] => EmptyString
  | [x] => x
  | x :: t => x +:+ sep +:+ join sep t
  end.

(** Truthiness of a [str]. *)
Definition truthy (s : string) : bool := negb (String.eqb s EmptyString).

(** [s.isascii()] *)
Fixpoint isascii (s : string) : bool :=
  match s with
  | EmptyString => true
  | String c s' => (code c <? 128) && isascii s'
  end.

End Py.

(** ** Numbers and numpy *)
Module Np.

Local Open Scope Q_scope.

(** An embedding vector: [List[float]] / [np.ndarray] of rank 1. *)
Definition embedding : Type := list Q.

(** [a < b] on floats, as a test. *)
Definition Qltb (a b : Q) : bool := negb (Qle_bool b a).

(** The library calls whose result the program only consumes:
    [numpy.argsort] (default kind) and [numpy.linalg.norm]. *)
Class Lib := {
  argsort : list Q -> list nat;
  linalg_norm : embedding -> Q;
}.

(** [v[i]] *)
Definition val (v : list Q) (i : nat) : Q := nth i v 0.

(** What numpy documents of them.  [argsort v] lists the positions of [v]
    so that the values ascend; the order of equal values is left to the
    sorting kind.  The norm is never negative and, computed exactly,
    vanishes on the zero vector only. *)
Class LibSpec (L : Lib) : Prop := {
  argsort_perm : forall v, argsort v ≡ₚ seq 0 (length v);
  argsort_sorted : forall v,
    StronglySorted (fun a b => val v a <= val v b) (argsort v);
  norm_nonneg : forall v, 0 <= linalg_norm v;
  norm_zero : forall v, linalg_norm v == 0 -> Forall (fun x => x == 0) v;
}.

(** [np.dot(a, b)] of two vectors of one length. *)
Fixpoint dot (a b : embedding) : Q :=
  match a, b with
  | x :: a', y :: b' => x * y + dot a' b'
  | _, _ => 0
  end.

(** [np.where(v > t)[0]]: the positions, ascending, whose value exceeds
    [t].  [i] is the position of the head of [v]. *)
Fixpoint where_gt_from (i : nat) (v : list Q) (t : Q) : list nat :=
  match v with
  | [] => []
  | x :: v' => if Qltb t x then i :: where_gt_from (S i) v' t
               else where_gt_from (S i) v' t
  end.
Definition where_gt (v : list Q) (t : Q) : list nat := where_gt_from 0 v t.

(** [a[idx]] with a list of positions; [IndexError] is [None]. *)
Definition take {A} (a : list A) (idx : list nat) : option (list A) :=
  mapM (fun i => a !! i) idx.

(** [a[-k:]].  Python reads [-k] as a start position: counted from the end
    when [k] is positive, [a[0:]] when [k = 0], and [a[j:]] when
    [k = -j] is negative. *)
Definition last_k {A} (k : Z) (a : list A) : list A :=
  if (0 <? k)%Z then drop (length a - Z.to_nat k)%nat a
  else drop (Z.to_nat (- k)) a.

(** One sorting kind within that contract: an insertion sort that keeps
    equal values in position order.  numpy's default kind is not stable
    and promises no order of equal values. *)
Fixpoint insert_by (x : Q * nat) (l : list (Q * nat)) : list (Q * nat) :=
  match l with
  | [] => [x]
  | y :: t => if Qle_bool (fst x) (fst y) then x :: l else y :: insert_by x t
  end.

Fixpoint isort (l : list (Q * nat)) : list (Q * nat) :=
  match l with
  | [] => []
  | x :: t => insert_by x (isort t)
  end.

Definition stable_argsort (v : list Q) : list nat :=
  map snd (isort (zip v (seq 0 (length v)))).

(** A norm in finite precision: the square root of the sum of squares,
    rounded down to eight decimals. *)
Definition sqrt_down (x : Q) : Q :=
  let r := Qred x in
  Z.sqrt (Qnum r * Zpos (Qden r) * 10 ^ 16) # (Qden r * 10 ^ 8).

Definition l2_norm (v : embedding) : Q := sqrt_down (dot v v).

Definition reference_lib : Lib :=
  {| argsort := stable_argsort; linalg_norm := l2_norm |}.

(** A second sorting kind within the same contract: an element is put
    after the values equal to it, so positions of equal values come out
    descending. *)
Fixpoint insert_after (x : Q * nat) (l : list (Q * nat)) : list (Q * nat) :=
  match l with
  | [] => [x]
  | y :: t => if Qltb (fst x) (fst y) then x :: l else y :: insert_after x t
  end.

Fixpoint isort_after (l : list (Q * nat)) : list (Q * nat) :=
  match l with
  | [] => []
  | x :: t => insert_after x (isort_after t)
  end.

Definition reversing_argsort (v : list Q) : list nat :=
  map snd (isort_after (zip v (seq 0 (length v)))).

Definition reversing_lib : Lib :=
  {| argsort := reversing_argsort; linalg_norm := l2_norm |}.

End Np.

(** ** [AGHRAGService]: retrieval *)
Module AGHRetrieval.
Import Np.
Local Open Scope Q_scope.

Section WithLib.
Context {L : Lib}.

(** Lines 209-215: the similarities of the question with every row.
    [np.array] of ragged rows and [np.dot] of different lengths raise. *)
Definition dot_products (all_embeddings : list embedding)
    (question_vec : embedding) : list Q :=
  map (fun e => dot e question_vec) all_embeddings.

Definition norms (all_embeddings : list embedding)
    (question_vec : embedding) : list Q :=
  map (fun e => linalg_norm e * linalg_norm question_vec) all_embeddings.

Definition similarities (all_embeddings : list embedding)
    (question_vec : embedding) : option (list Q) :=
  if forallb (fun e => (length e =? length question_vec)%nat) all_embeddings
  then Some (zip_with (fun d n => d / (n + (1 # 100000000)))
               (dot_products all_embeddings question_vec)
               (norms all_embeddings question_vec))
  else None.

(** Lines 217-227, on the computed similarities. *)
Definition select (similarities : list Q) (threshold : Q) (top_k : Z)
    : option (list nat) :=
  let indices := where_gt similarities threshold in
  let indices :=
    if (length indices =? 0)%nat
    then last_k top_k (argsort similarities)
    else indices in
  sel ← take similarities indices;
  take indices (reverse (argsort sel)).

(** Line 205: [[emb for emb in ... if emb is not None]]. *)
Definition not_none (column : list (option embedding)) : list embedding :=
  omap (fun emb => emb) column.

(** [_retrieve_relevant_chunks]; [df] is the [Embedding] column of
    [self.df].  Any exception gives [[]]. *)
Definition _retrieve_relevant_chunks
    (df : option (list (option embedding)))
    (question_embedding : option embedding)
    (threshold : Q) (top_k : Z) : list nat :=
  match df, question_embedding with
  | Some column, Some question_vec =>
      let embeddings_list := not_none column in
      if (length embeddings_list =? 0)%nat then []
      else default []
             (sims ← similarities embeddings_list question_vec;
              select sims threshold top_k)
  | _, _ => []
  end.

End WithLib.
End AGHRetrieval.

(** ** [AdvancedEmbeddingService]: retrieval *)
Module AdvancedEmbeddingService.
Import Np.
Local Open Scope Q_scope.

(** [config.rag]: the defaults of [app/config/config.py]. *)
Record RagConfig := {
  embedding_threshold : Q;
  top_k_retrieval : Z;
}.
Definition default_config : RagConfig :=
  {| embedding_threshold := 45 # 100; top_k_retrieval := 8 |}.

(** [x or d] on an optional number: [None] and zero give [d]. *)
Definition or_Q (x : option Q) (d : Q) : Q :=
  match x with
  | Some q => if Qeq_bool q 0 then d else q
  | None => d
  end.
Definition or_Z (x : option Z) (d : Z) : Z :=
  match x with
  | Some z => if (z =? 0)%Z then d else z
  | None => d
  end.

Section WithLib.
Context {L : Lib}.

(** [sklearn.metrics.pairwise.cosine_similarity] of one row against one
    row.  A library function: as scikit-learn documents it, both rows are
    scaled to unit length, a zero length being replaced by one, and then
    multiplied. *)
Definition normalize (v : embedding) : embedding :=
  let n := linalg_norm v in
  let n := if Qeq_bool n 0 then 1 else n in
  map (fun x => x / n) v.

Definition cosine_similarity (x : embedding) (ys : list embedding)
    : option (list Q) :=
  if forallb (fun e => (length e =? length x)%nat) ys
  then Some (map (fun y => dot (normalize x) (normalize y)) ys)
  else None.

(** Lines 463-479, on the computed similarities. *)
Definition select (similarities : list Q) (threshold : Q) (top_k : Z)
    : option (list nat) :=
  let above_threshold := where_gt similarities threshold in
  indices ←
    (if (length above_threshold =? 0)%nat
     then Some (last_k top_k (argsort similarities))
     else
       threshold_similarities ← take similarities above_threshold;
       let sorted_indices := last_k top_k (argsort threshold_similarities) in
       take above_threshold sorted_indices);
  sel ← take similarities indices;
  take indices (reverse (argsort sel)).

(** Line 449: [[emb for emb in ... if emb is not None and len(emb) > 0]]. *)
Definition valid (embedding_list : list (option embedding)) : list embedding :=
  omap (fun emb =>
          match emb with
          | Some e => if (0 <? length e)%nat then Some e else None
          | None => None
          end) embedding_list.

(** [retrieve_relevant_chunks]; [df] is the [Embedding] column of the
    frame ([None]: the frame has no such column), [HAS_ML_LIBS] is the
    import flag of the module: it is off when the import of scikit-learn
    failed (numpy is there: the module does not load without it). *)
Definition retrieve_relevant_chunks (HAS_ML_LIBS : bool) (config : RagConfig)
    (df : option (list (option embedding)))
    (question_embedding : option embedding)
    (threshold : option Q) (top_k : option Z) : list nat :=
  if negb HAS_ML_LIBS then []
  else
    match question_embedding with
    | None => []
    | Some question_embedding =>
        let threshold := or_Q threshold (embedding_threshold config) in
        let top_k := or_Z top_k (top_k_retrieval config) in
        match df with
        | None => []
        | Some embedding_list =>
            if (length embedding_list =? 0)%nat then []
            else
              let valid_embeddings := valid embedding_list in
              if (length valid_embeddings =? 0)%nat then []
              else default []
                     (sims ← cosine_similarity question_embedding
                               valid_embeddings;
                      select sims threshold top_k)
        end
    end.

End WithLib.
End AdvancedEmbeddingService.

(** ** [EmbeddingCache] *)
Module EmbeddingCache.
Import Np.
Local Open Scope Z_scope.

(** One value of [cache_metadata.json].  [timestamp] is the
    [datetime.isoformat()] of the write, here the microseconds it denotes:
    [fromisoformat] reads back what [isoformat] wrote. *)
Record MetaEntry := {
  timestamp : Z;
  model : string;
  text_length : nat;
}.

(** The cache directory: the pickled embeddings [<key>.pkl] and the
    metadata file, which is absent ([None]) until the first write. *)
Record Dir := {
  files : gmap string embedding;
  metadata_file : option (gmap string MetaEntry);
}.

(** The object: [self.cache_dir] and [self.ttl_hours]. *)
Record Cache := {
  cache_dir : Dir;
  ttl_hours : Z;
}.

Definition __init__ (dir : Dir) : Cache :=
  {| cache_dir := dir; ttl_hours := 24 * 7 |}.

(** [timedelta(hours=h)] in microseconds. *)
Definition timedelta_hours (h : Z) : Z := h * 3600 * 1000000.

Definition with_dir (c : Cache) (d : Dir) : Cache :=
  {| cache_dir := d; ttl_hours := ttl_hours c |}.

Section WithHash.
(** [hashlib.md5(b).hexdigest()] *)
Context (md5_hexdigest : string -> string).

Definition _get_cache_key (text model : string) : string :=
  let combined := text +:+ ":" +:+ model in
  md5_hexdigest combined.

Definition _load_metadata (c : Cache) : gmap string MetaEntry :=
  default ∅ (metadata_file (cache_dir c)).

Definition _save_metadata (c : Cache) (metadata : gmap string MetaEntry)
    : Cache :=
  with_dir c {| files := files (cache_dir c);
                metadata_file := Some metadata |}.

Definition _invalidate_entry (c : Cache) (cache_key : string) : Cache :=
  let c := with_dir c {| files := delete cache_key (files (cache_dir c));
                         metadata_file := metadata_file (cache_dir c) |} in
  let metadata := _load_metadata c in
  match metadata !! cache_key with
  | Some _ => _save_metadata c (delete cache_key metadata)
  | None => c
  end.

(** [get(text, model)] when the clock reads [now]. *)
Definition get (c : Cache) (text model : string) (now : Z)
    : option embedding * Cache :=
  let cache_key := _get_cache_key text model in
  match files (cache_dir c) !! cache_key with
  | None => (None, c)
  | Some embedding =>
      let metadata := _load_metadata c in
      match metadata !! cache_key with
      | None => (None, c)
      | Some entry =>
          let cache_time := timestamp entry in
          if timedelta_hours (ttl_hours c) <? now - cache_time
          then (None, _invalidate_entry c cache_key)
          else (Some embedding, c)
      end
  end.

(** [set(text, model, embedding)] when the clock reads [now]. *)
Definition set (c : Cache) (text model : string) (embedding : embedding)
    (now : Z) : Cache :=
  let cache_key := _get_cache_key text model in
  let c := with_dir c {| files := <[cache_key := embedding]> (files (cache_dir c));
                         metadata_file := metadata_file (cache_dir c) |} in
  let metadata := _load_metadata c in
  let metadata :=
    <[cache_key := {| timestamp := now; model := model;
                      text_length := String.length text |}]> metadata in
  _save_metadata c metadata.

(** [cleanup_expired()] when the clock reads [now]. *)
Definition cleanup_expired (c : Cache) (now : Z) : Cache :=
  let metadata := _load_metadata c in
  let expired_keys :=
    omap (fun kv : string * MetaEntry =>
            if timedelta_hours (ttl_hours c) <? now - timestamp (snd kv)
            then Some (fst kv) else None)
         (map_to_list metadata) in
  foldl _invalidate_entry c expired_keys.

End WithHash.

Definition empty_dir : Dir := {| files := ∅; metadata_file := None |}.

End EmbeddingCache.

(** ** Confidence and trust scores *)
Module Score.
Local Open Scope Q_scope.

Definition word_set (ws : list string) : gset string := list_to_set ws.

(** [len(a & b) / len(a) if a else dflt] *)
Definition overlap (a b : gset string) (dflt : Q) : Q :=
  if decide (size a = 0%nat) then dflt
  else inject_Z (Z.of_nat (size (a ∩ b))) / inject_Z (Z.of_nat (size a)).

(** [min(1.0, len(answer.split()) / 50)] *)
Definition length_factor (answer : string) : Q :=
  Qmin 1 (inject_Z (Z.of_nat (length (Py.split answer))) / 50).

(** [round(x, 3)]: to the nearest thousandth, a tie to the even one. *)
Definition round_half_even (x : Q) : Z :=
  let f := Qfloor x in
  let r := x - inject_Z f in
  match Qcompare r (1 # 2) with
  | Lt => f
  | Gt => (f + 1)%Z
  | Eq => if Z.even f then f else (f + 1)%Z
  end.
Definition round3 (x : Q) : Q := round_half_even (x * 1000) # 1000.

(** [AdvancedAtlasRAGEngine._estimate_confidence] *)
Definition _estimate_confidence (query answer context : string) : Q :=
  if negb (Py.truthy answer) || (String.length (Py.strip answer) <? 10)%nat
  then 1 # 10
  else
    let query_words := word_set (Py.split (Py.lower query)) in
    let answer_words := word_set (Py.split (Py.lower answer)) in
    let context_words := word_set (Py.split (Py.lower context)) in
    let query_answer_overlap := overlap query_words answer_words 0 in
    let answer_context_overlap := overlap answer_words context_words 0 in
    let length_factor := length_factor answer in
    let confidence :=
      (4 # 10) * query_answer_overlap +
      (3 # 10) * answer_context_overlap +
      (3 # 10) * length_factor in
    Qmin (95 # 100) (Qmax (1 # 10) confidence).

Definition important_terms : gset string :=
  list_to_set ["examination"; "semester"; "faculty"; "student";
               "regulation"; "grade"; "credit"].

(** [AGHRAGService._calculate_trust_score].  [stopwords] is
    [stopwords.words("english")] of nltk; [None] when the corpus cannot be
    read, which the function's [except] turns into [0.5]. *)
Definition _calculate_trust_score (stopwords : option (list string))
    (question answer : string) (chunks : list string) : Q :=
  match stopwords with
  | None => 5 # 10
  | Some sw =>
      let stop_words := word_set sw in
      let q_words :=
        word_set (Py.findall_words (Py.lower question)) ∖ stop_words in
      let a_words := word_set (Py.findall_words (Py.lower answer)) in
      let keyword_overlap := overlap q_words a_words 0 in
      let q_important :=
        word_set (Py.findall_words (Py.lower question)) ∩ important_terms in
      let a_important :=
        word_set (Py.findall_words (Py.lower answer)) ∩ important_terms in
      let term_score := overlap q_important a_important (5 # 10) in
      let chunk_text := Py.join " " chunks in
      let chunk_words := word_set (Py.findall_words (Py.lower chunk_text)) in
      let content_overlap := overlap a_words chunk_words 0 in
      let quality_score := length_factor answer in
      let trust_score :=
        (3 # 10) * keyword_overlap +
        (2 # 10) * term_score +
        (3 # 10) * content_overlap +
        (2 # 10) * quality_score in
      round3 trust_score
  end.

End Score.

(** ** Regular expressions used by [AGHRAGService] *)
Module Re.
Import Py.

Definition nl : string := String (ascii_of_nat 10) EmptyString.
Definition dq : string := String (ascii_of_nat 34) EmptyString.

Fixpoint drop (n : nat) (s : string) : string :=
  match n, s with
  | S k, String _ s' => drop k s'
  | _, _ => s
  end.

Definition head_is_word (s : string) : bool :=
  match s with
  | EmptyString => false
  | String c _ => is_word c
  end.

Fixpoint last_is_word (dflt : bool) (s : string) : bool :=
  match s with
  | EmptyString => dflt
  | String c s' => last_is_word (is_word c) s'
  end.

(** A matcher tells, from whether the previous character is a word
    character and from the text ahead, how many characters the pattern
    matches here; [None] when it does not match here. *)
Definition matcher : Type := bool -> string -> option nat.

(** [re.sub(pattern, repl, s)] for a pattern that matches no empty string:
    the text is read left to right, a match is replaced and reading goes on
    behind it.  [prevw]: the previous character is a word character;
    [skip]: characters of the current match still to be dropped. *)
Fixpoint sub_from (m : matcher) (repl : string) (prevw : bool) (skip : nat)
    (s : string) : string :=
  match s with
  | EmptyString => EmptyString
  | String c s' =>
      match skip with
      | S k => sub_from m repl (is_word c) k s'
      | O =>
          match m prevw s with
          | Some (S n) => repl +:+ sub_from m repl (is_word c) n s'
          | _ => String c (sub_from m repl (is_word c) 0 s')
          end
      end
  end.
Definition sub (m : matcher) (repl s : string) : string :=
  sub_from m repl false 0 s.

(** The pattern [lit], a text without special characters. *)
Definition literal (lit : string) : matcher :=
  fun _ s => if String.prefix lit s then Some (String.length lit) else None.

(** The pattern [\blit\b]: [\b] holds where exactly one of the two
    neighbouring characters is a word character, the ends of the text
    counting as none.  The word characters are those of ASCII; on a [str]
    Python's [\w] has the letters and digits beyond ASCII too. *)
Definition bounded (lit : string) : matcher :=
  fun prevw s =>
    if String.prefix lit s
       && xorb prevw (head_is_word lit)
       && xorb (last_is_word prevw lit)
               (head_is_word (drop (String.length lit) s))
    then Some (String.length lit) else None.

(** [lit] without regard to case ([re.IGNORECASE]), for a lower-case [lit]. *)
Fixpoint prefix_nocase (lit s : string) : bool :=
  match lit, s with
  | EmptyString, _ => true
  | String a lit', String b s' =>
      Ascii.eqb a (lower_char b) && prefix_nocase lit' s'
  | _, _ => false
  end.

(** [.*?lit]: the fewest characters of the line, then [lit]. *)
Fixpoint lazy_until (lit s : string) : option nat :=
  if String.prefix lit s then Some (String.length lit)
  else
    match s with
    | EmptyString => None
    | String c s' =>
        if Ascii.eqb c (ascii_of_nat 10) then None
        else S <$> lazy_until lit s'
    end.

(** The pattern [passing.*?60] with [re.IGNORECASE]. *)
Definition passing_60 : matcher :=
  fun _ s =>
    if prefix_nocase "passing" s
    then (fun n => 7 + n) <$> lazy_until "60" (drop 7 s)
    else None.

(** The longest prefix of characters in the class [p], and the rest. *)
Fixpoint span (p : ascii -> bool) (s : string) : string * string :=
  match s with
  | EmptyString => (EmptyString, EmptyString)
  | String c s' =>
      if p c then let '(a, b) := span p s' in (String c a, b)
      else (EmptyString, s)
  end.

(** [(\d+(?:\.\d+)?)] at the head of [s]: the number and the rest.
    [\d] and, below, [\s] are the ASCII classes; on a [str] Python's have
    the digits and blanks beyond ASCII too. *)
Definition number (s : string) : option (string * string) :=
  let '(d, r) := span is_digit s in
  if String.eqb d EmptyString then None
  else
    match r with
    | String c r' =>
        if Ascii.eqb c "."
        then let '(d2, r2) := span is_digit r' in
             if String.eqb d2 EmptyString then Some (d, r)
             else Some (d +:+ "." +:+ d2, r2)
        else Some (d, r)
    | EmptyString => Some (d, r)
    end.

(** [§\s*(\d+(?:\.\d+)?)] at the head of [s]. *)
Definition section_sign (s : string) : option (string * string) :=
  if String.prefix "§" s
  then number (snd (span is_space (drop (String.length "§") s)))
  else None.

(** [Section\s+(\d+(?:\.\d+)?)] at the head of [s]. *)
Definition section_word (s : string) : option (string * string) :=
  if String.prefix "Section" s
  then let '(sp, r) := span is_space (drop 7 s) in
       if String.eqb sp EmptyString then None else number r
  else None.

(** [re.search(r'§\s*(\d+(?:\.\d+)?)', s)], group 1. *)
Fixpoint search_section (s : string) : option string :=
  match section_sign s with
  | Some (g, _) => Some g
  | None =>
      match s with
      | EmptyString => None
      | String _ s' => search_section s'
      end
  end.

Fixpoint line_rest (s : string) : string :=
  match s with
  | EmptyString => EmptyString
  | String c s' =>
      if Ascii.eqb c (ascii_of_nat 10) then EmptyString
      else String c (line_rest s')
  end.

(** [(?:§\s*|Section\s+)(\d+(?:\.\d+)?)(?![^\n]*semester)] at the head of
    [s]: group 1 and the number of characters matched. *)
Definition section_ref (s : string) : option (string * nat) :=
  match (match section_sign s with
         | Some x => Some x
         | None => section_word s
         end) with
  | Some (g, r) =>
      if contains "semester" (line_rest r) then None
      else Some (g, String.length s - String.length r)
  | None => None
  end.

(** [re.findall] of that pattern. *)
Fixpoint findall_refs_from (skip : nat) (s : string) : list string :=
  match s with
  | EmptyString => []
  | String _ s' =>
      match skip with
      | S k => findall_refs_from k s'
      | O =>
          match section_ref s with
          | Some (g, S n) => g :: findall_refs_from n s'
          | _ => findall_refs_from 0 s'
          end
      end
  end.
Definition findall_refs (s : string) : list string := findall_refs_from 0 s.

(** [sorted(set(l))] *)
Definition sorted_set (l : list string) : list string :=
  merge_sort String.leb (remove_dups l).

End Re.

(** ** [AGHRAGService] *)
Module AGHRAGService.
Import Np Py Re.
Local Open Scope Q_scope.

(** A row of [self.df]. *)
Record Row := {
  Title : string;
  Content : string;
  Embedding : option embedding;
}.

(** [processing_time]: the literal [0.0], or the clock since [start_time]. *)
Inductive Elapsed := ZeroTime | SinceStart.

Record AGHResponse := {
  answer : string;
  sources : string;
  trust_score : Q;
  warning : option string;
  section_refs : list string;
  language : string;
  tokens : nat;
  processing_time : Elapsed;
  sources_type : string;
}.

(** [user_profile]: the two keys the service reads. *)
Record Profile := {
  age : option string;
  gender : option string;
}.

(** One result of the web search: the two keys the service reads. *)
Record SearchResult := {
  snippet : option string;
  url : option string;
}.

(** The answer of Ollama's [/api/generate]: the [response] field of a
    reply with status 200, another status, or an exception. *)
Inductive Generated := Reply (response : string) | BadStatus | Raised.

(** What is outside the service: the loaded frame and the calls that leave
    the process.  [search_and_extract q n] is [None] when the import or the
    call raises. *)
Record World := {
  df : option (list Row);
  ollama_embeddings : string -> option embedding;
  ollama_generate : string -> Generated;
  search_and_extract : string -> nat -> option (list SearchResult);
  stopwords : option (list string);
}.

(** The calls made while answering, in order. *)
Inductive Event :=
| EmbedCall (prompt : string)
| RetrieveCall (question_embedding : embedding)
| SearchCall (query : string) (max_results : nat)
| GenerateCall (prompt : string).

Definition get_truthy (o : option string) : bool :=
  match o with
  | Some s => truthy s
  | None => false
  end.

Definition lines (l : list string) : string := join nl l.

(** [_generate_embedding(text)] with the default [title=""]. *)
Definition _generate_embedding (w : World) (text : string)
    : option embedding :=
  ollama_embeddings w text.

Definition _embed_question (w : World) (question : string)
    : option embedding :=
  _generate_embedding w question.

(** [_build_prompt], lines 233-289. *)
Definition estimate_tokens (text : string) : nat :=
  Z.to_nat (Qfloor (inject_Z (Z.of_nat (length (split text))) * (13 # 10))).

Definition user_context (user_profile : option Profile) : string :=
  match user_profile with
  | Some p =>
      if get_truthy (age p) || get_truthy (gender p)
      then
        let context_parts :=
          (if get_truthy (age p)
           then ["age group: " +:+ default "" (age p)] else []) ++
          (if get_truthy (gender p)
           then ["gender: " +:+ default "" (gender p)] else []) in
        match context_parts with
        | [] => ""
        | _ =>
            nl +:+ "INTERNAL INSTRUCTION: Adapt your answer tone and language complexity for someone with "
            +:+ join ", " context_parts
            +:+ ". Use appropriate language level but DO NOT mention this adaptation in your response."
            +:+ nl
        end
      else ""
  | None => ""
  end.

Definition prompt_head (question : string) (user_profile : option Profile)
    : string :=
  lines [
    "QUESTION: " +:+ question +:+ user_context user_profile;
    "";
    "Please answer based on the following AGH University regulations. Follow these guidelines:";
    "";
    "📋 RESPONSE FORMAT:";
    "- Keep your answer CONCISE and FOCUSED (2-3 paragraphs maximum)";
    "- Extract only the ESSENTIAL information that directly answers the question";
    "- Include section references (e.g., §19) when citing specific rules";
    "- Use bullet points for lists to improve readability";
    "- Avoid lengthy explanations unless specifically requested";
    "";
    "🎯 ANSWER STYLE:";
    "- Be direct and to-the-point";
    "- Prioritize the most important information first";
    "- If there's a lot of detail, summarize the key points";
    "- Use clear, simple language";
    "- CRITICAL: Distinguish between different concepts:";
    "  * " +:+ dq +:+ "Passing grade" +:+ dq +:+ " = minimum score to pass an exam (typically 60/100)";
    "  * " +:+ dq +:+ "ECTS credits" +:+ dq +:+ " = credit accumulation for graduation";
    "  * " +:+ dq +:+ "Graduation requirements" +:+ dq +:+ " = total credits needed to graduate";
    "  * " +:+ dq +:+ "Thesis requirements" +:+ dq +:+ " = specific requirements for thesis/dissertation";
    "- Match your answer EXACTLY to what was asked - don't mix up grades with credits!";
    "";
    "REGULATIONS:";
    ""
  ].

(** One metadata dictionary of [answer_question]. *)
Record Meta := {
  section : string;
  title : string;
  content : string;
}.

(** The loop of [_build_prompt]: chunks are added in order until one would
    pass the budget. *)
Fixpoint add_chunks (max_tokens : nat) (prompt : string)
    (pairs : list (string * Meta)) : string * list string * list Meta :=
  match pairs with
  | [] => (prompt, [], [])
  | (chunk, meta) :: rest =>
      let test_prompt := prompt +:+ chunk +:+ nl +:+ nl in
      if (max_tokens <? estimate_tokens test_prompt)%nat
      then (prompt, [], [])
      else
        let '(p, cs, ms) := add_chunks max_tokens test_prompt rest in
        (p, chunk :: cs, meta :: ms)
  end.

Definition _build_prompt (chunks : list string) (metadata : list Meta)
    (question : string) (user_profile : option Profile) (max_tokens : nat)
    : string * list string * list Meta :=
  add_chunks max_tokens (prompt_head question user_profile)
    (zip chunks metadata).

(** [_generate_answer], lines 291-316. *)
Definition _generate_answer (w : World) (prompt : string) : string * nat :=
  match ollama_generate w prompt with
  | Reply response =>
      let answer := strip response in
      let tokens := (length (split prompt) + length (split answer))%nat in
      (answer, tokens)
  | BadStatus => ("Sorry, I couldn't generate an answer.", 0%nat)
  | Raised => ("Sorry, there was an error generating the answer.", 0%nat)
  end.

(** [_extract_section_number] *)
Definition _extract_section_number (title : string) : string :=
  default "N/A" (search_section title).

(** [_is_low_quality_answer] *)
Definition generic_phrases : list string :=
  ["i don't know"; "unclear"; "cannot determine"; "not specified"].

Definition _is_low_quality_answer (question answer : string) : bool :=
  if negb (truthy answer) || (length (split answer) <=? 2)%nat then true
  else if contains (lower question) (lower answer) then true
  else if existsb (fun phrase => contains phrase (lower answer))
            generic_phrases then true
  else false.

(** [_fix_known_errors], lines 375-392. *)
Definition _fix_known_errors (answer : string) : string :=
  let answer := Re.sub (bounded "60/100") "50/100" answer in
  let answer := Re.sub (bounded "60 out of 100") "50 out of 100" answer in
  let answer := Re.sub (literal "typically 60/100") "typically 50/100" answer in
  let answer := Re.sub (literal "generally 60/100") "generally 50/100" answer in
  let answer := Re.sub passing_60 "passing grade is 50" answer in
  answer.

(** ** [answer_question] *)

Definition web_search_keywords : list string :=
  ["search"; "google"; "web search"; "search on google"; "search web"].

Definition has_search_keyword (question : string) : bool :=
  let question_lower := strip (lower question) in
  existsb (fun keyword => contains keyword question_lower)
    web_search_keywords.

(** Lines 414-415: every keyword is replaced by nothing, in turn. *)
Definition remove_keywords (question : string) : string :=
  foldl (fun question keyword => strip (replace question keyword ""))
    question web_search_keywords.

Definition web_prompt (question : string) (web_content : list string)
    : string :=
  lines [
    "Question about AGH University of Science and Technology Krakow: " +:+ question;
    "";
    "📋 RESPONSE FORMAT:";
    "- Keep your answer CONCISE and FOCUSED (2-3 paragraphs maximum)";
    "- Extract only the ESSENTIAL information that directly answers the question";
    "- Use bullet points for lists to improve readability";
    "- Be direct and to-the-point";
    "";
    "Based on web search results about AGH regulations:";
    "";
    join nl web_content;
    "";
    "Please provide a concise, helpful answer specifically about AGH University regulations based on these web search results. If the results don't contain AGH-specific information, clearly state that."
  ].

Definition agh_search_query (question : string) : string :=
  "AGH University of Science and Technology Krakow regulations " +:+ question.

Definition urls (results : list SearchResult) : list string :=
  omap (fun r => if get_truthy (url r) then url r else None) results.

Definition sources_text (sources : list string) : string :=
  match sources with
  | [] => "Web search results"
  | _ => join ", " (firstn 3 sources)
  end.

(** Lines 422-432. *)
Definition not_initialized (input_tokens : nat) : AGHResponse :=
  {| answer := "AGH RAG service is not properly initialized.";
     sources := "N/A"; trust_score := 0;
     warning := Some "Service initialization error";
     section_refs := []; language := "en"; tokens := input_tokens;
     processing_time := ZeroTime; sources_type := "document" |}.

(** Lines 437-447. *)
Definition cannot_process (input_tokens : nat) : AGHResponse :=
  {| answer := "Sorry, I couldn't process your question.";
     sources := "N/A"; trust_score := 0;
     warning := Some "Embedding generation failed";
     section_refs := []; language := "en"; tokens := input_tokens;
     processing_time := SinceStart; sources_type := "document" |}.

(** Lines 560-570. *)
Definition no_answer (input_tokens : nat) : AGHResponse :=
  {| answer := "No relevant AGH regulations found for your question. To search the web for AGH University information, try enabling web search or adding 'search' to your question.";
     sources := "N/A"; trust_score := 0;
     warning := Some "No relevant AGH documents found - enable web search to search online";
     section_refs := []; language := "en"; tokens := input_tokens;
     processing_time := SinceStart; sources_type := "document" |}.

(** Lines 630-640. *)
Definition not_related (total_tokens : nat) : AGHResponse :=
  {| answer := "This question is not related to AGH regulations.";
     sources := "N/A"; trust_score := 0; warning := None;
     section_refs := []; language := "en"; tokens := total_tokens;
     processing_time := SinceStart; sources_type := "document" |}.

(** Lines 656-666: the outer [except]. *)
Definition processing_error (input_tokens : nat) : AGHResponse :=
  {| answer := "Sorry, there was an error processing your question.";
     sources := "N/A"; trust_score := 0;
     warning := Some "Processing error";
     section_refs := []; language := "en"; tokens := input_tokens;
     processing_time := SinceStart; sources_type := "document" |}.

Section WithLib.
Context {L : Lib}.

(** Lines 453-505: the search made first when web search is enabled.
    [None]: the search raised or found nothing, and the function goes on
    ("Falling back to document search..."). *)
Definition explicit_web_search (w : World) (question : string)
    (input_tokens : nat) : option AGHResponse * list Event :=
  let agh_search_query := agh_search_query question in
  match search_and_extract w agh_search_query 5 with
  | Some (r :: rs) =>
      let search_results := r :: rs in
      let web_content :=
        omap (fun result =>
                if get_truthy (snippet result)
                then Some ("• " +:+ default "" (snippet result)) else None)
             (firstn 5 search_results) in
      let sources := urls (firstn 5 search_results) in
      let web_prompt := web_prompt question web_content in
      let '(answer, tokens_generated) := _generate_answer w web_prompt in
      let total_tokens := (input_tokens + tokens_generated)%nat in
      (Some {| answer := answer +:+ nl +:+ nl +:+
                 "🌐 *This answer is based on web search for AGH University regulations.*";
               sources := sources_text sources;
               trust_score := 7 # 10;
               warning := None;
               section_refs := []; language := "en";
               tokens := total_tokens;
               processing_time := SinceStart;
               sources_type := "web" |},
       [SearchCall agh_search_query 5; GenerateCall web_prompt])
  | _ => (None, [SearchCall agh_search_query 5])
  end.

(** Lines 509-558: the search made when no document was retrieved. *)
Definition fallback_web_search (w : World) (question : string)
    : option AGHResponse * list Event :=
  let agh_search_query := agh_search_query question in
  match search_and_extract w agh_search_query 3 with
  | Some (r :: rs) =>
      let search_results := r :: rs in
      let web_content :=
        map (fun result => "• " +:+ default "" (snippet result))
            (firstn 3 search_results) in
      let sources := urls (firstn 3 search_results) in
      let web_prompt := web_prompt question web_content in
      let '(answer, tokens) := _generate_answer w web_prompt in
      (Some {| answer := answer +:+ nl +:+ nl +:+
                 "🌐 *This answer is based on web search for AGH University regulations since no relevant documents were found in our database.*";
               sources := sources_text sources;
               trust_score := 6 # 10;
               warning := Some "Answer based on web search for AGH regulations - not from internal documents";
               section_refs := []; language := "en";
               tokens := tokens;
               processing_time := SinceStart;
               sources_type := "web" |},
       [SearchCall agh_search_query 3; GenerateCall web_prompt])
  | _ => (None, [SearchCall agh_search_query 3])
  end.

(** Lines 572-652: the answer from the retrieved rows.  [None]: a row is
    missing ([IndexError]), which the outer [except] reports. *)
Definition document_answer (w : World) (rows : list Row)
    (indices : list nat) (question : string) (user_profile : option Profile)
    (input_tokens : nat) : option (AGHResponse * list Event) :=
  picked ← mapM (fun i => rows !! i) indices;
  let chunks :=
    map (fun row => "[" +:+ Title row +:+ "]" +:+ nl +:+ Content row) picked in
  let metadata :=
    map (fun row => {| section := _extract_section_number (Title row);
                       title := Title row;
                       content := Content row |}) picked in
  let '(prompt, used_chunks, used_metadata) :=
    _build_prompt chunks metadata question user_profile 7000 in
  let '(answer, tokens_generated) := _generate_answer w prompt in
  let total_tokens := (input_tokens + tokens_generated)%nat in
  let answer := _fix_known_errors answer in
  let section_matches := findall_refs answer in
  let unique_refs := sorted_set section_matches in
  let used_sections :=
    map (fun meta =>
           let section_ref :=
             if String.eqb (section meta) "N/A" then "General"
             else section meta in
           strip (title meta) +:+ " (§" +:+ section_ref +:+ ")")
        used_metadata in
  let sources :=
    match used_sections with
    | [] => "AGH University Regulations Database"
    | _ => join ", " (sorted_set used_sections)
    end in
  let sources_type := "document" in
  let trust_score :=
    Score._calculate_trust_score (stopwords w) question answer
      (map content used_metadata) in
  let warning :=
    if _is_low_quality_answer question answer || Qltb trust_score (65 # 100)
    then Some "Warning: This answer may be incomplete or off-topic."
    else if (length used_metadata =? 0)%nat
    then Some "Warning: This answer contains no cited regulation sections."
    else None in
  let final :=
    {| answer := answer; sources := sources; trust_score := trust_score;
       warning := warning; section_refs := unique_refs; language := "en";
       tokens := total_tokens; processing_time := SinceStart;
       sources_type := sources_type |} in
  if Qltb trust_score (3 # 10) && (length indices =? 0)%nat
  then
    let relevance_prompt :=
      "Is this question about university study regulations, academic rules, student rights, or educational policies? Answer only 'Yes' or 'No'."
      +:+ nl +:+ nl +:+ "Question: " +:+ question in
    let '(relevance_answer, _) := _generate_answer w relevance_prompt in
    if contains "no" (lower relevance_answer)
    then Some (not_related total_tokens,
               [GenerateCall prompt; GenerateCall relevance_prompt])
    else Some (final, [GenerateCall prompt; GenerateCall relevance_prompt])
  else Some (final, [GenerateCall prompt]).

(** [answer_question], lines 394-666: the response and the calls made. *)
Definition answer_question (w : World) (question : string)
    (enable_web_search : bool) (user_profile : option Profile)
    : AGHResponse * list Event :=
  let input_tokens := length (split question) in
  let has_search_keyword := has_search_keyword question in
  let enable_web_search :=
    if has_search_keyword then true else enable_web_search in
  let question :=
    if has_search_keyword then remove_keywords question else question in
  match df w with
  | None => (not_initialized input_tokens, [])
  | Some rows =>
      match _embed_question w question with
      | None | Some [] => (cannot_process input_tokens, [EmbedCall question])
      | Some question_embedding =>
          let indices :=
            AGHRetrieval._retrieve_relevant_chunks
              (Some (map Embedding rows)) (Some question_embedding)
              (75 # 100) 3 in
          let calls :=
            [EmbedCall question; RetrieveCall question_embedding] in
          let '(web, web_calls) :=
            if enable_web_search
            then explicit_web_search w question input_tokens
            else (None, []) in
          match web with
          | Some response => (response, calls ++ web_calls)
          | None =>
              match indices with
              | [] =>
                  let '(web, fallback_calls) :=
                    if enable_web_search
                    then fallback_web_search w question
                    else (None, []) in
                  (default (no_answer input_tokens) web,
                   calls ++ web_calls ++ fallback_calls)
              | _ =>
                  match document_answer w rows indices question
                          user_profile input_tokens with
                  | Some (response, doc_calls) =>
                      (response, calls ++ web_calls ++ doc_calls)
                  | None =>
                      (processing_error input_tokens, calls ++ web_calls)
                  end
              end
          end
      end
  end.

End WithLib.
End AGHRAGService.

(** ** Vocabulary of the properties *)
Module Spec.
Import Np Py Re AGHRAGService.
Local Open Scope Q_scope.

(** Pairs of a value and its position, compared by value. *)
Definition by_fst (a b : Q * nat) : Prop := a.1 <= b.1.

(** [r] lists positions of [v] by descending value. *)
Definition descending (v : list Q) (r : list nat) : Prop :=
  StronglySorted (fun a b => val v b <= val v a) r.

(** No position left out of [r] has a greater value than one in [r]. *)
Definition top_of (v : list Q) (r : list nat) : Prop :=
  forall i j, i ∈ r -> (j < length v)%nat -> j ∉ r -> val v j <= val v i.

(** The last step of both services on valid positions, as a list. *)
Definition reorder {L : Lib} (v : list Q) (idx : list nat) : list nat :=
  map (fun p => nth p idx 0%nat)
      (reverse (argsort (map (fun i => nth i v 0) idx))).

(** The positions either service keeps before that step. *)
Definition agh_kept {L : Lib} (v : list Q) (t : Q) (k : Z) : list nat :=
  if (length (where_gt v t) =? 0)%nat
  then last_k k (argsort v) else where_gt v t.

Definition adv_kept {L : Lib} (v : list Q) (t : Q) (k : Z) : list nat :=
  if (length (where_gt v t) =? 0)%nat
  then last_k k (argsort v)
  else map (fun p => nth p (where_gt v t) 0%nat)
           (last_k k (argsort (map (fun i => nth i v 0) (where_gt v t)))).

(** [re.search(pattern, s) is not None], reading from a position whose
    previous character is a word character or not. *)
Fixpoint occurs_from (m : matcher) (prevw : bool) (s : string) : bool :=
  match s with
  | EmptyString => false
  | String c s' =>
      match m prevw s with
      | Some _ => true
      | None => occurs_from m (is_word c) s'
      end
  end.
Definition occurs (m : matcher) (s : string) : bool := occurs_from m false s.

(** The first [n] characters of [s]. *)
Fixpoint stake (n : nat) (s : string) : string :=
  match n, s with
  | S k, String c s' => String c (stake k s')
  | _, _ => EmptyString
  end.

(** The character [a] does not occur in [s]. *)
Fixpoint lacks (a : ascii) (s : string) : bool :=
  match s with
  | EmptyString => true
  | String c s' => negb (Ascii.eqb c a) && lacks a s'
  end.

(** [r] and [u] differ at a position that both have. *)
Fixpoint apart (r u : string) : bool :=
  match r, u with
  | String a r', String b u' => negb (Ascii.eqb a b) || apart r' u'
  | _, _ => false
  end.

(** [r] is apart from what begins at every position of [u]. *)
Fixpoint nowhere (r u : string) : bool :=
  match u with
  | EmptyString => true
  | String _ u' => apart r u && nowhere r u'
  end.

(** A replacement that cannot take part in an occurrence of
    [\b6<tail>\b]: it begins and ends with a word character, it has no
    [6], and it cannot begin inside [tail]. *)
Definition inert (tail r : string) : bool :=
  head_is_word r && nowhere r tail && lacks "6" r && last_is_word false r.

(** A matcher whose matches end in a word character. *)
Definition ends_in_word (m : matcher) : Prop :=
  forall pw s n, m pw s = Some (S n) ->
                 last_is_word pw (stake (S n) s) = true.

(** Every match of the matcher begins with [6]. *)
Definition six_headed (m : matcher) : Prop :=
  forall pw s n, m pw s = Some (S n) -> exists s', s = String "6" s'.

(** The matcher matches only where a [6] is ahead. *)
Definition needs_six (m : matcher) : Prop :=
  forall pw s n, m pw s = Some (S n) -> lacks "6" s = false.

(** A string that begins with a character that is not blank. *)
Definition solid_head (s : string) : bool :=
  match s with
  | EmptyString => false
  | String c _ => negb (is_space c)
  end.

(** Nothing blank at the left end. *)
Definition stripped (s : string) : Prop := s = "" \/ solid_head s = true.

(** The text that is embedded and searched for: the question, with the
    search keywords taken out when it holds one. *)
Definition embedded_text (question : string) : string :=
  if has_search_keyword question then remove_keywords question else question.

(** Web search is on: by the argument or by a keyword. *)
Definition web_requested (question : string) (enable_web_search : bool)
    : bool :=
  if has_search_keyword question then true else enable_web_search.

(** The search raised or found nothing. *)
Definition search_failed (r : option (list SearchResult)) : Prop :=
  r = None \/ r = Some [].

(** The rows retrieved for an embedding, with the defaults of the call. *)
Definition retrieved {L : Lib} (rows : list Row) (e : embedding) : list nat :=
  AGHRetrieval._retrieve_relevant_chunks (Some (map Embedding rows)) (Some e)
    (75 # 100) 3.

End Spec.

(** ** Data of the examples *)
Module Examples.
Import Np Py Re AGHRAGService.
Local Open Scope Q_scope.

(** The spec's scenario, with the identity for a hash: the cache holds
    [("hello", "modelA") -> [0.1, 0.2, 0.3]]. *)
Definition hello_cache : EmbeddingCache.Cache :=
  EmbeddingCache.set (fun s => s)
    (EmbeddingCache.__init__ EmbeddingCache.empty_dir) "hello" "modelA"
    [1 # 10; 2 # 10; 3 # 10] 0%Z.

(** An answer of fifty words, all of them the question's. *)
Definition fifty_grades : string := Py.join " " (replicate 50 "grade").

(** Four rows with the embedding of the question. *)
Definition four_rows : list (option embedding) :=
  [Some [1; 0]; Some [1; 0]; Some [1; 0]; Some [1; 0]].

(** A frame of two rows and a world around it: every question is embedded
    as [embedding], the generator replies [reply], the web search finds
    [found] or, for [None], raises. *)
Definition grade_rows : list Row :=
  [ {| Title := "§19 Grades";
       Content := "passing grade is 50 out of 100";
       Embedding := Some [1; 0] |};
    {| Title := "Other"; Content := "semester rules";
       Embedding := Some [0; 1] |} ].

Definition demo_world (embedding : option embedding) (reply : string)
    (found : option (list SearchResult)) : World :=
  {| df := Some grade_rows;
     ollama_embeddings := fun _ => embedding;
     ollama_generate := fun _ => Reply reply;
     search_and_extract := fun _ _ => found;
     stopwords := Some ["the"; "is"; "what"] |}.

Definition ask (w : World) (question : string) (flag : bool)
    : AGHResponse * list Event :=
  answer_question (L := reference_lib) w question flag None.

End Examples.

(** ** [AdvancedEmbeddingService]: embedding the documents *)
Module DocumentEmbedding.
Import Np.
Local Open Scope Q_scope.

(** [self.metrics] *)
Record Metrics := {
  cache_hits : nat;
  cache_misses : nat;
  api_calls : nat;
  total_processing_time : Q;
}.

(** The fields of the service that these methods read or write; a row of
    [self.df] is its [Title] and its [Content]. *)
Record Service := {
  embedding_model : string;
  cache : EmbeddingCache.Cache;
  metrics : Metrics;
  df : option (list (string * string));
  embeddings_loaded : bool;
}.

(** The readings of the clock during one [embed_document]: [datetime.now()]
    in [cache.get] and in [cache.set], and the seconds between the two
    [time.time()]. *)
Record Clock := {
  at_get : Z;
  at_set : Z;
  elapsed : Q;
}.

Definition with_cache (s : Service) (c : EmbeddingCache.Cache) : Service :=
  {| embedding_model := embedding_model s; cache := c; metrics := metrics s;
     df := df s; embeddings_loaded := embeddings_loaded s |}.

Definition with_metrics (s : Service) (m : Metrics) : Service :=
  {| embedding_model := embedding_model s; cache := cache s; metrics := m;
     df := df s; embeddings_loaded := embeddings_loaded s |}.

Definition with_loaded (s : Service) (b : bool) : Service :=
  {| embedding_model := embedding_model s; cache := cache s;
     metrics := metrics s; df := df s; embeddings_loaded := b |}.

(** [self.metrics['cache_hits'] += 1] and the like. *)
Definition count_hit (m : Metrics) : Metrics :=
  {| cache_hits := S (cache_hits m); cache_misses := cache_misses m;
     api_calls := api_calls m;
     total_processing_time := total_processing_time m |}.

Definition count_miss (m : Metrics) : Metrics :=
  {| cache_hits := cache_hits m; cache_misses := S (cache_misses m);
     api_calls := api_calls m;
     total_processing_time := total_processing_time m |}.

Definition count_api_call (m : Metrics) : Metrics :=
  {| cache_hits := cache_hits m; cache_misses := cache_misses m;
     api_calls := S (api_calls m);
     total_processing_time := total_processing_time m |}.

Definition add_time (m : Metrics) (t : Q) : Metrics :=
  {| cache_hits := cache_hits m; cache_misses := cache_misses m;
     api_calls := api_calls m;
     total_processing_time := total_processing_time m + t |}.

(** [__init__]: the metrics start at zero, no frame is loaded. *)
Definition __init__ (embedding_model : string) (dir : EmbeddingCache.Dir)
    : Service :=
  {| embedding_model := embedding_model;
     cache := EmbeddingCache.__init__ dir;
     metrics := {| cache_hits := 0; cache_misses := 0; api_calls := 0;
                   total_processing_time := 0 |};
     df := None;
     embeddings_loaded := false |}.

Section WithApi.
(** The import flags of the module, [hashlib.md5] and
    [genai.embed_content(model, content, title)['embedding']], which is
    [None] when the call raises; a question is embedded without a title.
    [HAS_ML_LIBS] is off when scikit-learn could not be imported and
    [HAS_GENAI] when the Google client could not; numpy is there in both
    cases, the module does not load without it. *)
Context (HAS_ML_LIBS HAS_GENAI : bool).
Context (md5_hexdigest : string -> string).
Context (embed_content : string -> string -> option string -> option embedding).

(** [embed_document], lines 263-309.  [None]: the call raised; what was
    counted before that stays counted. *)
Definition embed_document (s : Service) (title content : string)
    (use_cache : bool) (clock : Clock) : option embedding * Service :=
  if negb HAS_ML_LIBS then (None, s)
  else if negb HAS_GENAI then (None, s)
  else
    let '(cached_embedding, s) :=
      if use_cache
      then
        let '(r, c) :=
          EmbeddingCache.get md5_hexdigest (cache s) content
            (embedding_model s) (at_get clock) in
        (r, with_cache s c)
      else (None, s) in
    match cached_embedding with
    | Some cached_embedding =>
        (Some cached_embedding, with_metrics s (count_hit (metrics s)))
    | None =>
        let s :=
          if use_cache then with_metrics s (count_miss (metrics s)) else s in
        let s := with_metrics s (count_api_call (metrics s)) in
        match embed_content (embedding_model s) content (Some title) with
        | None => (None, s)
        | Some embedding =>
            let s :=
              if use_cache
              then with_cache s
                     (EmbeddingCache.set md5_hexdigest (cache s) content
                        (embedding_model s) embedding (at_set clock))
              else s in
            let s := with_metrics s (add_time (metrics s) (elapsed clock)) in
            (Some embedding, s)
        end
    end.

(** The loop of [prepare_embeddings], lines 345-360: a row whose embedding
    raises gets [np.zeros(768)].  [clock i] are the readings of the clock
    for row [i]. *)
Fixpoint embed_rows (s : Service) (rows : list (string * string))
    (clock : nat -> Clock) (i : nat) : list embedding * Service :=
  match rows with
  | [] => ([], s)
  | (title, content) :: rest =>
      let '(r, s) := embed_document s title content true (clock i) in
      let embedding := default (replicate 768 0) r in
      let '(embeddings, s) := embed_rows s rest clock (S i) in
      (embedding :: embeddings, s)
  end.

(** [prepare_embeddings], lines 311-373.  [npy] is what [np.load] reads
    from [embedding_cache_path]: [None] when the file is missing or cannot
    be read.  The result is the [Embedding] column of the returned frame,
    the service and the file afterwards; [None]: [ValueError], no frame was
    given and none is loaded. *)
Definition prepare_embeddings (s : Service)
    (df : option (list (string * string))) (force_refresh : bool)
    (npy : option (list embedding)) (clock : nat -> Clock)
    : option (list embedding) * Service * option (list embedding) :=
  let df := match df with Some d => Some d | None => DocumentEmbedding.df s end in
  match df with
  | None => (None, s, npy)
  | Some rows =>
      let cached :=
        if force_refresh then None
        else match npy with
             | Some embeddings =>
                 if (length embeddings =? length rows)%nat
                 then Some embeddings else None
             | None => None
             end in
      match cached with
      | Some embeddings =>
          (Some embeddings, with_loaded s true, npy)
      | None =>
          let '(embeddings, s) := embed_rows s rows clock 0 in
          (Some embeddings, with_loaded s true, Some embeddings)
      end
  end.

(** [embed_question], lines 384-409: every failure is [None]. *)
Definition embed_question (s : Service) (question : string)
    : option embedding :=
  if negb HAS_ML_LIBS then None
  else if negb HAS_GENAI then None
  else embed_content (embedding_model s) question None.

(** [health_check], lines 525-553, without the [timestamp] of the report.
    [embed_question] does not raise, so the [except] of the first check is
    never entered. *)
Record Health := {
  status : string;
  issues : list string;
}.

Definition health_check (s : Service) : Health :=
  let issues := [] in
  let issues :=
    match embed_question s "test" with
    | None => issues ++ ["API returned empty or None embedding"]
    | Some test_embedding =>
        if (length test_embedding =? 0)%nat
        then issues ++ ["API returned empty or None embedding"]
        else issues
    end in
  let issues :=
    match DocumentEmbedding.df s with
    | None => issues ++ ["No documents loaded"]
    | Some rows =>
        if (length rows =? 0)%nat then issues ++ ["No documents loaded"]
        else issues
    end in
  let issues :=
    if negb (embeddings_loaded s) then issues ++ ["Embeddings not prepared"]
    else issues in
  {| status :=
       match issues with
       | [] => "healthy"
       | _ => if (length issues <? 3)%nat then "degraded" else "unhealthy"
       end;
     issues := issues |}.

End WithApi.

(** [get_performance_metrics], lines 510-523. *)
Record Performance := {
  cache_hit_rate : Q;
  total_api_calls : nat;
  average_processing_time : Q;
  performance_embeddings_loaded : bool;
  documents_count : nat;
}.

Definition get_performance_metrics (s : Service) : Performance :=
  let m := metrics s in
  let total_requests := (cache_hits m + cache_misses m)%nat in
  let cache_hit_rate :=
    if (0 <? total_requests)%nat
    then inject_Z (Z.of_nat (cache_hits m))
         / inject_Z (Z.of_nat total_requests)
    else 0 in
  {| cache_hit_rate := Score.round3 cache_hit_rate;
     total_api_calls := api_calls m;
     average_processing_time :=
       Score.round3 (total_processing_time m
                     / inject_Z (Z.of_nat (Nat.max 1 (api_calls m))));
     performance_embeddings_loaded := embeddings_loaded s;
     documents_count :=
       match df s with Some rows => length rows | None => 0%nat end |}.

End DocumentEmbedding.

(** ** [AGHRAGService]: preparing the embeddings *)
Module AGHPreparation.
Import Np Py Re AGHRAGService.
Local Open Scope Q_scope.

(** [_generate_embedding(text, title)], lines 127-151, with the title that
    [_prepare_embeddings] passes. *)
Definition _generate_embedding (w : World) (text title : string)
    : option embedding :=
  let content := if truthy title then title +:+ nl +:+ text else text in
  ollama_embeddings w content.

(** The file [agh_embedding_cache.npy]: missing, one that [np.load] cannot
    read, or the saved column. *)
Inductive NpyFile :=
| Missing
| Unreadable
| Saved (embeddings : list embedding).

Definition with_embedding (row : string * string) (e : option embedding)
    : Row :=
  {| Title := row.1; Content := row.2; Embedding := e |}.

(** [_prepare_embeddings], lines 153-192.  A row of the frame read from
    the sheet is its [Title] and its [Content].  When [np.load] raises,
    the [except] returns the frame as it came, without embeddings. *)
Definition _prepare_embeddings (w : World) (df : list (string * string))
    (npy : NpyFile) : list Row * NpyFile :=
  match npy with
  | Unreadable => (map (fun row => with_embedding row None) df, npy)
  | _ =>
      let cached :=
        match npy with
        | Saved cached_embeddings =>
            if (length cached_embeddings =? length df)%nat
            then Some cached_embeddings else None
        | _ => None
        end in
      match cached with
      | Some cached_embeddings =>
          (zip_with (fun row e => with_embedding row (Some e))
             df cached_embeddings, npy)
      | None =>
          let embeddings :=
            map (fun row : string * string =>
                   let title := row.1 in
                   let content := row.2 in
                   match _generate_embedding w content title with
                   | Some (x :: e) => x :: e
                   | _ => replicate 768 0
                   end) df in
          (zip_with (fun row e => with_embedding row (Some e)) df embeddings,
           Saved embeddings)
      end
  end.

End AGHPreparation.

(** ** [AdvancedAtlasRAGEngine]: labels, local search and retries *)
Module AdvancedAtlasRAGEngine.
Import Np Py.
Local Open Scope Q_scope.

(** [_determine_chunk_quality], lines 848-871; of the chunks only their
    number is read. *)
Definition _determine_chunk_quality {A} (chunks : list A) (query : string)
    (confidence_score : Q) : string :=
  match chunks with
  | [] => "⚠️ No relevant info"
  | _ =>
      if Qle_bool (8 # 10) confidence_score then "🌟 Excellent"
      else if Qle_bool (6 # 10) confidence_score then "✨ Very Good"
      else if Qle_bool (4 # 10) confidence_score then "👍 Good"
      else if Qle_bool (3 # 10) confidence_score then "⚠️ Limited"
      else if (3 <=? length chunks)%nat then "🌟 Excellent"
      else if (2 <=? length chunks)%nat then "✨ Very Good"
      else if (1 <=? length chunks)%nat then "👍 Good"
      else "📝 Basic"
  end.

(** An entry of [self.knowledge_base]: the three keys that the search
    reads, a missing key being its default. *)
Record Entry := {
  title : string;
  content : string;
  keywords : list string;
}.

(** Lines 234-244: the relevance of one entry. *)
Definition total_score (query_words : gset string) (entry : Entry) : nat :=
  let content_words : gset string :=
    list_to_set (split (lower (content entry))) in
  let title_words : gset string :=
    list_to_set (split (lower (title entry))) in
  let keyword_score :=
    (size (query_words ∩ list_to_set (keywords entry)) * 2)%nat in
  let content_score := size (query_words ∩ content_words) in
  let title_score := (size (query_words ∩ title_words) * 3)%nat in
  (keyword_score + content_score + title_score)%nat.

(** [results.sort(key=lambda x: x["score"], reverse=True)]: Python's sort
    is stable, also in reverse, so that entries of one score keep their
    order. *)
Fixpoint insert_desc (x : Entry * nat) (l : list (Entry * nat))
    : list (Entry * nat) :=
  match l with
  | [] => [x]
  | y :: t => if (snd y <=? snd x)%nat then x :: l else y :: insert_desc x t
  end.

Fixpoint sort_desc (l : list (Entry * nat)) : list (Entry * nat) :=
  match l with
  | [] => []
  | x :: t => insert_desc x (sort_desc t)
  end.

(** [a[:k]]: the first [k], or all but the last [-k] when [k] is
    negative. *)
Definition first_k {A} (k : Z) (a : list A) : list A :=
  if (0 <=? k)%Z then firstn (Z.to_nat k) a
  else firstn (length a - Z.to_nat (- k)) a.

(** [_search_local_knowledge], lines 224-254. *)
Definition _search_local_knowledge (knowledge_base : list Entry)
    (query : string) (top_k : Z) : list Entry :=
  match knowledge_base with
  | [] => []
  | _ =>
      let query_words : gset string := list_to_set (split (lower query)) in
      let results :=
        omap (fun entry =>
                let total_score := total_score query_words entry in
                if (0 <? total_score)%nat then Some (entry, total_score)
                else None)
             knowledge_base in
      let results := sort_desc results in
      map fst (first_k top_k results)
  end.

(** What [_make_ollama_request_with_retry] returns: the response of
    [requests.post], or its [MockResponse], of status 500 and an empty
    text. *)
Inductive Response :=
| Http (status_code : Z) (response : string)
| MockResponse.

Definition status_code_of (r : Response) : Z :=
  match r with
  | Http status_code _ => status_code
  | MockResponse => 500
  end.

(** What it does on the way. *)
Inductive Step :=
| Post (attempt : nat)
| Sleep (wait_time : Q).

(** The loop of lines 167-188 from [attempt] on, with [n] rounds left.
    [post attempt] is the response of that attempt, [None] when
    [requests.post] raises. *)
Fixpoint attempts (post : nat -> option Response) (max_retries : Z)
    (attempt n : nat) : option Response * list Step :=
  match n with
  | O => (None, [])
  | S n' =>
      match post attempt with
      | Some response => (Some response, [Post attempt])
      | None =>
          if (Z.of_nat attempt <? max_retries)%Z
          then
            let wait_time := inject_Z (2 ^ Z.of_nat attempt) * (1 # 2) in
            let '(r, steps) := attempts post max_retries (S attempt) n' in
            (r, Post attempt :: Sleep wait_time :: steps)
          else (Some MockResponse, [Post attempt])
      end
  end.

(** [_make_ollama_request_with_retry]: [range(max_retries + 1)] rounds;
    [None] is Python's, returned when the loop has no round. *)
Definition _make_ollama_request_with_retry (post : nat -> option Response)
    (max_retries : Z) : option Response * list Step :=
  attempts post max_retries 0 (Z.to_nat (max_retries + 1)).

End AdvancedAtlasRAGEngine.

(** ** [AdvancedAtlasRAGEngine]: [process_question] *)
Module ProcessQuestion.
Import Np Py AdvancedAtlasRAGEngine.
Local Open Scope Q_scope.

(** One result of [search_and_extract]: the four keys that are read, a
    missing key being [None]. *)
Record WebHit := {
  hit_title : option string;
  hit_content : option string;
  hit_snippet : option string;
  hit_url : option string;
}.

(** One result of [_perform_web_search]. *)
Record WebResult := {
  result_title : string;
  result_content : string;
  result_url : string;
  result_source : string;
}.

(** What [_generate_answer_with_gemma] gets from Ollama and the dialect
    service, lines 671-766: the answer, stripped and in dialect; another
    status than 200, with the language detected; or an exception. *)
Inductive GemmaReply :=
| Answered (answer : string)
| BadStatus (detected_language : string)
| Raised.

(** What is outside [process_question]: the flag, the web search
    ([None]: it raised), the generator with a context, and the direct
    answer of lines 428-452 ([None]: it raised). *)
Record Engine := {
  ollama_available : bool;
  search_and_extract : string -> nat -> option (list WebHit);
  gemma_reply : string -> string -> GemmaReply;
  direct_reply : string -> option string;
}.

Record RAGResponse := {
  answer : string;
  sources : list string;
  confidence_score : Q;
  chunks_used : nat;
  chunk_quality : string;
  mode : string;
  web_enhanced : bool;
  sources_type : string;
  web_source_urls : option (list string);
}.

Definition truthy_key (o : option string) : bool :=
  match o with
  | Some s => truthy s
  | None => false
  end.

(** [_perform_web_search], lines 815-846. *)
Definition _perform_web_search (eng : Engine) (query : string)
    : list WebResult :=
  match search_and_extract eng query 5 with
  | Some results =>
      omap (fun result =>
              if truthy_key (hit_content result)
                 || truthy_key (hit_snippet result)
              then Some {| result_title :=
                             default "Web Result" (hit_title result);
                           result_content :=
                             match hit_content result with
                             | Some c => c
                             | None => default "" (hit_snippet result)
                             end;
                           result_url := default "" (hit_url result);
                           result_source := "web_search" |}
              else None)
           results
  | None => []
  end.

(** [_fallback_answer], lines 779-785. *)
Definition _fallback_answer (query language : string) : string :=
  if String.eqb language "tr" || String.eqb language "turkish"
  then "'" +:+ query +:+ "' akkında soru sorduğunuzu anlıyorum be ya. Şu anda sistem kısıtlamaları nedeniyle detaylı cevap veremiyorum, ama sorunuzu yeniden ifade ederseniz veya web aramasını etkinleştirirseniz daha kapsamlı sonuçlar alabiliriz canım."
  else "I understand you're asking about '" +:+ query +:+ "', my friend. While I can't provide a detailed answer right now due to system limitations, I'd be happy to help if you could rephrase your question or enable web search for more comprehensive results, be ya!".

(** [_generate_answer_with_gemma], lines 666-777. *)
Definition _generate_answer_with_gemma (eng : Engine) (query context : string)
    : string * Q :=
  if negb (ollama_available eng) then (_fallback_answer query "english", 3 # 10)
  else
    match gemma_reply eng query context with
    | Answered answer =>
        (answer, Score._estimate_confidence query answer context)
    | BadStatus detected_language =>
        (_fallback_answer query detected_language, 3 # 10)
    | Raised => (_fallback_answer query "english", 3 # 10)
    end.

(** [_generate_direct_answer], lines 417-456. *)
Definition _generate_direct_answer (eng : Engine) (query : string)
    : string * Q :=
  match direct_reply eng query with
  | Some response => (response, 8 # 10)
  | None => (_fallback_answer query "english", 3 # 10)
  end.

(** [process_question], lines 873-942, without the two readings of the
    clock. *)
Definition process_question (eng : Engine) (user_question : string)
    (enable_web_search : bool) : RAGResponse :=
  let web_results :=
    if enable_web_search then _perform_web_search eng user_question
    else [] in
  let web_enhanced := match web_results with [] => false | _ => true end in
  let context := join (Re.nl +:+ Re.nl) (map result_content web_results) in
  let web_source_urls :=
    omap (fun result =>
            if truthy (result_url result) then Some (result_url result)
            else None) web_results in
  let sources_type := if web_enhanced then "web" else "general" in
  let local_results := web_results in
  let sources :=
    map (fun result => "🌐 " +:+ result_title result) web_results in
  let '(answer, confidence) :=
    if truthy (strip context)
    then
      let '(answer, confidence) :=
        _generate_answer_with_gemma eng user_question context in
      (if web_enhanced && negb (length web_source_urls =? 0)%nat
       then answer +:+ Re.nl +:+ Re.nl
            +:+ "🌐 *This answer is based on web search results.*"
       else answer, confidence)
    else
      if ollama_available eng then _generate_direct_answer eng user_question
      else (_fallback_answer user_question "english", 3 # 10) in
  let chunk_quality :=
    _determine_chunk_quality local_results user_question confidence in
  {| answer := answer;
     sources := sources;
     confidence_score := confidence;
     chunks_used := length local_results;
     chunk_quality := chunk_quality;
     mode := if web_enhanced then "GEMMA3_WEB" else "GEMMA3_DIRECT";
     web_enhanced := web_enhanced;
     sources_type := sources_type;
     web_source_urls :=
       match web_source_urls with
       | [] => None
       | _ => Some web_source_urls
       end |}.

End ProcessQuestion.

(** ** Vocabulary of the further properties *)
Module Terms.
Import Np EmbeddingCache.

(** An entry is older than the time to live of [c] when the clock reads
    [now]: the test of [get] and of [cleanup_expired]. *)
Definition expired (c : Cache) (now : Z) (e : MetaEntry) : bool :=
  (timedelta_hours (ttl_hours c) <? now - timestamp e)%Z.

(** Every entry of the metadata file has its pickle file. *)
Definition consistent (c : Cache) : Prop :=
  forall k, is_Some (_load_metadata c !! k) ->
            is_Some (files (cache_dir c) !! k).

End Terms.

(** ** Sequences of [embed_document] *)
Module Runs.
Import Np DocumentEmbedding.

(** One call of [embed_document]. *)
Record Request := {
  title : string;
  content : string;
  use_cache : bool;
  clock : Clock;
}.

(** A sequence of calls of [embed_document] on one service: the results
    and the service afterwards. *)
Fixpoint run (HAS_ML_LIBS HAS_GENAI : bool) (md5_hexdigest : string -> string)
    (embed_content : string -> string -> option string -> option embedding)
    (s : Service) (requests : list Request)
    : list (option embedding) * Service :=
  match requests with
  | [] => ([], s)
  | r :: rest =>
      let '(e, s) :=
        embed_document HAS_ML_LIBS HAS_GENAI md5_hexdigest embed_content s
          (title r) (content r) (use_cache r) (clock r) in
      let '(es, s) :=
        run HAS_ML_LIBS HAS_GENAI md5_hexdigest embed_content s rest in
      (e :: es, s)
  end.

(** The calls that go around the cache. *)
Definition uncached (requests : list Request) : nat :=
  length (filter (fun r => use_cache r = false) requests).

End Runs.

(** ** Vocabulary of the calls, the prompts and the section numbers *)
Module Traces.
Import Np Py Re AGHRAGService.

(** The kind of a call, without its text. *)
Inductive Kind :=
| Embed
| Retrieve
| Search (max_results : nat)
| Generate.

Definition kind (e : Event) : Kind :=
  match e with
  | EmbedCall _ => Embed
  | RetrieveCall _ => Retrieve
  | SearchCall _ n => Search n
  | GenerateCall _ => Generate
  end.

Definition is_search (e : Event) : bool :=
  match e with SearchCall _ _ => true | _ => false end.

(** The chunks of a prompt, each followed by an empty line. *)
Fixpoint blocks (chunks : list string) : string :=
  match chunks with
  | [] => ""
  | chunk :: rest => chunk +:+ nl +:+ nl +:+ blocks rest
  end.

(** A decimal numeral [\d+(?:\.\d+)?]. *)
Fixpoint all_digits (s : string) : bool :=
  match s with
  | EmptyString => true
  | String c s' => is_digit c && all_digits s'
  end.

Definition numeral (s : string) : Prop :=
  exists d, d <> "" /\ all_digits d = true /\
    (s = d \/ exists d2, d2 <> "" /\ all_digits d2 = true /\
                         s = d +:+ "." +:+ d2).

(** A text of ASCII characters and section signs ([§], in UTF-8 the two
    bytes 194 and 167). *)
Fixpoint plain_title (s : string) : bool :=
  match s with
  | EmptyString => true
  | String c s' =>
      if code c <? 128 then plain_title s'
      else
        match s' with
        | String d s'' => (code c =? 194) && (code d =? 167) && plain_title s''
        | EmptyString => false
        end
  end.

End Traces.

(** ** Vocabulary of the retries *)
Module Retries.
Import AdvancedAtlasRAGEngine.
Local Open Scope Q_scope.

(** The requests made. *)
Fixpoint posts (steps : list Step) : nat :=
  match steps with
  | [] => 0
  | Post _ :: rest => S (posts rest)
  | Sleep _ :: rest => posts rest
  end.

(** The seconds slept. *)
Fixpoint slept (steps : list Step) : Q :=
  match steps with
  | [] => 0
  | Sleep w :: rest => w + slept rest
  | Post _ :: rest => slept rest
  end.

End Retries.

(** ** Data of the further examples *)
Module Scenarios.
Import Np.
Local Open Scope Q_scope.

(** One microsecond more than the week of the time to live. *)
Definition a_week_later : Z := 604800000001.

(** A service that has embedded nothing yet, an API that embeds every
    text as [[1, 0]], and a clock that stands still. *)
Definition fresh_service : DocumentEmbedding.Service :=
  DocumentEmbedding.__init__ "embedding-model" EmbeddingCache.empty_dir.

Definition constant_api : string -> string -> option string -> option embedding :=
  fun _ _ _ => Some [1; 0].

Definition still : DocumentEmbedding.Clock :=
  {| DocumentEmbedding.at_get := 0; DocumentEmbedding.at_set := 0;
     DocumentEmbedding.elapsed := 1 # 2 |}.

Definition one_row : list (string * string) :=
  [("§19 Grades", "passing grade is 50 out of 100")].

(** A frame whose row has no embedding, and a world around it. *)
Definition bare_rows : list AGHRAGService.Row :=
  [ {| AGHRAGService.Title := "§19 Grades";
       AGHRAGService.Content := "passing grade is 50 out of 100";
       AGHRAGService.Embedding := None |} ].

Definition bare_world : AGHRAGService.World :=
  {| AGHRAGService.df := Some bare_rows;
     AGHRAGService.ollama_embeddings := fun _ => Some [1; 0];
     AGHRAGService.ollama_generate := fun _ => AGHRAGService.Reply "x";
     AGHRAGService.search_and_extract := fun _ _ => None;
     AGHRAGService.stopwords := Some [] |}.

(** The same frame as [Examples.demo_world], where nltk's stop words
    cannot be read. *)
Definition no_corpus_world : AGHRAGService.World :=
  {| AGHRAGService.df := Some Examples.grade_rows;
     AGHRAGService.ollama_embeddings := fun _ => Some [1; 0];
     AGHRAGService.ollama_generate :=
       fun _ => AGHRAGService.Reply "The passing grade is 50 out of 100.";
     AGHRAGService.search_and_extract := fun _ _ => None;
     AGHRAGService.stopwords := None |}.

(** A web search that finds one page. *)
Definition one_page : list AGHRAGService.SearchResult :=
  [ {| AGHRAGService.snippet := Some "AGH study regulations";
       AGHRAGService.url := Some "https://www.agh.edu.pl" |} ].

(** Ollama raises twice and answers the third request. *)
Definition third_time : nat -> option AdvancedAtlasRAGEngine.Response :=
  fun attempt =>
    if (attempt <? 2)%nat then None
    else Some (AdvancedAtlasRAGEngine.Http 200 "ok").

End Scenarios.

(* ===================================================================== *)
(** * Part II. Properties                                                 *)
(* ===================================================================== *)

(** ** The reference library meets numpy's contract *)
Module LibFacts.
Import Np Spec.
Local Open Scope Q_scope.

Lemma Qltb_lt a b : Qltb a b = true <-> a < b.
Proof.
  unfold Qltb. rewrite negb_true_iff, <- not_true_iff_false, Qle_bool_iff.
  split; [apply Qnot_le_lt | apply Qlt_not_le].
Qed.

Lemma Qltb_ge a b : Qltb a b = false <-> b <= a.
Proof.
  unfold Qltb. rewrite negb_false_iff, Qle_bool_iff. reflexivity.
Qed.

Lemma insert_by_perm x l : insert_by x l ≡ₚ x :: l.
Proof.
  induction l as [|y t IH]; simpl; [reflexivity|].
  destruct (Qle_bool x.1 y.1); [reflexivity|].
  rewrite IH. apply Permutation_swap.
Qed.

Lemma isort_perm l : isort l ≡ₚ l.
Proof.
  induction l as [|x t IH]; simpl; [reflexivity|].
  rewrite insert_by_perm. by f_equiv.
Qed.

Lemma insert_by_sorted x l :
  StronglySorted by_fst l -> StronglySorted by_fst (insert_by x l).
Proof.
  induction 1 as [|y t Hs IH Hall]; simpl.
  - repeat constructor.
  - destruct (Qle_bool x.1 y.1) eqn:E.
    + apply Qle_bool_iff in E. constructor; [by constructor|].
      constructor; [exact E|].
      eapply Forall_impl; [exact Hall|]. unfold by_fst. simpl.
      intros z Hz. eapply Qle_trans; [exact E | exact Hz].
    + assert (y.1 <= x.1) as Hyx.
      { apply Qlt_le_weak, Qnot_le_lt. intros H.
        apply Qle_bool_iff in H. congruence. }
      constructor; [exact IH|].
      rewrite insert_by_perm. by constructor.
Qed.

Lemma isort_sorted l : StronglySorted by_fst (isort l).
Proof.
  induction l as [|x t IH]; simpl; [constructor|].
  by apply insert_by_sorted.
Qed.

Lemma zip_seq_val (v w : list Q) :
  Forall (fun p : Q * nat => p.1 = val (w ++ v) p.2)
         (zip v (seq (length w) (length v))).
Proof.
  revert w. induction v as [|x v IH]; intros w; simpl; [constructor|].
  constructor.
  - simpl. unfold val. rewrite app_nth2 by lia.
    by rewrite Nat.sub_diag.
  - specialize (IH (w ++ [x])).
    rewrite length_app in IH. simpl in IH.
    rewrite Nat.add_1_r, <- app_assoc in IH. exact IH.
Qed.

Lemma stable_argsort_perm v : stable_argsort v ≡ₚ seq 0 (length v).
Proof.
  unfold stable_argsort. rewrite isort_perm.
  rewrite snd_zip; [reflexivity|]. by rewrite length_seq.
Qed.

Lemma sorted_map_snd (v : list Q) (l : list (Q * nat)) :
  Forall (fun p : Q * nat => p.1 = val v p.2) l ->
  StronglySorted by_fst l ->
  StronglySorted (fun a b => val v a <= val v b) (map snd l).
Proof.
  intros Hval Hs. induction Hs as [|p t Hs IH Hall]; simpl; [constructor|].
  inversion Hval as [|? ? Hp Ht]; subst.
  constructor; [by apply IH|].
  rewrite Forall_map. rewrite Forall_forall in Hall, Ht |- *.
  intros z Hz. simpl. rewrite <- Hp, <- (Ht z Hz). by apply Hall.
Qed.

Lemma stable_argsort_sorted v :
  StronglySorted (fun a b => val v a <= val v b) (stable_argsort v).
Proof.
  unfold stable_argsort. apply sorted_map_snd; [|apply isort_sorted].
  rewrite isort_perm. exact (zip_seq_val v []).
Qed.

Lemma Qsquare_nonneg (x : Q) : 0 <= x * x.
Proof.
  unfold Qle, Qmult. simpl. rewrite Z.mul_1_r. apply Z.square_nonneg.
Qed.

Lemma dot_self_nonneg v : 0 <= dot v v.
Proof.
  induction v as [|x v IH]; simpl; [apply Qle_refl|].
  pose proof (Qsquare_nonneg x) as Hx. lra.
Qed.

Lemma dot_self_zero v : dot v v == 0 -> Forall (fun x => x == 0) v.
Proof.
  induction v as [|x v IH]; simpl; intros H; [constructor|].
  pose proof (dot_self_nonneg v) as Hv.
  pose proof (Qsquare_nonneg x) as Hx.
  assert (x * x == 0) as Hxx by lra.
  constructor; [|apply IH; lra].
  apply Qmult_integral in Hxx. tauto.
Qed.

Lemma sqrt_down_nonneg x : 0 <= sqrt_down x.
Proof.
  unfold sqrt_down, Qle. simpl. rewrite Z.mul_1_r. apply Z.sqrt_nonneg.
Qed.

Lemma sqrt_down_zero x : sqrt_down x == 0 -> x <= 0.
Proof.
  unfold sqrt_down. intros H. rewrite <- (Qred_correct x).
  destruct (Qred x) as [n d]. unfold Qeq in H. simpl in *.
  rewrite Z.mul_1_r in H.
  unfold Qle. simpl. rewrite Z.mul_1_r.
  destruct (Z.le_gt_cases n 0) as [Hn|Hn]; [exact Hn|exfalso].
  assert (0 < Z.sqrt (n * Z.pos d * 10 ^ 16))%Z as Hpos; [|lia].
  apply Z.sqrt_pos. nia.
Qed.

#[export] Instance reference_lib_spec : LibSpec reference_lib.
Proof.
  split; simpl.
  - apply stable_argsort_perm.
  - apply stable_argsort_sorted.
  - intros v. apply sqrt_down_nonneg.
  - intros v H. apply dot_self_zero. apply sqrt_down_zero in H.
    pose proof (dot_self_nonneg v). lra.
Qed.

Lemma insert_after_perm x l : insert_after x l ≡ₚ x :: l.
Proof.
  induction l as [|y t IH]; simpl; [reflexivity|].
  destruct (Qltb x.1 y.1); [reflexivity|].
  rewrite IH. apply Permutation_swap.
Qed.

Lemma isort_after_perm l : isort_after l ≡ₚ l.
Proof.
  induction l as [|x t IH]; simpl; [reflexivity|].
  rewrite insert_after_perm. by f_equiv.
Qed.

Lemma insert_after_sorted x l :
  StronglySorted by_fst l -> StronglySorted by_fst (insert_after x l).
Proof.
  induction 1 as [|y t Hs IH Hall]; simpl.
  - repeat constructor.
  - destruct (Qltb x.1 y.1) eqn:E.
    + apply Qltb_lt, Qlt_le_weak in E. constructor; [by constructor|].
      constructor; [exact E|].
      eapply Forall_impl; [exact Hall|]. unfold by_fst. simpl.
      intros z Hz. eapply Qle_trans; [exact E | exact Hz].
    + apply Qltb_ge in E.
      constructor; [exact IH|].
      rewrite insert_after_perm. by constructor.
Qed.

Lemma isort_after_sorted l : StronglySorted by_fst (isort_after l).
Proof.
  induction l as [|x t IH]; simpl; [constructor|].
  by apply insert_after_sorted.
Qed.

Lemma reversing_argsort_perm v : reversing_argsort v ≡ₚ seq 0 (length v).
Proof.
  unfold reversing_argsort. rewrite isort_after_perm.
  rewrite snd_zip; [reflexivity|]. by rewrite length_seq.
Qed.

Lemma reversing_argsort_sorted v :
  StronglySorted (fun a b => val v a <= val v b) (reversing_argsort v).
Proof.
  unfold reversing_argsort. apply sorted_map_snd; [|apply isort_after_sorted].
  rewrite isort_after_perm. exact (zip_seq_val v []).
Qed.

#[export] Instance reversing_lib_spec : LibSpec reversing_lib.
Proof.
  split; simpl.
  - apply reversing_argsort_perm.
  - apply reversing_argsort_sorted.
  - intros v. apply sqrt_down_nonneg.
  - intros v H. apply dot_self_zero. apply sqrt_down_zero in H.
    pose proof (dot_self_nonneg v). lra.
Qed.
End LibFacts.

(** ** The key material [text:model] *)
Module KeyFacts.
Import Spec.
#[local] Arguments String.append !_ _ / : simpl nomatch.

Lemma lacks_separated a b : lacks ":" (a +:+ String ":" b) = false.
Proof.
  induction a as [|c a IH]; [reflexivity|].
  cbn [String.append lacks]. rewrite IH. apply andb_false_r.
Qed.

Lemma combined_split t1 m1 t2 m2 :
  lacks ":" m1 = true -> lacks ":" m2 = true ->
  t1 +:+ ":" +:+ m1 = t2 +:+ ":" +:+ m2 -> t1 = t2 /\ m1 = m2.
Proof.
  intros H1 H2. revert t2.
  induction t1 as [|c t1 IH]; intros [|c' t2] H; cbn in H.
  - by injection H.
  - injection H as _ ->. by rewrite lacks_separated in H1.
  - injection H as _ <-. by rewrite lacks_separated in H2.
  - injection H as -> H. destruct (IH _ H) as [-> ->]. done.
Qed.

End KeyFacts.

(** ** The embedding cache *)
Module CacheFacts.
Import Np EmbeddingCache Examples.
Local Open Scope Z_scope.

Section WithHash.
Context (md5_hexdigest : string -> string).

#[local] Abbreviation key := (_get_cache_key md5_hexdigest).
#[local] Abbreviation get := (EmbeddingCache.get md5_hexdigest).
#[local] Abbreviation set := (EmbeddingCache.set md5_hexdigest).

Lemma set_files c t m v now k :
  files (cache_dir (set c t m v now)) !! k =
  if decide (key t m = k) then Some v else files (cache_dir c) !! k.
Proof. unfold EmbeddingCache.set. simpl. apply lookup_insert. Qed.

Lemma set_metadata c t m v now k :
  _load_metadata (set c t m v now) !! k =
  if decide (key t m = k)
  then Some {| timestamp := now; model := m; text_length := String.length t |}
  else _load_metadata c !! k.
Proof. unfold EmbeddingCache.set, _load_metadata. simpl. apply lookup_insert. Qed.

Lemma set_ttl c t m v now : ttl_hours (set c t m v now) = ttl_hours c.
Proof. reflexivity. Qed.

Lemma get_fresh c t m v t0 t1 :
  t1 - t0 <= timedelta_hours (ttl_hours c) ->
  get (set c t m v t0) t m t1 = (Some v, set c t m v t0).
Proof.
  intros H. unfold EmbeddingCache.get.
  rewrite set_files, set_metadata, set_ttl.
  rewrite !decide_True by reflexivity. simpl.
  destruct (Z.ltb_spec (timedelta_hours (ttl_hours c)) (t1 - t0)); [lia|done].
Qed.

Lemma invalidate_files c k :
  files (cache_dir (_invalidate_entry c k)) !! k = None.
Proof.
  unfold _invalidate_entry, _load_metadata. simpl.
  destruct (default ∅ (metadata_file (cache_dir c)) !! k); simpl;
    apply lookup_delete_eq.
Qed.

Lemma get_absent c t m now :
  files (cache_dir c) !! key t m = None -> get c t m now = (None, c).
Proof. intros H. unfold EmbeddingCache.get. by rewrite H. Qed.

Lemma get_expired c t m v t0 t1 :
  timedelta_hours (ttl_hours c) < t1 - t0 ->
  get (set c t m v t0) t m t1 =
    (None, _invalidate_entry (set c t m v t0) (key t m)).
Proof.
  intros H. unfold EmbeddingCache.get.
  rewrite set_files, set_metadata, set_ttl.
  rewrite !decide_True by reflexivity. simpl.
  destruct (Z.ltb_spec (timedelta_hours (ttl_hours c)) (t1 - t0)); [done|lia].
Qed.

Lemma combined_inj t m1 m2 : t +:+ ":" +:+ m1 = t +:+ ":" +:+ m2 -> m1 = m2.
Proof.
  induction t as [|c t IH]; simpl; intros H.
  - by injection H.
  - injection H as H. by apply IH.
Qed.

Lemma get_other_key c t m v now t' m' now' :
  key t m <> key t' m' ->
  (get (set c t m v now) t' m' now').1 = (get c t' m' now').1.
Proof.
  intros Hk. unfold EmbeddingCache.get.
  rewrite set_files, set_metadata, set_ttl.
  rewrite !decide_False by exact Hk.
  destruct (files (cache_dir c) !! key t' m'); [|done].
  destruct (_load_metadata c !! key t' m'); [|done].
  by destruct (_ <? _).
Qed.
(** The key material is [text:model] with nothing escaped, so a colon can
    move between the two parts: whatever the hash, the text [a:b] under
    model [c] and the text [a] under model [b:c] share one entry. *)
Remark key_separator_ambiguity :
  key "a:b" "c" = key "a" "b:c".
Proof. reflexivity. Qed.

(** C4.  [set(t, m, v)] followed at once by [get(t, m)] returns [v] and
    leaves the cache as it is, and so does every [get] up to [ttl_hours]
    after the write.  Once more than [ttl_hours] has passed, [get(t, m)]
    returns [None] as for a missing entry, removes the entry, and every
    later [get(t, m)] is a miss too.  [__init__] sets [ttl_hours] to
    7 x 24. *)
Theorem cache_roundtrip_and_expiry c t m v t0 :
  0 <= ttl_hours c ->
  get (set c t m v t0) t m t0 = (Some v, set c t m v t0) /\
  (forall t1, t1 - t0 <= timedelta_hours (ttl_hours c) ->
     get (set c t m v t0) t m t1 = (Some v, set c t m v t0)) /\
  (forall t1, timedelta_hours (ttl_hours c) < t1 - t0 ->
     (get (set c t m v t0) t m t1).1 = None /\
     forall t2, get (get (set c t m v t0) t m t1).2 t m t2 =
                (None, (get (set c t m v t0) t m t1).2)) /\
  forall dir, ttl_hours (__init__ dir) = 7 * 24.
Proof.
  intros Httl. split; [|split; [|split]].
  - apply get_fresh. unfold timedelta_hours. lia.
  - intros t1 H. by apply get_fresh.
  - intros t1 H. rewrite (get_expired _ _ _ _ _ _ H). simpl.
    split; [done|]. intros t2. apply get_absent, invalidate_files.
  - done.
Qed.

Lemma get_fresh_key c t m v t0 t' m' t1 :
  key t m = key t' m' ->
  t1 - t0 <= timedelta_hours (ttl_hours c) ->
  (get (set c t m v t0) t' m' t1).1 = Some v.
Proof.
  intros Hk H. unfold EmbeddingCache.get.
  rewrite set_files, set_metadata, set_ttl.
  rewrite !decide_True by exact Hk. simpl.
  by destruct (Z.ltb_spec (timedelta_hours (ttl_hours c)) (t1 - t0)); [lia|].
Qed.

(** C5.  What a [get] under [(t2, m2)] sees of a [set] under [(t1, m1)]
    is decided by the two keys alone: with nothing else stored there and
    within [ttl_hours], it returns the vector when the hashes of [t1:m1]
    and [t2:m2] are equal and misses when they differ.  The key material
    of one text under two models differs, and for model names without a
    colon it determines the text and the model. *)
Theorem cache_key_separates_models c t1 m1 t2 m2 v now now' :
  files (cache_dir c) !! key t2 m2 = None ->
  now' - now <= timedelta_hours (ttl_hours c) ->
  (get (set c t1 m1 v now) t2 m2 now').1 =
    (if decide (md5_hexdigest (t1 +:+ ":" +:+ m1) =
                md5_hexdigest (t2 +:+ ":" +:+ m2))
     then Some v else None) /\
  (t1 = t2 -> m1 <> m2 -> t1 +:+ ":" +:+ m1 <> t2 +:+ ":" +:+ m2) /\
  (Spec.lacks ":" m1 = true -> Spec.lacks ":" m2 = true ->
   t1 +:+ ":" +:+ m1 = t2 +:+ ":" +:+ m2 -> t1 = t2 /\ m1 = m2).
Proof.
  intros Hnone Hfresh. split_and!.
  - destruct (decide _) as [Hk|Hk].
    + by apply get_fresh_key.
    + rewrite get_other_key by exact Hk. by rewrite get_absent.
  - intros -> Hm H. by apply Hm, (combined_inj t2).
  - apply KeyFacts.combined_split.
Qed.

End WithHash.

Lemma cache_roundtrip_and_expiry_witness :
  EmbeddingCache.get (fun s => s) hello_cache "hello" "modelA" 0
  = (Some [1 # 10; 2 # 10; 3 # 10]%Q, hello_cache).
Proof.
  refine (proj1 (cache_roundtrip_and_expiry (fun s => s) (__init__ empty_dir)
                   "hello" "modelA" [1 # 10; 2 # 10; 3 # 10]%Q 0 _)).
  simpl. lia.
Defined.

Lemma cache_key_separates_models_witness :
  (EmbeddingCache.get (fun s => s) hello_cache "hello" "modelB" 5).1 = None.
Proof.
  refine (proj1 (cache_key_separates_models (fun s => s)
                   (__init__ empty_dir) "hello" "modelA" "hello" "modelB"
                   [1 # 10; 2 # 10; 3 # 10]%Q 0 5 _ _)).
  - reflexivity.
  - simpl. unfold timedelta_hours. lia.
Defined.

(** C5, as stated, fails when a model name holds a colon: the text [a:b]
    under model [c] and the text [a] under model [b:c] give one key
    material, so whatever the hash a vector stored under the one is
    returned under the other. *)
Lemma colon_in_model_shares_entry :
  "c" <> "b:c" /\
  forall md5_hexdigest v,
    (EmbeddingCache.get md5_hexdigest
       (EmbeddingCache.set md5_hexdigest (__init__ empty_dir) "a:b" "c" v 0)
       "a" "b:c" 0).1 = Some v.
Proof.
  split; [discriminate|]. intros md5_hexdigest v.
  apply get_fresh_key; [reflexivity|]. simpl. unfold timedelta_hours. lia.
Qed.

End CacheFacts.

(** ** Confidence and trust scores *)
Module ScoreFacts.
Import Score Examples.
Local Open Scope Q_scope.

Lemma overlap_bounds (a b : gset string) (dflt : Q) :
  0 <= dflt <= 1 -> 0 <= overlap a b dflt <= 1.
Proof.
  intros Hd. unfold overlap. destruct (decide (size a = 0%nat)) as [|Hne]; [done|].
  assert (size (a ∩ b) <= size a)%nat as Hle.
  { apply subseteq_size, intersection_subseteq_l. }
  assert (0 < inject_Z (Z.of_nat (size a))) as Hpos.
  { rewrite <- (Zlt_Qlt 0). lia. }
  split.
  - apply Qle_shift_div_l; [exact Hpos|]. rewrite Qmult_0_l.
    rewrite <- (Zle_Qle 0). lia.
  - apply Qle_shift_div_r; [exact Hpos|]. rewrite Qmult_1_l.
    rewrite <- Zle_Qle. lia.
Qed.

Lemma length_factor_bounds answer : 0 <= length_factor answer <= 1.
Proof.
  unfold length_factor. split; [|apply Q.le_min_l].
  apply Q.min_glb; [lra|].
  apply Qle_shift_div_l; [lra|]. rewrite Qmult_0_l.
  rewrite <- (Zle_Qle 0). lia.
Qed.

Lemma round_half_even_bounds (x : Q) (n : Z) :
  0 <= x <= inject_Z n -> (0 <= round_half_even x <= n)%Z.
Proof.
  intros [H0 Hn]. unfold round_half_even.
  pose proof (Qfloor_le x) as Hfl. pose proof (Qlt_floor x) as Hlt.
  assert (0 <= Qfloor x)%Z as Hf0.
  { change 0%Z with (Qfloor 0). by apply Qfloor_resp_le. }
  assert (Qfloor x <= n)%Z as Hfn.
  { rewrite <- (Qfloor_Z n). by apply Qfloor_resp_le. }
  assert (Qfloor x = n -> x - inject_Z (Qfloor x) < 1 # 2) as Htop.
  { intros ->. lra. }
  destruct (Qcompare_spec (x - inject_Z (Qfloor x)) (1 # 2)) as [He|Hl|Hg].
  - destruct (Z.even _); [lia|].
    destruct (decide (Qfloor x = n)) as [E|]; [|lia].
    specialize (Htop E). lra.
  - lia.
  - destruct (decide (Qfloor x = n)) as [E|]; [|lia].
    specialize (Htop E). lra.
Qed.

Lemma round3_bounds x : 0 <= x <= 1 -> 0 <= round3 x <= 1.
Proof.
  intros H. unfold round3.
  destruct (round_half_even_bounds (x * 1000) 1000) as [H0 H1].
  { change (inject_Z 1000) with 1000. lra. }
  unfold Qle. simpl. lia.
Qed.

(** The general scorer is clamped. *)
Lemma estimate_confidence_bounds query answer context :
  1 # 10 <= _estimate_confidence query answer context <= 95 # 100.
Proof.
  unfold _estimate_confidence.
  destruct (_ || _); [lra|].
  split; [|apply Q.le_min_l].
  apply Q.min_glb; [lra|apply Q.le_max_l].
Qed.

(** The document-grounded scorer is a convex combination, rounded. *)
Lemma trust_score_bounds stopwords question answer chunks :
  0 <= _calculate_trust_score stopwords question answer chunks <= 1.
Proof.
  unfold _calculate_trust_score. destruct stopwords as [sw|]; [|lra].
  apply round3_bounds.
  match goal with |- 0 <= _ * ?a + _ * ?b + _ * ?c + _ * ?d <= 1 =>
    assert (0 <= a <= 1) by (apply overlap_bounds; lra);
    assert (0 <= b <= 1) by (apply overlap_bounds; lra);
    assert (0 <= c <= 1) by (apply overlap_bounds; lra);
    assert (0 <= d <= 1) by apply length_factor_bounds;
    lra
  end.
Qed.

(** C2.  The confidence of [_estimate_confidence] lies in [0.1, 0.95] for
    all inputs.  The trust score of [_calculate_trust_score] has no floor
    and no cap: it lies in [0, 1]. *)
Theorem score_bounds :
  (forall query answer context,
     1 # 10 <= _estimate_confidence query answer context <= 95 # 100) /\
  (forall stopwords question answer chunks,
     0 <= _calculate_trust_score stopwords question answer chunks <= 1).
Proof.
  split.
  - apply estimate_confidence_bounds.
  - apply trust_score_bounds.
Qed.

(** C2, as stated, fails for the trust score: it is 0.004 for a one-word
    answer off the question, exactly 0 for an empty answer, and exactly 1
    for a long answer that repeats the question and its source. *)
Lemma trust_score_leaves_interval :
  _calculate_trust_score (Some []) "grade" "x" [] == 4 # 1000 /\
  ~ (1 # 10 <= _calculate_trust_score (Some []) "grade" "x" []) /\
  _calculate_trust_score (Some []) "grade" "" [] == 0 /\
  _calculate_trust_score (Some []) "grade" fifty_grades ["grade"] == 1 /\
  ~ (_calculate_trust_score (Some []) "grade" fifty_grades ["grade"]
     <= 95 # 100).
Proof.
  repeat split; try (vm_compute; reflexivity); vm_compute; intros H; apply H;
    reflexivity.
Qed.

End ScoreFacts.

(** ** Cosine similarity *)
Module CosineFacts.
Import Np.
Local Open Scope Q_scope.

Lemma dot_zero_l a b : Forall (fun x => x == 0) a -> dot a b == 0.
Proof.
  intros H. revert b. induction H as [|x a Hx Ha IH]; intros [|y b]; simpl;
    try reflexivity.
  rewrite Hx, IH. lra.
Qed.

Lemma dot_zero_r a b : Forall (fun x => x == 0) b -> dot a b == 0.
Proof.
  intros H. revert a. induction H as [|y b Hy Hb IH]; intros [|x a]; simpl;
    try reflexivity.
  rewrite Hy, IH. lra.
Qed.

Section WithLib.
Context {L : Lib} {HL : LibSpec L}.

Lemma denominator_positive e q :
  0 < linalg_norm e * linalg_norm q + (1 # 100000000).
Proof.
  pose proof (Qmult_le_0_compat _ _ (norm_nonneg e) (norm_nonneg q)). lra.
Qed.

Lemma similarities_lookup all q sims i e :
  AGHRetrieval.similarities all q = Some sims ->
  all !! i = Some e ->
  sims !! i =
    Some (dot e q / (linalg_norm e * linalg_norm q + (1 # 100000000))).
Proof.
  unfold AGHRetrieval.similarities, AGHRetrieval.dot_products,
    AGHRetrieval.norms.
  destruct (forallb _ _); [|done]. intros [= <-] He.
  rewrite lookup_zip_with, !list_lookup_fmap, He. reflexivity.
Qed.

Lemma similarities_length all q sims :
  AGHRetrieval.similarities all q = Some sims -> length sims = length all.
Proof.
  unfold AGHRetrieval.similarities, AGHRetrieval.dot_products,
    AGHRetrieval.norms.
  destruct (forallb _ _); [|done]. intros [= <-].
  rewrite length_zip_with, !length_fmap. lia.
Qed.

Lemma normalize_zero v :
  linalg_norm v == 0 -> Forall (fun x => x == 0) (AdvancedEmbeddingService.normalize v).
Proof.
  intros H. apply norm_zero in H. unfold AdvancedEmbeddingService.normalize.
  rewrite Forall_map. eapply Forall_impl; [exact H|].
  simpl. intros x Hx. rewrite Hx. unfold Qdiv. lra.
Qed.

Lemma normalize_divisor v :
  ~ (if Qeq_bool (linalg_norm v) 0 then 1 else linalg_norm v) == 0.
Proof.
  destruct (Qeq_bool (linalg_norm v) 0) eqn:E; [lra|].
  intros H. apply Qeq_bool_iff in H. congruence.
Qed.

Lemma cosine_similarity_lookup x ys sims i y :
  AdvancedEmbeddingService.cosine_similarity x ys = Some sims ->
  ys !! i = Some y ->
  sims !! i = Some (dot (AdvancedEmbeddingService.normalize x)
                        (AdvancedEmbeddingService.normalize y)).
Proof.
  unfold AdvancedEmbeddingService.cosine_similarity.
  destruct (forallb _ _); [|done]. intros [= <-] Hy.
  by rewrite list_lookup_fmap, Hy.
Qed.

(** C8.  Both services divide by something that is never zero: the AGH
    service by [norms + 1e-8], which is positive, scikit-learn by the norm
    with a zero norm replaced by one.  When the row or the question has
    norm zero, the similarity is 0. *)
Theorem zero_norm_similarity all q sims i e :
  all !! i = Some e ->
  (AGHRetrieval.similarities all q = Some sims ->
   0 < linalg_norm e * linalg_norm q + (1 # 100000000) /\
   sims !! i =
     Some (dot e q / (linalg_norm e * linalg_norm q + (1 # 100000000))) /\
   (linalg_norm e == 0 \/ linalg_norm q == 0 ->
    dot e q / (linalg_norm e * linalg_norm q + (1 # 100000000)) == 0)) /\
  (AdvancedEmbeddingService.cosine_similarity q all = Some sims ->
   ~ (if Qeq_bool (linalg_norm e) 0 then 1 else linalg_norm e) == 0 /\
   ~ (if Qeq_bool (linalg_norm q) 0 then 1 else linalg_norm q) == 0 /\
   exists s, sims !! i = Some s /\
     (linalg_norm e == 0 \/ linalg_norm q == 0 -> s == 0)).
Proof.
  intros He. split; intros Hs.
  - split; [apply denominator_positive|].
    split; [by eapply similarities_lookup|].
    intros [H|H]; apply norm_zero in H.
    + rewrite (dot_zero_l _ _ H). unfold Qdiv. lra.
    + rewrite (dot_zero_r _ _ H). unfold Qdiv. lra.
  - split; [apply normalize_divisor|]. split; [apply normalize_divisor|].
    eexists. split; [by eapply cosine_similarity_lookup|].
    intros [H|H].
    + apply dot_zero_r. by apply normalize_zero.
    + apply dot_zero_l. by apply normalize_zero.
Qed.

End WithLib.

Lemma zero_norm_similarity_witness :
  dot [0; 0] [1; 0]
  / (l2_norm [0; 0] * l2_norm [1; 0] + (1 # 100000000)) == 0.
Proof.
  refine (proj2 (proj2 (proj1
    (zero_norm_similarity (L := reference_lib) (HL := LibFacts.reference_lib_spec)
       [[0; 0]] [1; 0]
       [dot [0; 0] [1; 0] / (l2_norm [0; 0] * l2_norm [1; 0] + (1 # 100000000))]
       0%nat [0; 0] _) _)) _).
  - reflexivity.
  - reflexivity.
  - left. vm_compute. reflexivity.
Defined.

(** C8, as stated, fails: the similarity of a zero row is 0, and 0 is not
    the least similarity; a row that points away from the question is
    below it. *)
Lemma zero_norm_similarity_not_least :
  exists s0 s1,
    AGHRetrieval.similarities (L := reference_lib) [[0; 0]; [-1; 0]] [1; 0]
      = Some [s0; s1] /\
    linalg_norm (Lib := reference_lib) [0; 0] == 0 /\
    s0 == 0 /\ s1 < s0 /\
    exists c0 c1,
      AdvancedEmbeddingService.cosine_similarity (L := reference_lib)
        [1; 0] [[0; 0]; [-1; 0]] = Some [c0; c1] /\
      c0 == 0 /\ c1 < c0.
Proof.
  do 2 eexists. split; [vm_compute; reflexivity|].
  split; [vm_compute; reflexivity|].
  split; [vm_compute; reflexivity|].
  split; [vm_compute; reflexivity|].
  do 2 eexists. split; [vm_compute; reflexivity|].
  split; vm_compute; reflexivity.
Qed.

End CosineFacts.

(** ** Retrieval *)
Module RetrievalFacts.
Import Np Spec Examples.
Local Open Scope Q_scope.

Lemma take_valid {A} (a : list A) (idx : list nat) (d : A) :
  Forall (fun i => (i < length a)%nat) idx ->
  take a idx = Some (map (fun i => nth i a d) idx).
Proof.
  unfold take. intros H. apply mapM_Some.
  induction H as [|i idx Hi _ IH]; simpl; constructor; [|exact IH].
  destruct (nth_lookup_or_length a i d) as [->|]; [done|lia].
Qed.

Lemma map_nth_seq {A} (l : list A) (d : A) :
  map (fun p => nth p l d) (seq 0 (length l)) = l.
Proof.
  apply list_eq. intros p. rewrite list_lookup_fmap.
  destruct (decide (p < length l)%nat) as [Hlt|Hge].
  - rewrite lookup_seq_lt by exact Hlt. simpl.
    destruct (nth_lookup_or_length l p d) as [->|]; [done|lia].
  - rewrite lookup_seq_ge by lia. simpl. symmetry.
    apply lookup_ge_None. lia.
Qed.

Lemma StronglySorted_reverse {A} (R : relation A) (l : list A) :
  StronglySorted R l -> StronglySorted (flip R) (reverse l).
Proof.
  induction 1 as [|x l Hs IH Hall]; [constructor|].
  rewrite reverse_cons. apply StronglySorted_app_2.
  2: exact IH.
  2: { constructor; constructor. }
  intros a b Ha Hb. apply list_elem_of_singleton in Hb as ->.
  rewrite elem_of_reverse in Ha. rewrite Forall_forall in Hall.
  unfold flip. by apply Hall.
Qed.

Lemma StronglySorted_on {A} (R : relation A) (P : A -> Prop) (l : list A) :
  Forall P l -> StronglySorted R l ->
  StronglySorted (fun a b => P a /\ P b /\ R a b) l.
Proof.
  intros HP Hs. induction Hs as [|x l Hs IH Hall]; [constructor|].
  inversion HP as [|? ? Hx Hl]; subst.
  constructor; [by apply IH|].
  rewrite Forall_forall in Hall, Hl |- *. intros y Hy. auto.
Qed.

Lemma where_gt_from_spec (v : list Q) (t : Q) (n i : nat) :
  i ∈ where_gt_from n v t <->
  exists p x, i = (n + p)%nat /\ v !! p = Some x /\ t < x.
Proof.
  revert n. induction v as [|y v IH]; intros n; simpl.
  - split; [by intros ?%elem_of_nil|]. by intros (p & x & _ & ? & _).
  - destruct (Qltb t y) eqn:E.
    + rewrite elem_of_cons, IH. split.
      * intros [->|(p & x & -> & Hp & Hx)].
        -- exists 0%nat, y. split; [lia|]. split; [done|].
           by apply LibFacts.Qltb_lt.
        -- exists (S p), x. split; [lia|]. done.
      * intros ([|p] & x & -> & Hp & Hx).
        -- left. lia.
        -- right. exists p, x. split; [lia|]. done.
    + rewrite IH. split.
      * intros (p & x & -> & Hp & Hx). exists (S p), x. split; [lia|]. done.
      * intros ([|p] & x & -> & Hp & Hx).
        -- simpl in Hp. injection Hp as ->.
           apply LibFacts.Qltb_ge in E. lra.
        -- exists p, x. split; [lia|]. done.
Qed.

Lemma where_gt_spec (v : list Q) (t : Q) (i : nat) :
  i ∈ where_gt v t <-> (i < length v)%nat /\ t < val v i.
Proof.
  unfold where_gt. rewrite where_gt_from_spec. split.
  - intros (p & x & -> & Hp & Hx). simpl. split.
    + apply lookup_lt_is_Some. by eexists.
    + unfold val. by rewrite (nth_lookup_Some _ _ _ _ Hp).
  - intros [Hi Hx]. exists i, (val v i). split; [done|]. split; [|done].
    unfold val. destruct (nth_lookup_or_length v i 0) as [->|]; [done|lia].
Qed.

Lemma where_gt_valid (v : list Q) (t : Q) :
  Forall (fun i => (i < length v)%nat) (where_gt v t).
Proof. apply Forall_forall. intros i Hi. by apply where_gt_spec in Hi as [? _]. Qed.

Lemma where_gt_nil (v : list Q) (t : Q) :
  Forall (fun s => s <= t) v -> where_gt v t = [].
Proof.
  intros H. destruct (where_gt v t) as [|i l] eqn:E; [done|exfalso].
  assert (i ∈ where_gt v t) as Hi by (rewrite E; left).
  apply where_gt_spec in Hi as [Hlt Hgt].
  rewrite Forall_forall in H.
  assert (val v i ∈ v) as Hin.
  { unfold val. apply list_elem_of_In, nth_In. exact Hlt. }
  specialize (H _ Hin). lra.
Qed.

Lemma last_k_pos {A} (k : Z) (a : list A) :
  (1 <= k)%Z -> last_k k a = drop (length a - Z.to_nat k) a.
Proof. intros H. unfold last_k. destruct (Z.ltb_spec 0 k); [done|lia]. Qed.

Lemma last_k_length {A} (k : Z) (a : list A) :
  (1 <= k)%Z -> length (last_k k a) = (Z.to_nat k `min` length a)%nat.
Proof. intros H. rewrite last_k_pos, length_drop by done. lia. Qed.

Lemma last_k_suffix {A} (k : Z) (a : list A) :
  exists m, last_k k a = drop m a.
Proof. unfold last_k. destruct (0 <? k)%Z; eauto. Qed.

Section WithLib.
Context {L : Lib} {HL : LibSpec L}.

Lemma argsort_length v : length (argsort v) = length v.
Proof. by rewrite (argsort_perm v), length_seq. Qed.

Lemma argsort_valid v : Forall (fun i => (i < length v)%nat) (argsort v).
Proof.
  rewrite (argsort_perm v). apply Forall_forall. intros i Hi.
  apply elem_of_seq in Hi. lia.
Qed.

Lemma argsort_NoDup v : NoDup (argsort v).
Proof. rewrite (argsort_perm v). apply NoDup_seq. Qed.

Lemma argsort_elem v i : i ∈ argsort v <-> (i < length v)%nat.
Proof. rewrite (argsort_perm v), elem_of_seq. lia. Qed.

Lemma suffix_top_of (v : list Q) (m : nat) (r : list nat) :
  r ≡ₚ drop m (argsort v) -> top_of v r.
Proof.
  intros Hr i j Hi Hj Hnj. rewrite Hr in Hi, Hnj.
  pose proof (argsort_sorted v) as Hs.
  rewrite <- (take_drop m (argsort v)) in Hs.
  eapply (StronglySorted_app_1_elem_of _ _ _ j i Hs); [|exact Hi].
  apply argsort_elem in Hj.
  rewrite <- (take_drop m (argsort v)), elem_of_app in Hj. tauto.
Qed.

Lemma suffix_NoDup (v : list Q) (m : nat) (r : list nat) :
  r ≡ₚ drop m (argsort v) -> NoDup r.
Proof.
  intros ->. pose proof (argsort_NoDup v) as H.
  rewrite <- (take_drop m (argsort v)) in H.
  by apply NoDup_app in H as (_ & _ & ?).
Qed.

Lemma suffix_valid (v : list Q) (m : nat) :
  Forall (fun i => (i < length v)%nat) (drop m (argsort v)).
Proof. apply Forall_drop, argsort_valid. Qed.

(** The last step of both services,
    [indices[np.argsort(similarities[indices])[::-1]]]: on valid positions
    it succeeds, keeps them all and lists them by descending similarity. *)
Lemma reorder_eq (v : list Q) (idx : list nat) :
  Forall (fun i => (i < length v)%nat) idx ->
  (sel ← take v idx; take idx (reverse (argsort sel))) = Some (reorder v idx).
Proof.
  intros Hidx. rewrite (take_valid v idx 0 Hidx). simpl.
  apply take_valid. rewrite reverse_Permutation.
  eapply Forall_impl; [apply argsort_valid|]. simpl. intros p.
  by rewrite length_map.
Qed.

Lemma reorder_perm (v : list Q) (idx : list nat) : reorder v idx ≡ₚ idx.
Proof.
  unfold reorder.
  rewrite reverse_Permutation, (argsort_perm _), length_map.
  by rewrite map_nth_seq.
Qed.

Lemma reorder_descending (v : list Q) (idx : list nat) :
  descending v (reorder v idx).
Proof.
  unfold descending, reorder.
  set (sel := map (fun i => nth i v 0) idx).
  assert (Forall (fun p => (p < length idx)%nat) (reverse (argsort sel))) as Hv.
  { rewrite reverse_Permutation. eapply Forall_impl; [apply argsort_valid|].
    simpl. intros p. unfold sel. by rewrite length_map. }
  pose proof (StronglySorted_reverse _ _ (argsort_sorted sel)) as Hs.
  apply (StronglySorted_on _ _ _ Hv) in Hs.
  eapply (StronglySorted_fmap (fun p => nth p idx 0%nat)); [|exact Hs].
  simpl. intros a b (Ha & Hb & Hab). unfold flip, val in *.
  unfold sel in Hab.
  rewrite !(nth_indep (map _ idx) 0 ((fun i => nth i v 0) 0%nat)) in Hab
    by (rewrite length_map; lia).
  by rewrite !(map_nth (fun i => nth i v 0)) in Hab.
Qed.

Lemma agh_kept_valid (v : list Q) (t : Q) (k : Z) :
  Forall (fun i => (i < length v)%nat) (agh_kept v t k).
Proof.
  unfold agh_kept. destruct (_ =? _)%nat; [|apply where_gt_valid].
  destruct (last_k_suffix k (argsort v)) as [m ->]. apply suffix_valid.
Qed.

Lemma adv_kept_valid (v : list Q) (t : Q) (k : Z) :
  Forall (fun i => (i < length v)%nat) (adv_kept v t k).
Proof.
  unfold adv_kept. destruct (_ =? _)%nat.
  - destruct (last_k_suffix k (argsort v)) as [m ->]. apply suffix_valid.
  - rewrite Forall_map.
    destruct (last_k_suffix k (argsort (map (fun i => nth i v 0) (where_gt v t))))
      as [m ->].
    eapply Forall_impl; [apply suffix_valid|]. simpl. intros p Hp.
    rewrite length_map in Hp.
    pose proof (where_gt_valid v t) as Hv. rewrite Forall_forall in Hv.
    apply Hv, list_elem_of_In, nth_In. exact Hp.
Qed.

(** What either selection returns, spelled out. *)
Lemma agh_select_eq (v : list Q) (t : Q) (k : Z) :
  AGHRetrieval.select v t k = Some (reorder v (agh_kept v t k)).
Proof.
  unfold AGHRetrieval.select. fold (agh_kept v t k).
  apply reorder_eq, agh_kept_valid.
Qed.

Lemma adv_select_eq (v : list Q) (t : Q) (k : Z) :
  AdvancedEmbeddingService.select v t k = Some (reorder v (adv_kept v t k)).
Proof.
  unfold AdvancedEmbeddingService.select.
  set (above := where_gt v t).
  assert ((if (length above =? 0)%nat
           then Some (last_k k (argsort v))
           else threshold_similarities ← take v above;
                take above (last_k k (argsort threshold_similarities)))
          = Some (adv_kept v t k)) as ->.
  { unfold adv_kept. fold above. destruct (_ =? _)%nat; [done|].
    rewrite (take_valid v above 0 (where_gt_valid v t)). simpl.
    apply take_valid.
    destruct (last_k_suffix k (argsort (map (fun i => nth i v 0) above)))
      as [m ->].
    eapply Forall_impl; [apply suffix_valid|]. simpl. intros p.
    by rewrite length_map. }
  simpl. apply reorder_eq, adv_kept_valid.
Qed.

(** [AGHRAGService]: the selection succeeds; it keeps every position above
    the threshold, or a suffix of the ascending order when there is none. *)
Lemma agh_select_spec (v : list Q) (t : Q) (k : Z) :
  exists r,
    AGHRetrieval.select v t k = Some r /\ descending v r /\
    r ≡ₚ (if (length (where_gt v t) =? 0)%nat
          then last_k k (argsort v) else where_gt v t).
Proof.
  exists (reorder v (agh_kept v t k)).
  split; [apply agh_select_eq|].
  split; [apply reorder_descending|apply reorder_perm].
Qed.

(** [AdvancedEmbeddingService]: the selection succeeds; it keeps a suffix
    of the ascending order of the positions above the threshold, or of all
    positions when there is none. *)
Lemma adv_select_spec (v : list Q) (t : Q) (k : Z) :
  exists r,
    AdvancedEmbeddingService.select v t k = Some r /\ descending v r /\
    r ≡ₚ (if (length (where_gt v t) =? 0)%nat
          then last_k k (argsort v)
          else map (fun p => nth p (where_gt v t) 0%nat)
                   (last_k k (argsort (map (fun i => nth i v 0) (where_gt v t))))).
Proof.
  exists (reorder v (adv_kept v t k)).
  split; [apply adv_select_eq|].
  split; [apply reorder_descending|apply reorder_perm].
Qed.

(** The fallback of either service: the [top_k] highest, for [top_k >= 1]. *)
Lemma fallback_spec (v : list Q) (k : Z) (r : list nat) :
  v <> [] -> (1 <= k)%Z -> r ≡ₚ last_k k (argsort v) ->
  r <> [] /\ length r = (Z.to_nat k `min` length v)%nat /\ NoDup r /\
  Forall (fun i => (i < length v)%nat) r /\ top_of v r.
Proof.
  intros Hv Hk Hr.
  assert (length r = (Z.to_nat k `min` length v)%nat) as Hlen.
  { by rewrite Hr, last_k_length, argsort_length. }
  rewrite last_k_pos in Hr by done.
  split; [|split; [done|split; [|split]]].
  - intros ->. destruct v; [done|]. simpl in Hlen. lia.
  - by eapply suffix_NoDup.
  - rewrite Hr. apply suffix_valid.
  - by eapply suffix_top_of.
Qed.

Lemma agh_retrieve_unfold column q t k sims :
  AGHRetrieval.similarities (AGHRetrieval.not_none column) q = Some sims ->
  sims <> [] ->
  AGHRetrieval.select sims t k
  = Some (AGHRetrieval._retrieve_relevant_chunks (Some column) (Some q) t k).
Proof.
  intros Hs Hne. unfold AGHRetrieval._retrieve_relevant_chunks.
  pose proof (CosineFacts.similarities_length _ _ _ Hs) as Hlen.
  destruct (AGHRetrieval.not_none column) as [|e es] eqn:E.
  { destruct sims; [done|discriminate]. }
  simpl. rewrite Hs. simpl.
  by destruct (agh_select_spec sims t k) as (r & -> & _).
Qed.

Lemma cosine_similarity_length x ys sims :
  AdvancedEmbeddingService.cosine_similarity x ys = Some sims ->
  length sims = length ys.
Proof.
  unfold AdvancedEmbeddingService.cosine_similarity.
  destruct (forallb _ _); [|done]. intros [= <-]. apply length_map.
Qed.

Lemma adv_retrieve_unfold cfg column q thr topk sims :
  AdvancedEmbeddingService.cosine_similarity q
    (AdvancedEmbeddingService.valid column) = Some sims ->
  sims <> [] ->
  AdvancedEmbeddingService.select sims
    (AdvancedEmbeddingService.or_Q thr
       (AdvancedEmbeddingService.embedding_threshold cfg))
    (AdvancedEmbeddingService.or_Z topk
       (AdvancedEmbeddingService.top_k_retrieval cfg))
  = Some (AdvancedEmbeddingService.retrieve_relevant_chunks true cfg
            (Some column) (Some q) thr topk).
Proof.
  intros Hs Hne. unfold AdvancedEmbeddingService.retrieve_relevant_chunks.
  pose proof (cosine_similarity_length _ _ _ Hs) as Hlen. simpl.
  destruct column as [|c column].
  { destruct sims; [done|discriminate]. }
  destruct (AdvancedEmbeddingService.valid (c :: column)) as [|e es] eqn:E.
  { destruct sims; [done|discriminate]. }
  simpl. rewrite Hs. simpl.
  by destruct (adv_select_spec sims
       (AdvancedEmbeddingService.or_Q thr
          (AdvancedEmbeddingService.embedding_threshold cfg))
       (AdvancedEmbeddingService.or_Z topk
          (AdvancedEmbeddingService.top_k_retrieval cfg))) as (r & -> & _).
Qed.

Lemma agh_retrieve_nil column q t k :
  AGHRetrieval.similarities (AGHRetrieval.not_none column) q = Some [] ->
  AGHRetrieval._retrieve_relevant_chunks (Some column) (Some q) t k = [].
Proof.
  intros H0. apply CosineFacts.similarities_length in H0.
  unfold AGHRetrieval._retrieve_relevant_chunks.
  destruct (AGHRetrieval.not_none column); [done|discriminate].
Qed.

Lemma adv_retrieve_nil cfg column q thr topk :
  AdvancedEmbeddingService.cosine_similarity q
    (AdvancedEmbeddingService.valid column) = Some [] ->
  AdvancedEmbeddingService.retrieve_relevant_chunks true cfg
    (Some column) (Some q) thr topk = [].
Proof.
  intros H0. apply cosine_similarity_length in H0.
  unfold AdvancedEmbeddingService.retrieve_relevant_chunks. simpl.
  destruct column as [|c column]; [done|].
  destruct (AdvancedEmbeddingService.valid (c :: column)); [done|discriminate].
Qed.

(** Two equal similarities below the threshold: whatever order [argsort]
    gives to equal values, the later position comes first. *)
Lemma fallback_tie_any_argsort (s t : Q) :
  s <= t -> AGHRetrieval.select [s; s] t 3 = Some [1; 0]%nat.
Proof.
  intros Hst. unfold AGHRetrieval.select.
  rewrite (where_gt_nil [s; s] t) by (repeat constructor; exact Hst).
  simpl length. simpl Nat.eqb. cbv iota.
  pose proof (argsort_perm [s; s]) as Hp. simpl in Hp.
  pose proof (argsort_length [s; s]) as Hl. simpl in Hl.
  pose proof (argsort_NoDup [s; s]) as Hn.
  destruct (argsort [s; s]) as [|a [|b [|c l]]] eqn:E; try discriminate.
  assert (a ∈ [0; 1]%nat) as Ha by (rewrite <- Hp; left).
  assert (b ∈ [0; 1]%nat) as Hb by (rewrite <- Hp; right; left).
  apply NoDup_cons in Hn as [Hab _].
  rewrite list_elem_of_singleton in Hab.
  rewrite !elem_of_cons, elem_of_nil in Ha, Hb.
  destruct Ha as [->|[->|[]]], Hb as [->|[->|[]]]; try done.
  - unfold last_k. simpl. rewrite E. reflexivity.
  - unfold last_k. simpl. rewrite E. reflexivity.
Qed.

End WithLib.

Lemma where_gt_from_increasing v t n :
  StronglySorted lt (where_gt_from n v t) /\
  Forall (fun i => (n <= i)%nat) (where_gt_from n v t).
Proof.
  revert n. induction v as [|x v IH]; intros n; simpl.
  - split; constructor.
  - destruct (IH (S n)) as [Hs Hge].
    assert (Forall (fun i => (n < i)%nat) (where_gt_from (S n) v t)) as Hlt.
    { eapply Forall_impl; [exact Hge|]. simpl. lia. }
    destruct (Qltb t x).
    + split; [by constructor|].
      constructor; [lia|]. eapply Forall_impl; [exact Hlt|]. simpl. lia.
    + split; [done|]. eapply Forall_impl; [exact Hlt|]. simpl. lia.
Qed.

Section Claims.
Context {L : Lib} {HL : LibSpec L}.

Lemma argsort_nil : argsort [] = [].
Proof. apply Permutation_nil_r. exact (argsort_perm []). Qed.

Lemma agh_retrieve_eq column q t k sims :
  AGHRetrieval.similarities (AGHRetrieval.not_none column) q = Some sims ->
  AGHRetrieval._retrieve_relevant_chunks (Some column) (Some q) t k
  = reorder sims (agh_kept sims t k).
Proof.
  intros Hs. destruct (decide (sims = [])) as [->|Hne].
  - rewrite (agh_retrieve_nil _ _ _ _ Hs).
    unfold reorder, agh_kept. simpl. rewrite argsort_nil.
    destruct (last_k_suffix k (@nil nat)) as [m ->]. rewrite drop_nil.
    simpl. by rewrite argsort_nil.
  - pose proof (agh_retrieve_unfold column q t k sims Hs Hne) as Hsel.
    rewrite agh_select_eq in Hsel. by injection Hsel.
Qed.

Lemma adv_retrieve_eq cfg column q thr topk sims :
  AdvancedEmbeddingService.cosine_similarity q
    (AdvancedEmbeddingService.valid column) = Some sims ->
  AdvancedEmbeddingService.retrieve_relevant_chunks true cfg
    (Some column) (Some q) thr topk
  = reorder sims
      (adv_kept sims
         (AdvancedEmbeddingService.or_Q thr
            (AdvancedEmbeddingService.embedding_threshold cfg))
         (AdvancedEmbeddingService.or_Z topk
            (AdvancedEmbeddingService.top_k_retrieval cfg))).
Proof.
  intros Hs. destruct (decide (sims = [])) as [->|Hne].
  - rewrite (adv_retrieve_nil _ _ _ _ _ Hs).
    set (k := AdvancedEmbeddingService.or_Z _ _).
    unfold reorder, adv_kept. simpl. rewrite argsort_nil.
    destruct (last_k_suffix k (@nil nat)) as [m ->]. rewrite drop_nil.
    simpl. by rewrite argsort_nil.
  - pose proof (adv_retrieve_unfold cfg column q thr topk sims Hs Hne) as Hsel.
    rewrite adv_select_eq in Hsel. by injection Hsel.
Qed.

(** C1.  When no similarity exceeds the threshold and [top_k >= 1], both
    services return the [top_k] documents of highest similarity (all of
    them when the store holds fewer): the result is not empty, has
    [min(top_k, n)] entries without repetition, and no document left out is
    more similar than one returned.  [AdvancedEmbeddingService] returns at
    most [top_k] entries in all cases. *)
Theorem threshold_fallback_top_k :
  (forall column q t k sims,
     AGHRetrieval.similarities (AGHRetrieval.not_none column) q = Some sims ->
     sims <> [] -> (1 <= k)%Z -> Forall (fun s => s <= t) sims ->
     let r := AGHRetrieval._retrieve_relevant_chunks (Some column) (Some q) t k in
     r <> [] /\ length r = (Z.to_nat k `min` length sims)%nat /\ NoDup r /\
     Forall (fun i => (i < length sims)%nat) r /\ top_of sims r) /\
  (forall cfg column q thr topk sims,
     let t := AdvancedEmbeddingService.or_Q thr
                (AdvancedEmbeddingService.embedding_threshold cfg) in
     let k := AdvancedEmbeddingService.or_Z topk
                (AdvancedEmbeddingService.top_k_retrieval cfg) in
     AdvancedEmbeddingService.cosine_similarity q
       (AdvancedEmbeddingService.valid column) = Some sims ->
     sims <> [] -> (1 <= k)%Z ->
     let r := AdvancedEmbeddingService.retrieve_relevant_chunks true cfg
                (Some column) (Some q) thr topk in
     (length r <= Z.to_nat k)%nat /\
     (Forall (fun s => s <= t) sims ->
      r <> [] /\ length r = (Z.to_nat k `min` length sims)%nat /\ NoDup r /\
      Forall (fun i => (i < length sims)%nat) r /\ top_of sims r)).
Proof.
  split.
  - intros column q t k sims Hs Hne Hk Hbelow r.
    pose proof (agh_retrieve_unfold column q t k sims Hs Hne) as Hsel.
    fold r in Hsel.
    destruct (agh_select_spec sims t k) as (r' & Hr' & _ & Hp).
    rewrite Hsel in Hr'. injection Hr' as <-.
    rewrite (where_gt_nil sims t Hbelow) in Hp. simpl in Hp.
    by apply fallback_spec.
  - intros cfg column q thr topk sims t k Hs Hne Hk r.
    pose proof (adv_retrieve_unfold cfg column q thr topk sims Hs Hne) as Hsel.
    fold t k r in Hsel.
    destruct (adv_select_spec sims t k) as (r' & Hr' & _ & Hp).
    rewrite Hsel in Hr'. injection Hr' as <-.
    split.
    + rewrite Hp. destruct (_ =? _)%nat.
      * rewrite last_k_length by done. lia.
      * rewrite length_map, last_k_length by done. lia.
    + intros Hbelow. rewrite (where_gt_nil sims t Hbelow) in Hp. simpl in Hp.
      by apply fallback_spec.
Qed.


End Claims.

(** A store of two rows, a question along the first, and a threshold no
    similarity reaches. *)
Lemma threshold_fallback_top_k_witness :
  AGHRetrieval._retrieve_relevant_chunks (L := reference_lib)
    (Some [Some [1; 0]; Some [0; 1]]) (Some [1; 0]) 2 1 <> [].
Proof.
  refine (proj1 (proj1 (threshold_fallback_top_k (L := reference_lib)
            (HL := LibFacts.reference_lib_spec))
            [Some [1; 0]; Some [0; 1]] [1; 0] 2 1%Z _ _ _ _ _)).
  - vm_compute. reflexivity.
  - discriminate.
  - lia.
  - repeat constructor; vm_compute; discriminate.
Defined.


(** C1, as stated, fails in [AGHRAGService]: with four rows above the
    threshold and [top_k = 3] all four are returned; and with no row above
    the threshold and [top_k = 0] the slice [[-0:]] keeps every row. *)
Lemma agh_returns_more_than_top_k :
  AGHRetrieval._retrieve_relevant_chunks (L := reference_lib)
    (Some four_rows) (Some [1; 0]) (75 # 100) 3 = [3; 2; 1; 0]%nat /\
  ~ (length (AGHRetrieval._retrieve_relevant_chunks (L := reference_lib)
               (Some four_rows) (Some [1; 0]%Q) (75 # 100)%Q 3) <= 3)%nat /\
  AGHRetrieval._retrieve_relevant_chunks (L := reference_lib)
    (Some [Some [1; 0]; Some [0; 1]]) (Some [1; 0]) 2 0 = [0; 1]%nat.
Proof.
  split; [vm_compute; reflexivity|].
  split; [vm_compute; lia|vm_compute; reflexivity].
Qed.


End RetrievalFacts.

(** ** [_fix_known_errors] *)
Module FixFacts.
Import Py Re Spec.
#[local] Arguments String.append !_ _ / : simpl nomatch.

Lemma drop_shorter n c s :
  String.length (drop (S n) (String c s)) < String.length (String c s).
Proof.
  simpl. revert s. induction n as [|n IH]; intros s; [simpl; lia|].
  destruct s as [|d s]; simpl; [lia|]. specialize (IH s). lia.
Qed.

Lemma apart_app r u x y : apart r u = true -> r +:+ x <> u +:+ y.
Proof.
  revert u. induction r as [|a r IH]; intros [|b u]; simpl; try done.
  intros [Hab|Hr]%orb_true_iff [= -> H].
  - by rewrite Ascii.eqb_refl in Hab.
  - by apply (IH _ Hr).
Qed.

Lemma lacks_app a x y : lacks a (x +:+ y) = lacks a x && lacks a y.
Proof.
  induction x as [|c x IH]; simpl; [done|]. by rewrite IH, andb_assoc.
Qed.

Lemma lacks_drop a n s : lacks a s = true -> lacks a (drop n s) = true.
Proof.
  revert s. induction n as [|n IH]; intros [|c s]; simpl; try done.
  intros [_ H]%andb_true_iff. by apply IH.
Qed.

Lemma stake_drop n s : stake n s +:+ drop n s = s.
Proof.
  revert s. induction n as [|n IH]; intros [|c s]; simpl; try done.
  by rewrite IH.
Qed.

Lemma stake_add a b s : stake (a + b) s = stake a s +:+ stake b (drop a s).
Proof.
  revert s. induction a as [|a IH]; intros [|c s]; simpl; try done.
  - by destruct b.
  - by rewrite IH.
Qed.

Lemma prefix_app p s : String.prefix p s = true <-> exists t, s = p +:+ t.
Proof.
  revert s. induction p as [|a p IH]; intros s.
  - split; [intros _; exists s; reflexivity|intros _; by destruct s].
  - destruct s as [|b s]; simpl; [split; [done|by intros [t Ht]]|].
    destruct (ascii_dec a b) as [->|Hne].
    + rewrite IH. split; intros [t Ht]; exists t; [by rewrite Ht|].
      by injection Ht.
    + split; [done|]. intros [t Ht]. injection Ht as Hab _. congruence.
Qed.

Lemma stake_app p t : stake (String.length p) (p +:+ t) = p.
Proof. induction p as [|a p IH]; simpl; [by destruct t|by rewrite IH]. Qed.

Lemma drop_app p t : drop (String.length p) (p +:+ t) = t.
Proof. induction p as [|a p IH]; simpl; [by destruct t|exact IH]. Qed.

Lemma last_is_word_app d a b :
  last_is_word d (a +:+ b) = last_is_word (last_is_word d a) b.
Proof. revert d. induction a as [|c a IH]; intros d; simpl; [done|apply IH]. Qed.

(** Reading on behind a match. *)
Lemma sub_from_skip m r pw k s :
  sub_from m r pw k s
  = sub_from m r (last_is_word pw (stake k s)) 0 (drop k s).
Proof.
  revert pw s. induction k as [|k IH]; intros pw [|c s]; simpl; done.
Qed.

Lemma sub_from_match m r pw c s n :
  m pw (String c s) = Some (S n) ->
  sub_from m r pw 0 (String c s)
  = r +:+ sub_from m r (last_is_word pw (stake (S n) (String c s))) 0
            (drop (S n) (String c s)).
Proof. intros Hm. simpl. rewrite Hm. by rewrite sub_from_skip. Qed.

Lemma sub_from_copy m r pw c s :
  m pw (String c s) = None \/ m pw (String c s) = Some 0 ->
  sub_from m r pw 0 (String c s) = String c (sub_from m r (is_word c) 0 s).
Proof. intros [Hm|Hm]; simpl; by rewrite Hm. Qed.

(** The pattern [\blit\b], spelled out. *)
Lemma bounded_spec lit pw s k :
  bounded lit pw s = Some k <->
  k = String.length lit /\
  exists t, s = lit +:+ t /\
            xorb pw (head_is_word lit) = true /\
            xorb (last_is_word pw lit) (head_is_word t) = true.
Proof.
  unfold bounded. destruct (String.prefix lit s) eqn:Hp.
  - apply prefix_app in Hp as [t ->]. rewrite drop_app. simpl. split.
    + destruct (xorb pw _) eqn:E1; [|done]. simpl.
      destruct (xorb (last_is_word _ _) _) eqn:E2; [|done].
      intros [= <-]. eauto.
    + intros (-> & t' & Ht & -> & H2). simpl.
      assert (t' = t) as ->.
      { clear -Ht. induction lit as [|a lit IH]; simpl in Ht; [done|].
        injection Ht as Ht. by apply IH. }
      by rewrite H2.
  - simpl. split; [done|]. intros (_ & t & -> & _).
    assert (String.prefix lit (lit +:+ t) = true) as Hp'
      by (apply prefix_app; eauto).
    congruence.
Qed.

Lemma occurs_suffix m x t pw :
  occurs_from m pw (x +:+ t) = false ->
  occurs_from m (last_is_word pw x) t = false.
Proof.
  revert pw. induction x as [|c x IH]; intros pw; simpl; [done|].
  destruct (m pw _); [done|]. apply IH.
Qed.

Lemma bounded_ends_in_word lit :
  last_is_word false lit = true -> last_is_word true lit = true ->
  ends_in_word (bounded lit).
Proof.
  intros H0 H1 pw s n (Hn & t & -> & _)%bounded_spec.
  rewrite Hn, stake_app. by destruct pw.
Qed.

Section Target.
(** The pattern [\b6<tail>\b], for a [tail] that ends in a word
    character. *)
Context (tail : string) (Htail : forall d, last_is_word d tail = true).

#[local] Abbreviation lit := (String "6" tail).
#[local] Abbreviation T := (bounded (String "6" tail)).

Lemma target_spec pw s :
  T pw s <> None <->
  pw = false /\ exists t, s = lit +:+ t /\ head_is_word t = false.
Proof.
  split.
  - destruct (T pw s) as [k|] eqn:E; [intros _|done].
    apply bounded_spec in E as (_ & t & -> & H1 & H2).
    cbn [head_is_word last_is_word] in H1, H2. rewrite Htail in H2.
    change (is_word "6") with true in H1.
    destruct pw; [done|]. split; [done|]. exists t. split; [done|].
    by destruct (head_is_word t).
  - intros (-> & t & -> & Ht).
    assert (T false (lit +:+ t) = Some (String.length lit)) as ->; [|done].
    apply bounded_spec. split; [done|]. exists t.
    cbn [head_is_word last_is_word]. by rewrite Htail, Ht.
Qed.

Lemma target_length pw s k : T pw s = Some k -> k = S (String.length tail).
Proof. by intros (-> & _)%bounded_spec. Qed.

Lemma target_six_headed : six_headed T.
Proof. intros pw s n (_ & t & -> & _)%bounded_spec. by exists (tail +:+ t). Qed.

Lemma target_ends_in_word : ends_in_word T.
Proof.
  apply bounded_ends_in_word; cbn [last_is_word]; apply Htail.
Qed.

Lemma occurs_app_no_six r t pw :
  lacks "6" r = true ->
  occurs_from T pw (r +:+ t) = occurs_from T (last_is_word pw r) t.
Proof.
  revert pw. induction r as [|c r IH]; intros pw; simpl; [done|].
  intros [Hc Hr]%andb_true_iff.
  destruct (T pw (String c (r +:+ t))) eqn:E.
  - exfalso. assert (T pw (String c (r +:+ t)) <> None) as Hn by congruence.
    apply target_spec in Hn as (_ & t' & Ht & _). simpl in Ht.
    injection Ht as -> _. done.
  - by apply IH.
Qed.

Lemma inert_parts r :
  inert tail r = true ->
  head_is_word r = true /\ nowhere r tail = true /\ lacks "6" r = true /\
  forall pw, last_is_word pw r = true.
Proof.
  unfold inert.
  intros [[[H1 H2]%andb_true_iff H3]%andb_true_iff H4]%andb_true_iff.
  split_and!; try done. intros pw. destruct r as [|r0 r']; [done|exact H4].
Qed.

Section Replacement.
Context (m : matcher) (r : string) (Hinert : inert tail r = true).

(** What stands in the output and cannot hold the beginning of the
    replacement was copied from the input. *)
Lemma out_prefix u pw s t :
  nowhere r u = true ->
  sub_from m r pw 0 s = u +:+ t ->
  exists s', s = u +:+ s' /\ t = sub_from m r (last_is_word pw u) 0 s'.
Proof.
  revert pw s. induction u as [|d u IH]; intros pw s;
    cbn [nowhere String.append last_is_word].
  - intros _ <-. eauto.
  - intros [Hd Hu]%andb_true_iff Hs.
    destruct s as [|c s]; [done|]. cbn [sub_from] in Hs.
    assert (c = d /\ sub_from m r (is_word c) 0 s = u +:+ t) as [-> Hs'].
    { destruct (m pw (String c s)) as [[|n]|].
      - by injection Hs as -> ->.
      - by destruct (apart_app _ _ _ _ Hd Hs).
      - by injection Hs as -> ->. }
    destruct (IH _ _ Hu Hs') as (s' & -> & Ht). exists s'. done.
Qed.

Lemma out_head_nonword pw s :
  head_is_word (sub_from m r pw 0 s) = false -> head_is_word s = false.
Proof.
  destruct (inert_parts r Hinert) as (Hw & _).
  destruct s as [|c s]; simpl; [done|].
  destruct (m pw (String c s)) as [[|n]|]; simpl; try done.
  destruct r; [done|]. simpl in *. congruence.
Qed.

(** An occurrence at the head of the output, whose first character was
    copied, is an occurrence at the head of the input. *)
Lemma target_copied pw c s :
  T pw (String c (sub_from m r (is_word c) 0 s)) <> None ->
  T pw (String c s) <> None.
Proof.
  destruct (inert_parts r Hinert) as (_ & Hl & _).
  rewrite !target_spec. intros (-> & t & Ht & Hh). split; [done|].
  simpl in Ht. injection Ht as -> Ht.
  apply (out_prefix tail _ _ _ Hl) in Ht as (s' & -> & ->).
  exists s'. split; [done|]. by eapply out_head_nonword.
Qed.

(** The substitution brings no occurrence of the pattern into a text. *)
Lemma sub_preserves :
  ends_in_word m ->
  forall s pw, occurs_from T pw s = false ->
               occurs_from T pw (sub_from m r pw 0 s) = false.
Proof.
  intros Hm s.
  remember (String.length s) as len eqn:Hlen.
  revert s Hlen. induction len as [len IH] using lt_wf_ind.
  intros [|c s] Hlen pw Hocc; [done|].
  destruct (inert_parts r Hinert) as (_ & _ & Hsix & Hlast).
  assert ((forall n, m pw (String c s) <> Some (S n)) ->
            occurs_from T pw (sub_from m r pw 0 (String c s)) = false)
    as Hcopy.
  { intros Hn. rewrite sub_from_copy.
    2: { destruct (m pw (String c s)) as [[|n]|]; auto. by destruct (Hn n). }
    cbn [occurs_from] in Hocc |- *.
    destruct (T pw (String c (sub_from m r (is_word c) 0 s))) eqn:Ht.
    - exfalso. assert (T pw (String c s) <> None) as Hc.
      { apply target_copied. congruence. }
      by destruct (T pw (String c s)).
    - destruct (T pw (String c s)); [done|].
      apply (IH (String.length s)); [simpl in Hlen; lia|done|done]. }
  destruct (m pw (String c s)) as [[|n]|] eqn:E;
    try (apply Hcopy; intros ?; discriminate).
  rewrite (sub_from_match _ _ _ _ _ _ E).
  rewrite (Hm _ _ _ E).
  rewrite occurs_app_no_six, Hlast by exact Hsix.
  apply (IH (String.length (drop (S n) (String c s)))); [|done|].
  - subst len. apply drop_shorter.
  - pose proof (occurs_suffix T (stake (S n) (String c s))
                  (drop (S n) (String c s)) pw) as Hsuf.
    rewrite stake_drop, (Hm _ _ _ E) in Hsuf. by apply Hsuf.
Qed.

End Replacement.

(** Its own substitution leaves no occurrence of the pattern. *)
Lemma sub_target_clean r s pw :
  inert tail r = true ->
  occurs_from T pw (sub_from T r pw 0 s) = false.
Proof.
  intros Hinert.
  destruct (inert_parts r Hinert) as (_ & _ & Hsix & Hlast).
  remember (String.length s) as len eqn:Hlen.
  revert s Hlen pw. induction len as [len IH] using lt_wf_ind.
  intros [|c s] Hlen pw; [done|].
  destruct (T pw (String c s)) as [k|] eqn:E.
  - pose proof (target_length _ _ _ E) as ->.
    rewrite (sub_from_match _ _ _ _ _ _ E).
    rewrite (target_ends_in_word _ _ _ E).
    rewrite occurs_app_no_six, Hlast by exact Hsix.
    apply (IH (String.length (drop (S (String.length tail)) (String c s))));
      [|done].
    subst len. apply drop_shorter.
  - rewrite sub_from_copy by auto. cbn [occurs_from].
    destruct (T pw (String c (sub_from T r (is_word c) 0 s))) eqn:Ht.
    + exfalso. assert (T pw (String c s) <> None) as Hc; [|done].
      apply (target_copied T r Hinert). congruence.
    + apply (IH (String.length s)); [simpl in Hlen; lia|done].
Qed.

End Target.

Lemma literal_ends_in_word lit :
  last_is_word false lit = true -> last_is_word true lit = true ->
  ends_in_word (literal lit).
Proof.
  intros H0 H1 pw s n. unfold literal.
  destruct (String.prefix lit s) eqn:Hp; [|done].
  apply prefix_app in Hp as [t ->]. intros [= <-].
  rewrite stake_app. by destruct pw.
Qed.

Lemma lazy_until_ends t k :
  lazy_until "60" t = Some k -> exists y, stake k t = y +:+ "60".
Proof.
  revert k. induction t as [|c t IH]; intros k.
  - simpl. done.
  - cbn [lazy_until].
    destruct (String.prefix "60" (String c t)) eqn:Hp.
    + intros [= <-]. apply prefix_app in Hp as [t' ->]. by exists "".
    + destruct (Ascii.eqb c _); [done|].
      destruct (lazy_until "60" t) as [k'|]; [|done]. intros [= <-].
      destruct (IH k' eq_refl) as [y Hy]. exists (String c y).
      simpl. by rewrite Hy.
Qed.

Lemma passing_60_ends_in_word : ends_in_word passing_60.
Proof.
  intros pw s n. unfold passing_60.
  destruct (prefix_nocase "passing" s); [|done].
  destruct (lazy_until "60" (drop 7 s)) as [k|] eqn:E; [|done].
  destruct (lazy_until_ends _ _ E) as [y Hy].
  intros Hn. assert (S n = 7 + k) as -> by (cbn in Hn; by injection Hn as <-).
  rewrite stake_add, Hy, !last_is_word_app. done.
Qed.

(** Where nothing can match, the substitution copies. *)
Lemma sub_from_lacks m r u x pw :
  six_headed m -> lacks "6" u = true ->
  sub_from m r pw 0 (u +:+ x) = u +:+ sub_from m r (last_is_word pw u) 0 x.
Proof.
  intros Hm. revert pw. induction u as [|c u IH]; intros pw; [done|].
  cbn [lacks]. intros [Hc Hu]%andb_true_iff.
  change (String c u +:+ x) with (String c (u +:+ x)).
  rewrite sub_from_copy.
  - cbn [last_is_word String.append]. by rewrite IH.
  - destruct (m pw (String c (u +:+ x))) as [[|n]|] eqn:E; auto.
    destruct (Hm _ _ _ E) as [s' [= -> _]]. done.
Qed.

Lemma sub_from_id m r s pw :
  needs_six m -> lacks "6" s = true -> sub_from m r pw 0 s = s.
Proof.
  intros Hm. revert pw. induction s as [|c s IH]; intros pw; [done|].
  intros Hs. rewrite sub_from_copy.
  - rewrite IH; [done|]. cbn [lacks] in Hs. by apply andb_true_iff in Hs as [_ ?].
  - destruct (m pw (String c s)) as [[|n]|] eqn:E; auto.
    rewrite (Hm _ _ _ E) in Hs. done.
Qed.

Lemma six_headed_needs_six m : six_headed m -> needs_six m.
Proof. intros Hm pw s n E. by destruct (Hm _ _ _ E) as [s' ->]. Qed.

Lemma literal_needs_six lit : lacks "6" lit = false -> needs_six (literal lit).
Proof.
  intros Hl pw s n. unfold literal.
  destruct (String.prefix lit s) eqn:Hp; [|done].
  apply prefix_app in Hp as [t ->]. intros _.
  by rewrite lacks_app, Hl.
Qed.

Lemma passing_60_needs_six : needs_six passing_60.
Proof.
  intros pw s n. unfold passing_60.
  destruct (prefix_nocase "passing" s); [|done].
  destruct (lazy_until "60" (drop 7 s)) as [k|] eqn:E; [|done].
  intros _. destruct (lazy_until_ends _ _ E) as [y Hy].
  destruct (lacks "6" s) eqn:Hs; [|done].
  apply (lacks_drop _ 7) in Hs.
  rewrite <- (stake_drop k (drop 7 s)), Hy, !lacks_app in Hs.
  simpl in Hs. by rewrite andb_false_r in Hs.
Qed.

(** [_fix_known_errors] on a text without [6]. *)
Lemma fix_known_errors_id answer :
  lacks "6" answer = true -> AGHRAGService._fix_known_errors answer = answer.
Proof.
  intros H. unfold AGHRAGService._fix_known_errors, sub.
  rewrite (sub_from_id (bounded "60/100")), (sub_from_id (bounded "60 out of 100")),
    (sub_from_id (literal "typically 60/100")),
    (sub_from_id (literal "generally 60/100")),
    (sub_from_id passing_60); try done.
  - apply passing_60_needs_six.
  - by apply literal_needs_six.
  - by apply literal_needs_six.
  - apply six_headed_needs_six, target_six_headed.
  - apply six_headed_needs_six, target_six_headed.
Qed.

(** One whole-word [60/100] or [60 out of 100] that holds the only [6] of
    the text. *)
Lemma fix_known_errors_60_100 pre post :
  lacks "6" pre = true -> lacks "6" post = true ->
  last_is_word false pre = false -> head_is_word post = false ->
  AGHRAGService._fix_known_errors (pre +:+ "60/100" +:+ post)
  = pre +:+ "50/100" +:+ post.
Proof.
  intros Hpre Hpost Hb He.
  assert (sub (bounded "60/100") "50/100" (pre +:+ "60/100" +:+ post)
          = pre +:+ "50/100" +:+ post) as Hstep.
  { unfold sub. rewrite sub_from_lacks, Hb by (done || apply target_six_headed).
    f_equal.
    assert (bounded "60/100" false ("60/100" +:+ post) = Some 6) as Hm.
    { apply bounded_spec. split; [done|]. exists post. simpl. by rewrite He. }
    change ("60/100" +:+ post) with (String "6" ("0/100" +:+ post)) in *.
    rewrite (sub_from_match _ _ _ _ _ _ Hm). simpl.
    rewrite sub_from_id; [done| |done].
    apply six_headed_needs_six, target_six_headed. }
  assert (lacks "6" (pre +:+ "50/100" +:+ post) = true) as Hclean.
  { rewrite !lacks_app, Hpre, Hpost. done. }
  unfold AGHRAGService._fix_known_errors. rewrite Hstep. unfold sub.
  rewrite (sub_from_id (bounded "60 out of 100")),
    (sub_from_id (literal "typically 60/100")),
    (sub_from_id (literal "generally 60/100")),
    (sub_from_id passing_60); try done.
  - apply passing_60_needs_six.
  - by apply literal_needs_six.
  - by apply literal_needs_six.
  - apply six_headed_needs_six, target_six_headed.
Qed.

Lemma fix_known_errors_60_out_of_100 pre post :
  lacks "6" pre = true -> lacks "6" post = true ->
  last_is_word false pre = false -> head_is_word post = false ->
  AGHRAGService._fix_known_errors (pre +:+ "60 out of 100" +:+ post)
  = pre +:+ "50 out of 100" +:+ post.
Proof.
  intros Hpre Hpost Hb He.
  assert (sub (bounded "60/100") "50/100" (pre +:+ "60 out of 100" +:+ post)
          = pre +:+ "60 out of 100" +:+ post) as Hstep1.
  { unfold sub. rewrite sub_from_lacks, Hb by (done || apply target_six_headed).
    f_equal.
    change ("60 out of 100" +:+ post)
      with (String "6" ("0 out of 100" +:+ post)).
    rewrite sub_from_copy by (left; reflexivity).
    rewrite sub_from_id; [done| |].
    - apply six_headed_needs_six, target_six_headed.
    - by rewrite lacks_app, Hpost. }
  assert (sub (bounded "60 out of 100") "50 out of 100"
            (pre +:+ "60 out of 100" +:+ post)
          = pre +:+ "50 out of 100" +:+ post) as Hstep2.
  { unfold sub. rewrite sub_from_lacks, Hb by (done || apply target_six_headed).
    f_equal.
    assert (bounded "60 out of 100" false ("60 out of 100" +:+ post) = Some 13)
      as Hm.
    { apply bounded_spec. split; [done|]. exists post. simpl. by rewrite He. }
    change ("60 out of 100" +:+ post)
      with (String "6" ("0 out of 100" +:+ post)) in *.
    rewrite (sub_from_match _ _ _ _ _ _ Hm). simpl.
    rewrite sub_from_id; [done| |done].
    apply six_headed_needs_six, target_six_headed. }
  assert (lacks "6" (pre +:+ "50 out of 100" +:+ post) = true) as Hclean.
  { rewrite !lacks_app, Hpre, Hpost. done. }
  unfold AGHRAGService._fix_known_errors. rewrite Hstep1, Hstep2. unfold sub.
  rewrite (sub_from_id (literal "typically 60/100")),
    (sub_from_id (literal "generally 60/100")),
    (sub_from_id passing_60); try done.
  - apply passing_60_needs_six.
  - by apply literal_needs_six.
  - by apply literal_needs_six.
Qed.

(** After [_fix_known_errors] neither [60/100] nor [60 out of 100] stands
    between word boundaries. *)
Lemma fix_known_errors_clean answer :
  occurs (bounded "60/100") (AGHRAGService._fix_known_errors answer) = false /\
  occurs (bounded "60 out of 100") (AGHRAGService._fix_known_errors answer)
  = false.
Proof.
  unfold AGHRAGService._fix_known_errors, occurs, sub. split.
  - apply (sub_preserves "0/100"); [by intros []|done
                                   |apply passing_60_ends_in_word|].
    apply (sub_preserves "0/100"); [by intros []|done
                                   |by apply literal_ends_in_word|].
    apply (sub_preserves "0/100"); [by intros []|done
                                   |by apply literal_ends_in_word|].
    apply (sub_preserves "0/100"); [by intros []|done
                                   |by apply bounded_ends_in_word|].
    apply (sub_target_clean "0/100"); [by intros []|done].
  - apply (sub_preserves "0 out of 100"); [by intros []|done
                                          |apply passing_60_ends_in_word|].
    apply (sub_preserves "0 out of 100"); [by intros []|done
                                          |by apply literal_ends_in_word|].
    apply (sub_preserves "0 out of 100"); [by intros []|done
                                          |by apply literal_ends_in_word|].
    apply (sub_target_clean "0 out of 100"); [by intros []|done].
Qed.

End FixFacts.

(** ** Strings: [strip], [replace] and the search keywords *)
Module StringFacts.
Import Py AGHRAGService Spec.
#[local] Arguments String.append !_ _ / : simpl nomatch.

Lemma append_assoc (a b c : string) : (a +:+ b) +:+ c = a +:+ b +:+ c.
Proof. induction a as [|x a IH]; simpl; [done|]. by rewrite IH. Qed.

Lemma append_nil_r (a : string) : a +:+ "" = a.
Proof. induction a as [|x a IH]; simpl; [done|]. by rewrite IH. Qed.

Lemma lower_app (a b : string) : lower (a +:+ b) = lower a +:+ lower b.
Proof. induction a as [|x a IH]; simpl; [done|]. by rewrite IH. Qed.

Lemma contains_spec (sub s : string) :
  contains sub s = true <-> exists pre post, s = pre +:+ sub +:+ post.
Proof.
  induction s as [|c s IH].
  - cbn [contains]. rewrite orb_false_r, FixFacts.prefix_app. split.
    + intros [t Ht]. by exists "", t.
    + intros (pre & post & H). destruct pre; [by exists post|done].
  - cbn [contains]. rewrite orb_true_iff, IH, FixFacts.prefix_app. split.
    + intros [[t Ht]|(pre & post & H)].
      * by exists "", t.
      * exists (String c pre), post. simpl. by rewrite H.
    + intros ([|x pre] & post & H).
      * left. by exists post.
      * right. simpl in H. injection H as <- H. by exists pre, post.
Qed.

Lemma contains_trans (a b s : string) :
  contains a b = true -> contains b s = true -> contains a s = true.
Proof.
  rewrite !contains_spec.
  intros (p1 & q1 & ->) (p2 & q2 & ->).
  exists (p2 +:+ p1), (q1 +:+ q2). by rewrite !append_assoc.
Qed.

Lemma length_app (a b : string) :
  String.length (a +:+ b) = String.length a + String.length b.
Proof. induction a as [|x a IH]; simpl; [done|]. by rewrite IH. Qed.

Lemma chars_app (a b : string) :
  String.list_ascii_of_string (a +:+ b)
  = String.list_ascii_of_string a ++ String.list_ascii_of_string b.
Proof. induction a as [|x a IH]; simpl; [done|]. by rewrite IH. Qed.

Lemma rev_onto_app s acc : rev_onto s acc = rev s +:+ acc.
Proof.
  unfold rev. revert acc. induction s as [|c s IH]; intros acc; simpl; [done|].
  rewrite (IH (String c acc)), (IH (String c "")).
  by rewrite append_assoc.
Qed.

Lemma rev_cons c s : rev (String c s) = rev s +:+ String c "".
Proof. unfold rev at 1. simpl. apply rev_onto_app. Qed.

Lemma rev_app a b : rev (a +:+ b) = rev b +:+ rev a.
Proof.
  induction a as [|c a IH]; simpl.
  - by rewrite append_nil_r.
  - by rewrite !rev_cons, IH, append_assoc.
Qed.

Lemma rev_rev s : rev (rev s) = s.
Proof.
  induction s as [|c s IH]; [done|].
  by rewrite rev_cons, rev_app, IH.
Qed.

(** [lstrip] drops a prefix, [rstrip] a suffix, [strip] both. *)
Lemma lstrip_suffix s : exists w, s = w +:+ lstrip s.
Proof.
  induction s as [|c s [w IH]]; [by exists ""|]. simpl.
  destruct (is_space c).
  - exists (String c w). simpl. by rewrite <- IH.
  - by exists "".
Qed.

Lemma rstrip_prefix s : exists w, s = rstrip s +:+ w.
Proof.
  unfold rstrip. destruct (lstrip_suffix (rev s)) as [w Hw].
  exists (rev w). rewrite <- rev_app, <- Hw. by rewrite rev_rev.
Qed.

Lemma strip_infix s : exists pre post, s = pre +:+ strip s +:+ post.
Proof.
  unfold strip. destruct (rstrip_prefix s) as [post Hpost].
  destruct (lstrip_suffix (rstrip s)) as [pre Hpre].
  exists pre, post. by rewrite <- append_assoc, <- Hpre.
Qed.

Lemma strip_length s : String.length (strip s) <= String.length s.
Proof.
  destruct (strip_infix s) as (pre & post & H).
  rewrite H at 2. rewrite !length_app. lia.
Qed.

Lemma strip_chars s :
  sublist (String.list_ascii_of_string (strip s)) (String.list_ascii_of_string s).
Proof.
  destruct (strip_infix s) as (pre & post & H).
  rewrite H at 2. rewrite !chars_app.
  apply sublist_inserts_l, sublist_inserts_r. reflexivity.
Qed.

Lemma lstrip_keeps kw pre post :
  solid_head kw = true ->
  exists pre', lstrip (pre +:+ kw +:+ post) = pre' +:+ kw +:+ post.
Proof.
  intros Hkw. induction pre as [|c pre [pre' IH]].
  - exists "". destruct kw as [|k kw]; [done|]. simpl in *.
    by destruct (is_space k).
  - simpl. destruct (is_space c); [by exists pre'|by exists (String c pre)].
Qed.

Lemma strip_keeps kw s :
  solid_head kw = true -> solid_head (rev kw) = true ->
  contains kw s = true -> contains kw (strip s) = true.
Proof.
  intros Hh Ht. rewrite !contains_spec. intros (pre & post & ->).
  unfold strip, rstrip.
  rewrite rev_app, rev_app, append_assoc.
  destruct (lstrip_keeps (rev kw) (rev post) (rev pre) Ht) as [post' ->].
  rewrite rev_app, rev_app, !rev_rev, append_assoc.
  destruct (lstrip_keeps kw pre (rev post') Hh) as [pre' ->]. eauto.
Qed.

(** [s.replace(old, "")]: what is not there is not replaced; what is
    replaced is deleted. *)
Lemma replace_from_absent old new s :
  contains old s = false -> replace_from 0 old new s = s.
Proof.
  induction s as [|c s IH]; [done|]. cbn [contains replace_from].
  intros [Hp Hc]%orb_false_iff. rewrite Hp. by rewrite IH.
Qed.

Lemma replace_from_chars skip old s :
  sublist (String.list_ascii_of_string (replace_from skip old "" s))
          (String.list_ascii_of_string s).
Proof.
  revert skip. induction s as [|c s IH]; intros skip; [by destruct skip|].
  cbn [replace_from]. destruct skip as [|k].
  - destruct (String.prefix old (String c s)).
    + simpl. apply sublist_cons, IH.
    + simpl. apply sublist_skip, IH.
  - simpl. apply sublist_cons, IH.
Qed.

Lemma replace_from_length skip old s :
  String.length (replace_from skip old "" s) <= String.length s - skip.
Proof.
  revert skip. induction s as [|c s IH]; intros skip; [by destruct skip|].
  cbn [replace_from]. destruct skip as [|k].
  - destruct (String.prefix old (String c s)).
    + simpl. specialize (IH (String.length old - 1)). lia.
    + simpl. specialize (IH 0). lia.
  - simpl. apply IH.
Qed.

Lemma replace_from_found old s :
  contains old s = true ->
  String.length (replace_from 0 old "" s) + String.length old
  <= String.length s.
Proof.
  induction s as [|c s IH]; cbn [contains replace_from].
  - rewrite orb_false_r. intros [t Ht]%FixFacts.prefix_app.
    destruct old; [simpl; lia|done].
  - destruct (String.prefix old (String c s)) eqn:Hp.
    + intros _. apply FixFacts.prefix_app in Hp as [t Ht].
      pose proof (f_equal String.length Ht) as Hlen.
      rewrite length_app in Hlen. simpl in Hlen.
      pose proof (replace_from_length (String.length old - 1) old s).
      simpl. lia.
    + simpl. intros H. specialize (IH H). lia.
Qed.

Lemma lstrip_stripped s : stripped (lstrip s).
Proof.
  induction s as [|c s IH]; [by left|]. simpl.
  destruct (is_space c) eqn:E; [exact IH|]. right. simpl. by rewrite E.
Qed.

Lemma lstrip_id s : stripped s -> lstrip s = s.
Proof.
  intros [->|H]; [done|]. destruct s as [|c s]; [done|]. simpl in *.
  by destruct (is_space c).
Qed.

Lemma rev_nil_inv s : rev s = "" -> s = "".
Proof. intros H. by rewrite <- (rev_rev s), H. Qed.

Lemma solid_head_app a b : a <> "" -> solid_head (a +:+ b) = solid_head a.
Proof. by destruct a. Qed.

Lemma rstrip_id s : stripped (rev s) -> rstrip s = s.
Proof. intros H. unfold rstrip. by rewrite (lstrip_id _ H), rev_rev. Qed.

Lemma rstrip_stripped s : stripped (rev (rstrip s)).
Proof. unfold rstrip. rewrite rev_rev. apply lstrip_stripped. Qed.

Lemma lstrip_keeps_right s : stripped (rev s) -> stripped (rev (lstrip s)).
Proof.
  intros [H|H].
  - apply rev_nil_inv in H as ->. by left.
  - destruct (lstrip_suffix s) as [w Hw].
    destruct (decide (rev (lstrip s) = "")) as [E|E]; [by left|right].
    rewrite Hw, rev_app in H. by rewrite solid_head_app in H.
Qed.

Lemma strip_strip s : strip (strip s) = strip s.
Proof.
  unfold strip.
  rewrite (rstrip_id (lstrip (rstrip s)))
    by apply lstrip_keeps_right, rstrip_stripped.
  apply lstrip_id, lstrip_stripped.
Qed.

Lemma contains_strip kw s :
  contains kw (strip s) = true -> contains kw s = true.
Proof.
  intros H. apply (contains_trans _ _ _ H).
  apply contains_spec. apply strip_infix.
Qed.

(** One pass of the clean-up loop, [question.replace(keyword, "").strip()],
    for a keyword that is not empty. *)
Lemma pass_chars c kw s :
  sublist (String.list_ascii_of_string (strip (replace s (String c kw) "")))
          (String.list_ascii_of_string s).
Proof.
  change (replace s (String c kw) "")
    with (replace_from 0 (String c kw) "" s).
  etrans; [apply strip_chars|apply replace_from_chars].
Qed.

Lemma pass_length c kw s :
  String.length (strip (replace s (String c kw) "")) <= String.length s.
Proof.
  change (replace s (String c kw) "")
    with (replace_from 0 (String c kw) "" s).
  pose proof (strip_length (replace_from 0 (String c kw) "" s)).
  pose proof (replace_from_length 0 (String c kw) s). lia.
Qed.

Lemma pass_found c kw s :
  contains (String c kw) s = true ->
  String.length (strip (replace s (String c kw) ""))
  + String.length (String c kw) <= String.length s.
Proof.
  intros H.
  change (replace s (String c kw) "")
    with (replace_from 0 (String c kw) "" s).
  pose proof (strip_length (replace_from 0 (String c kw) "" s)).
  pose proof (replace_from_found _ _ H). lia.
Qed.

Lemma pass_absent c kw s :
  contains (String c kw) s = false ->
  strip (replace s (String c kw) "") = strip s.
Proof.
  intros H.
  change (replace s (String c kw) "")
    with (replace_from 0 (String c kw) "" s).
  by rewrite replace_from_absent.
Qed.

Lemma remove_keywords_chars question :
  sublist (String.list_ascii_of_string (remove_keywords question))
          (String.list_ascii_of_string question).
Proof.
  unfold remove_keywords, web_search_keywords. cbn [foldl].
  repeat (etrans; [apply pass_chars|]). reflexivity.
Qed.

Lemma remove_keywords_absent question :
  contains "search" question = false ->
  contains "google" question = false ->
  remove_keywords question = strip question.
Proof.
  intros Hs Hg.
  assert (forall kw, contains "search" kw = true \/ contains "google" kw = true ->
                     contains kw (strip question) = false) as Hkw.
  { intros kw Hin. destruct (contains kw (strip question)) eqn:E; [|done].
    apply contains_strip in E.
    destruct Hin as [Hin|Hin].
    - by rewrite (contains_trans _ _ _ Hin E) in Hs.
    - by rewrite (contains_trans _ _ _ Hin E) in Hg. }
  unfold remove_keywords, web_search_keywords. cbn [foldl].
  rewrite (pass_absent _ _ question) by exact Hs.
  rewrite (pass_absent _ _ (strip question)), strip_strip
    by (apply Hkw; by right).
  rewrite (pass_absent _ _ (strip question)), strip_strip
    by (apply Hkw; by left).
  rewrite (pass_absent _ _ (strip question)), strip_strip
    by (apply Hkw; by left).
  rewrite (pass_absent _ _ (strip question)), strip_strip
    by (apply Hkw; by left).
  reflexivity.
Qed.

Lemma remove_keywords_shortens question :
  contains "search" question = true \/ contains "google" question = true ->
  String.length (remove_keywords question) + 6 <= String.length question.
Proof.
  intros H. unfold remove_keywords, web_search_keywords. cbn [foldl].
  set (s1 := strip (replace question "search" "")).
  set (s2 := strip (replace s1 "google" "")).
  set (s3 := strip (replace s2 "web search" "")).
  set (s4 := strip (replace s3 "search on google" "")).
  pose proof (pass_length _ _ s4 : String.length (strip (replace s4 "search web" "")) <= _).
  pose proof (pass_length _ _ s3 : String.length s4 <= _).
  pose proof (pass_length _ _ s2 : String.length s3 <= _).
  pose proof (pass_length _ _ s1 : String.length s2 <= _).
  pose proof (pass_length _ _ question : String.length s1 <= _).
  destruct (contains "search" question) eqn:Hs.
  - pose proof (pass_found _ _ _ Hs) as Hf. fold s1 in Hf. simpl in Hf. lia.
  - destruct H as [H|H]; [done|].
    assert (s1 = strip question) as E1 by (by apply pass_absent).
    assert (contains "google" s1 = true) as Hg.
    { rewrite E1. by apply strip_keeps. }
    pose proof (pass_found _ _ _ Hg) as Hf. fold s2 in Hf. simpl in Hf. lia.
Qed.

End StringFacts.

(** ** [answer_question] *)
Module PipelineFacts.
Import Np Py Re AGHRAGService Spec Examples.
Local Open Scope Q_scope.

Section WithLib.
Context {L : Lib}.

Lemma answer_question_not_initialized w question flag profile :
  df w = None ->
  answer_question w question flag profile
  = (not_initialized (length (split question)), []).
Proof. intros H. unfold answer_question. by rewrite H. Qed.

Lemma answer_question_no_embedding w question flag profile rows :
  df w = Some rows ->
  ollama_embeddings w (embedded_text question) = None \/
  ollama_embeddings w (embedded_text question) = Some [] ->
  answer_question w question flag profile
  = (cannot_process (length (split question)),
     [EmbedCall (embedded_text question)]).
Proof.
  intros Hdf He. unfold answer_question, _embed_question, _generate_embedding.
  rewrite Hdf. fold (embedded_text question).
  by destruct He as [-> | ->].
Qed.

Lemma explicit_web_search_failed w q n :
  search_failed (search_and_extract w (agh_search_query q) 5) ->
  explicit_web_search w q n = (None, [SearchCall (agh_search_query q) 5]).
Proof. unfold explicit_web_search. by intros [-> | ->]. Qed.

Lemma fallback_web_search_failed w q :
  search_failed (search_and_extract w (agh_search_query q) 3) ->
  fallback_web_search w q = (None, [SearchCall (agh_search_query q) 3]).
Proof. unfold fallback_web_search. by intros [-> | ->]. Qed.

Lemma explicit_web_search_calls w q n :
  exists rest,
    (explicit_web_search w q n).2 = SearchCall (agh_search_query q) 5 :: rest.
Proof.
  unfold explicit_web_search.
  destruct (search_and_extract w _ 5) as [[|r rs]|]; simpl; eauto.
  destruct (_generate_answer w _). simpl. eauto.
Qed.

(** The shape of [answer_question] once the frame is loaded and the
    question is embedded. *)
Lemma answer_question_embedded w question flag profile rows e :
  df w = Some rows ->
  ollama_embeddings w (embedded_text question) = Some e -> e <> [] ->
  answer_question w question flag profile
  = let q := embedded_text question in
    let n := length (split question) in
    let calls := [EmbedCall q; RetrieveCall e] in
    let '(web, web_calls) :=
      if web_requested question flag then explicit_web_search w q n
      else (None, []) in
    match web with
    | Some response => (response, calls ++ web_calls)
    | None =>
        match retrieved rows e with
        | [] =>
            let '(web, fallback_calls) :=
              if web_requested question flag then fallback_web_search w q
              else (None, []) in
            (default (no_answer n) web, calls ++ web_calls ++ fallback_calls)
        | _ =>
            match document_answer w rows (retrieved rows e) q profile n with
            | Some (response, doc_calls) =>
                (response, calls ++ web_calls ++ doc_calls)
            | None => (processing_error n, calls ++ web_calls)
            end
        end
    end.
Proof.
  intros Hdf He Hne. unfold answer_question, _embed_question, _generate_embedding.
  rewrite Hdf. fold (embedded_text question) (web_requested question flag).
  rewrite He. destruct e as [|x e]; [done|]. reflexivity.
Qed.

Context {HL : LibSpec L}.

Lemma not_none_length (column : list (option embedding)) :
  (length (AGHRetrieval.not_none column) <= length column)%nat.
Proof.
  unfold AGHRetrieval.not_none.
  induction column as [|[e|] column IH]; cbn in *; lia.
Qed.

(** The retrieved positions are rows of the frame. *)
Lemma retrieved_valid rows e :
  Forall (fun i => (i < length rows)%nat) (retrieved rows e).
Proof.
  unfold retrieved, AGHRetrieval._retrieve_relevant_chunks.
  pose proof (not_none_length (map Embedding rows)) as Hlen.
  rewrite length_map in Hlen.
  destruct (length (AGHRetrieval.not_none (map Embedding rows)) =? 0)%nat;
    [constructor|].
  destruct (AGHRetrieval.similarities _ e) as [sims|] eqn:Hs; [|constructor].
  simpl. apply CosineFacts.similarities_length in Hs.
  destruct (RetrievalFacts.agh_select_spec sims (75 # 100) 3)
    as (r & -> & _ & Hp).
  simpl. rewrite Hp. eapply Forall_impl.
  - destruct (_ =? _)%nat; [|apply RetrievalFacts.where_gt_valid].
    destruct (RetrievalFacts.last_k_suffix 3 (argsort sims)) as [m ->].
    apply RetrievalFacts.suffix_valid.
  - simpl. intros i Hi. lia.
Qed.

(** The answer from the rows: one generation, whose reply goes through
    [_fix_known_errors]. *)
Lemma document_answer_spec w rows indices q profile n :
  indices <> [] -> Forall (fun i => (i < length rows)%nat) indices ->
  exists prompt response,
    document_answer w rows indices q profile n
      = Some (response, [GenerateCall prompt]) /\
    answer response = _fix_known_errors (_generate_answer w prompt).1 /\
    sources_type response = "document".
Proof.
  intros Hne Hvalid. unfold document_answer.
  destruct (mapM (fun i => rows !! i) indices) as [picked|] eqn:Hm.
  2: { exfalso. assert (is_Some (mapM (fun i => rows !! i) indices)) as [? ?].
       { apply mapM_is_Some. eapply Forall_impl; [exact Hvalid|].
         simpl. intros i Hi. by apply lookup_lt_is_Some. }
       congruence. }
  simpl.
  match goal with
  | |- context [_build_prompt ?a ?b ?c ?d ?k] =>
      destruct (_build_prompt a b c d k) as [[prompt used_chunks] used_metadata]
  end.
  destruct (_generate_answer w prompt) as [generated tokens_generated] eqn:Hg.
  assert ((length indices =? 0)%nat = false) as ->.
  { destruct indices; [done|reflexivity]. }
  rewrite andb_false_r. eexists _, _. split; [reflexivity|].
  simpl. by rewrite Hg.
Qed.

(** With web search on and the question embedded, the search is the call
    that follows the embedding and the retrieval. *)
Lemma web_search_is_called w question flag profile rows e :
  df w = Some rows -> web_requested question flag = true ->
  ollama_embeddings w (embedded_text question) = Some e -> e <> [] ->
  exists rest,
    (answer_question w question flag profile).2
    = EmbedCall (embedded_text question) :: RetrieveCall e
      :: SearchCall (agh_search_query (embedded_text question)) 5 :: rest.
Proof.
  intros Hdf Hweb He Hne.
  rewrite (answer_question_embedded _ _ _ _ _ _ Hdf He Hne), Hweb.
  cbv zeta.
  set (q := embedded_text question). set (n := length (split question)).
  destruct (explicit_web_search_calls w q n) as [rest Hrest].
  destruct (explicit_web_search w q n) as [[response|] web_calls];
    simpl in Hrest; subst web_calls.
  - cbn. eexists. reflexivity.
  - destruct (retrieved rows e) as [|i l].
    + destruct (fallback_web_search w q). cbn. eexists. reflexivity.
    + destruct (document_answer w rows (i :: l) q profile n) as [[? ?]|];
        cbn; eexists; reflexivity.
Qed.

(** C7.  When the question cannot be embedded (Ollama gives no embedding
    or an empty one) and the frame is loaded, the answer is "Sorry, I
    couldn't process your question." with trust score 0 and the warning
    "Embedding generation failed"; its [sources_type] is "document", and
    the embedding call is the only call made: nothing is retrieved,
    searched or generated. *)
Theorem embedding_failure_cannot_process w question flag profile rows :
  df w = Some rows ->
  ollama_embeddings w (embedded_text question) = None \/
  ollama_embeddings w (embedded_text question) = Some [] ->
  let out := answer_question w question flag profile in
  answer out.1 = "Sorry, I couldn't process your question." /\
  trust_score out.1 = 0 /\
  sources_type out.1 = "document" /\
  warning out.1 = Some "Embedding generation failed" /\
  out.2 = [EmbedCall (embedded_text question)].
Proof.
  intros Hdf He out. unfold out.
  by rewrite (answer_question_no_embedding _ _ _ _ _ Hdf He).
Qed.

(** C3.  With web search on (by the argument or by a keyword), the frame
    loaded and the question embedded, the first call after the embedding
    and the retrieval is the web search, whatever was retrieved.  When that
    search raises or finds nothing, the function falls back to the
    documents: with rows retrieved it answers from them, and only with none
    retrieved and a second failed search does it give the no-answer
    response. *)
Theorem web_request_search_then_fallback w question flag profile rows e :
  df w = Some rows -> web_requested question flag = true ->
  ollama_embeddings w (embedded_text question) = Some e -> e <> [] ->
  let q := embedded_text question in
  let n := length (split question) in
  let out := answer_question w question flag profile in
  (exists rest,
     out.2 = EmbedCall q :: RetrieveCall e
             :: SearchCall (agh_search_query q) 5 :: rest) /\
  (search_failed (search_and_extract w (agh_search_query q) 5) ->
   (retrieved rows e <> [] ->
    exists prompt,
      out.2 = [EmbedCall q; RetrieveCall e;
               SearchCall (agh_search_query q) 5; GenerateCall prompt] /\
      answer out.1 = _fix_known_errors (_generate_answer w prompt).1 /\
      sources_type out.1 = "document") /\
   (retrieved rows e = [] ->
    search_failed (search_and_extract w (agh_search_query q) 3) ->
    out = (no_answer n,
           [EmbedCall q; RetrieveCall e; SearchCall (agh_search_query q) 5;
            SearchCall (agh_search_query q) 3]))).
Proof.
  intros Hdf Hweb He Hne q n out. unfold out. split.
  { by apply (web_search_is_called _ _ _ _ rows). }
  rewrite (answer_question_embedded _ _ _ _ _ _ Hdf He Hne), Hweb.
  cbv zeta. fold q n.
  - intros Hfail. rewrite (explicit_web_search_failed _ _ _ Hfail). split.
    + intros Hidx.
      destruct (document_answer_spec w rows (retrieved rows e) q profile n
                  Hidx (retrieved_valid rows e))
        as (prompt & response & Hdoc & Hans & Hty).
      destruct (retrieved rows e) as [|i l] eqn:Hr; [done|].
      rewrite Hdoc. simpl. eauto.
    + intros -> Hfail3. by rewrite (fallback_web_search_failed _ _ Hfail3).
Qed.



End WithLib.
Lemma embedding_failure_cannot_process_witness :
  trust_score (ask (demo_world None "x" (Some [])) "hello" false).1 = 0.
Proof.
  refine (proj1 (proj2 (embedding_failure_cannot_process (L := reference_lib)
            (demo_world None "x" (Some [])) "hello" false None grade_rows _ _))).
  - reflexivity.
  - left. reflexivity.
Defined.

(** C7, as stated, fails on the source type: the response to a failed
    embedding says "document"; [AGHResponse] knows "document" and "web"
    only. *)
Lemma cannot_process_source_type_is_document :
  answer (ask (demo_world None "x" (Some [])) "hello" false).1
    = "Sorry, I couldn't process your question." /\
  trust_score (ask (demo_world None "x" (Some [])) "hello" false).1 = 0 /\
  sources_type (ask (demo_world None "x" (Some [])) "hello" false).1 = "document" /\
  sources_type (ask (demo_world None "x" (Some [])) "hello" false).1 <> "none".
Proof. repeat split; try (vm_compute; reflexivity). vm_compute. discriminate. Qed.

Lemma web_request_search_then_fallback_witness :
  exists rest,
    (ask (demo_world (Some [1; 0]) "The passing grade is 60/100." (Some []))
       "what is the passing grade" true).2
    = EmbedCall "what is the passing grade" :: RetrieveCall [1; 0]
      :: SearchCall (agh_search_query "what is the passing grade") 5 :: rest.
Proof.
  refine (proj1 (web_request_search_then_fallback (L := reference_lib)
            (HL := LibFacts.reference_lib_spec)
            (demo_world (Some [1; 0]) "The passing grade is 60/100." (Some []))
            "what is the passing grade" true None grade_rows [1; 0] _ _ _ _)).
  - reflexivity.
  - reflexivity.
  - reflexivity.
  - discriminate.
Defined.

(** C3, as stated, fails: web search is requested and finds nothing or
    raises, a row was retrieved, and the answer comes from that row, not
    the no-answer response. *)
Lemma failed_web_search_answers_from_documents :
  (forall found, found = Some [] \/ found = None ->
     answer (ask (demo_world (Some [1; 0]) "The passing grade is 60/100." found)
               "what is the passing grade" true).1
       = "The passing grade is 50/100." /\
     sources (ask (demo_world (Some [1; 0]) "The passing grade is 60/100." found)
                "what is the passing grade" true).1
       = "§19 Grades (§19)" /\
     sources_type
       (ask (demo_world (Some [1; 0]) "The passing grade is 60/100." found)
          "what is the passing grade" true).1 = "document" /\
     (ask (demo_world (Some [1; 0]) "The passing grade is 60/100." found)
        "what is the passing grade" true).2
       = [EmbedCall "what is the passing grade"; RetrieveCall [1; 0];
          SearchCall (agh_search_query "what is the passing grade") 5;
          GenerateCall
            (_build_prompt
               ["[§19 Grades]" +:+ nl +:+ "passing grade is 50 out of 100"]
               [{| section := "19"; title := "§19 Grades";
                   content := "passing grade is 50 out of 100" |}]
               "what is the passing grade" None 7000).1.1]) /\
  answer (no_answer 5) <> "The passing grade is 50/100.".
Proof.
  split; [|discriminate].
  intros found [-> | ->]; repeat split; vm_compute; reflexivity.
Qed.





End PipelineFacts.

(** ** The embedding cache: sweeping and overwriting *)
Module SweepFacts.
Import Np EmbeddingCache Terms.
Local Open Scope Z_scope.

Lemma invalidate_lookup c k k' :
  files (cache_dir (_invalidate_entry c k)) !! k'
    = (if decide (k = k') then None else files (cache_dir c) !! k') /\
  _load_metadata (_invalidate_entry c k) !! k'
    = (if decide (k = k') then None else _load_metadata c !! k') /\
  ttl_hours (_invalidate_entry c k) = ttl_hours c.
Proof.
  unfold _invalidate_entry, _load_metadata. simpl.
  destruct (default ∅ (metadata_file (cache_dir c)) !! k) eqn:E; simpl;
    rewrite !lookup_delete; repeat split.
  destruct (decide (k = k')) as [<-|]; done.
Qed.

Lemma sweep_lookup ks c k :
  files (cache_dir (foldl _invalidate_entry c ks)) !! k
    = (if decide (k ∈ ks) then None else files (cache_dir c) !! k) /\
  _load_metadata (foldl _invalidate_entry c ks) !! k
    = (if decide (k ∈ ks) then None else _load_metadata c !! k) /\
  ttl_hours (foldl _invalidate_entry c ks) = ttl_hours c.
Proof.
  revert c. induction ks as [|a ks IH]; intros c; cbn [foldl].
  - destruct (decide (k ∈ [])) as [Hin|]; [|done].
    by apply elem_of_nil in Hin.
  - destruct (IH (_invalidate_entry c a)) as (Hf & Hm & Ht).
    destruct (invalidate_lookup c a k) as (Hf' & Hm' & Ht').
    rewrite Hf, Hm, Ht, Hf', Hm', Ht'.
    destruct (decide (k ∈ ks)) as [Hin|Hin].
    + rewrite !(decide_True (P := k ∈ a :: ks)) by (apply elem_of_cons; by right). done.
    + destruct (decide (a = k)) as [->|Hne].
      * rewrite !(decide_True (P := k ∈ k :: ks)) by (apply elem_of_cons; by left). done.
      * rewrite !(decide_False (P := k ∈ a :: ks))
          by (intros [->|?]%elem_of_cons; done).
        done.
Qed.

Lemma expired_keys_spec c now k :
  k ∈ omap (fun kv : string * MetaEntry =>
              if timedelta_hours (ttl_hours c) <? now - timestamp kv.2
              then Some kv.1 else None)
           (map_to_list (_load_metadata c)) <->
  exists e, _load_metadata c !! k = Some e /\ expired c now e = true.
Proof.
  rewrite list_elem_of_omap. split.
  - intros ([k' e] & Hin & Hf). simpl in Hf.
    apply elem_of_map_to_list in Hin.
    destruct (_ <? _) eqn:E; [|done]. injection Hf as <-. by exists e.
  - intros (e & Hm & He). exists (k, e). split.
    + by apply elem_of_map_to_list.
    + simpl. unfold expired in He. by rewrite He.
Qed.

Lemma cleanup_lookup c now k :
  files (cache_dir (cleanup_expired c now)) !! k
    = match _load_metadata c !! k with
      | Some e => if expired c now e then None else files (cache_dir c) !! k
      | None => files (cache_dir c) !! k
      end /\
  _load_metadata (cleanup_expired c now) !! k
    = match _load_metadata c !! k with
      | Some e => if expired c now e then None else Some e
      | None => None
      end /\
  ttl_hours (cleanup_expired c now) = ttl_hours c.
Proof.
  unfold cleanup_expired.
  match goal with |- context [foldl _ c ?ks] =>
    destruct (sweep_lookup ks c k) as (Hf & Hm & Ht);
    pose proof (expired_keys_spec c now k) as Hk;
    rewrite Hf, Hm, Ht; destruct (decide (k ∈ ks)) as [Hin|Hin]
  end.
  - apply Hk in Hin as (e & -> & ->). done.
  - destruct (_load_metadata c !! k) as [e|] eqn:E; [|done].
    destruct (expired c now e) eqn:He; [|done].
    exfalso. apply Hin, Hk. by exists e.
Qed.

Lemma omap_nil {A B} (f : A -> option B) (l : list A) :
  Forall (fun x => f x = None) l -> omap f l = [].
Proof.
  induction 1 as [|x l Hx _ IH]; [done|].
  change (omap f (x :: l))
    with (match f x with Some y => y :: omap f l | None => omap f l end).
  by rewrite Hx.
Qed.

Section WithHash.
Context (md5_hexdigest : string -> string).

#[local] Abbreviation key := (_get_cache_key md5_hexdigest).
#[local] Abbreviation get := (EmbeddingCache.get md5_hexdigest).
#[local] Abbreviation set := (EmbeddingCache.set md5_hexdigest).

(** X1.  [cleanup_expired] removes exactly the entries that are older than
    the time to live: such an entry loses its metadata and its pickle
    file; a younger entry keeps both; a pickle file without metadata is
    never removed.  The time to live is not changed. *)
Theorem cleanup_expired_sweeps c now k :
  let c' := cleanup_expired c now in
  ttl_hours c' = ttl_hours c /\
  (forall e, _load_metadata c !! k = Some e -> expired c now e = true ->
     _load_metadata c' !! k = None /\ files (cache_dir c') !! k = None) /\
  (forall e, _load_metadata c !! k = Some e -> expired c now e = false ->
     _load_metadata c' !! k = Some e /\
     files (cache_dir c') !! k = files (cache_dir c) !! k) /\
  (_load_metadata c !! k = None ->
     _load_metadata c' !! k = None /\
     files (cache_dir c') !! k = files (cache_dir c) !! k).
Proof.
  intros c'. destruct (cleanup_lookup c now k) as (Hf & Hm & Ht).
  fold c' in Hf, Hm, Ht. split; [done|]. split; [|split].
  - intros e He Hx. rewrite Hf, Hm, He, Hx. done.
  - intros e He Hx. rewrite Hf, Hm, He, Hx. done.
  - intros He. rewrite Hf, Hm, He. done.
Qed.

(** X2.  Sweeping does not change what a lookup answers at the time of the
    sweep or later; after a sweep a lookup at that time leaves the
    directory as it is; and a second sweep at that time changes nothing. *)
Theorem cleanup_expired_keeps_lookups c t m now now' :
  now <= now' ->
  (get (cleanup_expired c now) t m now').1 = (get c t m now').1 /\
  (get (cleanup_expired c now) t m now).2 = cleanup_expired c now /\
  cleanup_expired (cleanup_expired c now) now = cleanup_expired c now.
Proof.
  intros Hle. split; [|split].
  - unfold EmbeddingCache.get.
    destruct (cleanup_lookup c now (key t m)) as (Hf & Hm & Ht).
    rewrite Hf, Hm, Ht.
    destruct (_load_metadata c !! key t m) as [e|] eqn:E.
    + destruct (expired c now e) eqn:Hx.
      * destruct (files (cache_dir c) !! key t m); [|done].
        unfold expired in Hx. apply Z.ltb_lt in Hx.
        destruct (Z.ltb_spec (timedelta_hours (ttl_hours c))
                    (now' - timestamp e)); [done|lia].
      * destruct (files (cache_dir c) !! key t m); [|done].
        by destruct (_ <? _).
    + by destruct (files (cache_dir c) !! key t m).
  - unfold EmbeddingCache.get.
    destruct (cleanup_lookup c now (key t m)) as (Hf & Hm & Ht).
    destruct (files (cache_dir (cleanup_expired c now)) !! key t m) as [v|];
      [|done].
    rewrite Hm, Ht.
    destruct (_load_metadata c !! key t m) as [e|] eqn:E; [|done].
    destruct (expired c now e) eqn:Hx; [done|].
    unfold expired in Hx. by rewrite Hx.
  - set (c' := cleanup_expired c now).
    unfold cleanup_expired at 1. rewrite omap_nil; [done|].
    apply Forall_forall. intros [k e] Hin%elem_of_map_to_list. simpl.
    destruct (cleanup_lookup c now k) as (_ & Hm & Ht).
    fold c' in Hm, Ht. rewrite Ht. rewrite Hm in Hin.
    destruct (_load_metadata c !! k) as [e0|]; [|done].
    destruct (expired c now e0) eqn:Hx; [done|].
    injection Hin as <-. unfold expired in Hx. by rewrite Hx.
Qed.

(** X3.  The last write wins: storing twice under one text and model
    leaves the directory that the second store alone leaves; and stores
    under different keys can be made in either order. *)
Theorem set_last_write_wins c t m v0 v1 t0 t1 :
  set (set c t m v0 t0) t m v1 t1 = set c t m v1 t1 /\
  forall t' m' v' t0',
    key t m <> key t' m' ->
    set (set c t m v0 t0) t' m' v' t0' = set (set c t' m' v' t0') t m v0 t0.
Proof.
  split.
  - unfold EmbeddingCache.set, _save_metadata, _load_metadata, with_dir.
    simpl. by rewrite !insert_insert_eq.
  - intros t' m' v' t0' Hk.
    unfold EmbeddingCache.set, _save_metadata, _load_metadata, with_dir.
    simpl. f_equal. f_equal.
    + by apply insert_insert_ne.
    + f_equal. by apply insert_insert_ne.
Qed.

(** X4.  A lookup answers with an embedding only from an entry that is not
    older than the time to live, whatever the directory holds, and then
    leaves the directory as it is. *)
Theorem get_returns_only_fresh c t m now v :
  (get c t m now).1 = Some v ->
  (get c t m now).2 = c /\
  files (cache_dir c) !! key t m = Some v /\
  exists e, _load_metadata c !! key t m = Some e /\
            now - timestamp e <= timedelta_hours (ttl_hours c).
Proof.
  unfold EmbeddingCache.get.
  destruct (files (cache_dir c) !! key t m) as [v'|]; [|done].
  destruct (_load_metadata c !! key t m) as [e|]; [|done].
  destruct (Z.ltb_spec (timedelta_hours (ttl_hours c)) (now - timestamp e));
    [done|].
  simpl. intros [= ->]. split; [done|]. split; [done|]. by exists e.
Qed.

(** X5.  That every metadata entry has its pickle file holds of the empty
    directory and is kept by [set], [get], [_invalidate_entry] and
    [cleanup_expired]. *)
Theorem cache_stays_consistent c :
  consistent (__init__ empty_dir) /\
  (consistent c ->
   (forall t m v now, consistent (set c t m v now)) /\
   (forall t m now, consistent (get c t m now).2) /\
   (forall k, consistent (_invalidate_entry c k)) /\
   (forall now, consistent (cleanup_expired c now))).
Proof.
  split.
  - intros k [e He]. unfold _load_metadata in He. simpl in He.
    by rewrite lookup_empty in He.
  - intros Hc.
    assert (Hinv : forall k, consistent (_invalidate_entry c k)).
    { intros k k'. destruct (invalidate_lookup c k k') as (-> & -> & _).
      destruct (decide (k = k')); [by intros [? ?]|apply Hc]. }
    split; [|split; [|split]].
    + intros t m v now k.
      rewrite (CacheFacts.set_files md5_hexdigest),
        (CacheFacts.set_metadata md5_hexdigest).
      destruct (decide (key t m = k)); [by eauto|apply Hc].
    + intros t m now. unfold EmbeddingCache.get.
      destruct (files (cache_dir c) !! key t m); [|done].
      destruct (_load_metadata c !! key t m); [|done].
      destruct (_ <? _); [apply Hinv|done].
    + done.
    + intros now k. destruct (cleanup_lookup c now k) as (-> & -> & _).
      destruct (_load_metadata c !! k) as [e|] eqn:E; [|by intros [? ?]].
      destruct (expired c now e); [by intros [? ?]|].
      intros _. apply Hc. by rewrite E.
Qed.

End WithHash.

Lemma cleanup_expired_sweeps_witness :
  _load_metadata (cleanup_expired Examples.hello_cache Scenarios.a_week_later)
    !! "hello:modelA" = None /\
  files (cache_dir (cleanup_expired Examples.hello_cache
                      Scenarios.a_week_later)) !! "hello:modelA" = None.
Proof.
  refine (proj1 (proj2 (cleanup_expired_sweeps Examples.hello_cache
                          Scenarios.a_week_later "hello:modelA"))
            {| timestamp := 0; model := "modelA"; text_length := 5 |} _ _).
  - vm_compute. reflexivity.
  - vm_compute. reflexivity.
Defined.

Lemma cleanup_expired_keeps_lookups_witness :
  (EmbeddingCache.get (fun s => s)
     (cleanup_expired Examples.hello_cache 0) "hello" "modelA" 5).1
  = (EmbeddingCache.get (fun s => s) Examples.hello_cache
       "hello" "modelA" 5).1.
Proof.
  refine (proj1 (cleanup_expired_keeps_lookups (fun s => s)
                   Examples.hello_cache "hello" "modelA" 0 5 _)).
  lia.
Defined.

Lemma set_last_write_wins_witness :
  EmbeddingCache.set (fun s => s) Examples.hello_cache "bye" "modelA" [] 7
  = EmbeddingCache.set (fun s => s)
      (EmbeddingCache.set (fun s => s) (__init__ empty_dir)
         "bye" "modelA" [] 7)
      "hello" "modelA" [1 # 10; 2 # 10; 3 # 10]%Q 0.
Proof.
  refine (proj2 (set_last_write_wins (fun s => s) (__init__ empty_dir)
                   "hello" "modelA" [1 # 10; 2 # 10; 3 # 10]%Q
                   [1 # 10; 2 # 10; 3 # 10]%Q 0 0)
            "bye" "modelA" [] 7 _).
  vm_compute. discriminate.
Defined.

Lemma get_returns_only_fresh_witness :
  files (cache_dir Examples.hello_cache) !! "hello:modelA"
  = Some [1 # 10; 2 # 10; 3 # 10]%Q.
Proof.
  refine (proj1 (proj2 (get_returns_only_fresh (fun s => s)
                          Examples.hello_cache "hello" "modelA" 0
                          [1 # 10; 2 # 10; 3 # 10]%Q _))).
  vm_compute. reflexivity.
Defined.

Lemma cache_stays_consistent_witness : consistent Examples.hello_cache.
Proof.
  refine (proj1 (proj2 (cache_stays_consistent (fun s => s)
                          (__init__ empty_dir)) _)
            "hello" "modelA" [1 # 10; 2 # 10; 3 # 10]%Q 0).
  exact (proj1 (cache_stays_consistent (fun s => s) (__init__ empty_dir))).
Defined.

End SweepFacts.

(** ** [AdvancedEmbeddingService]: embedding the documents *)
Module EmbeddingFacts.
Import Np DocumentEmbedding Runs.
Local Open Scope Q_scope.

Lemma get_ttl md5 c t m now :
  EmbeddingCache.ttl_hours (EmbeddingCache.get md5 c t m now).2
  = EmbeddingCache.ttl_hours c.
Proof.
  unfold EmbeddingCache.get.
  destruct (_ !! _); [|done].
  destruct (_ !! _); [|done].
  destruct (_ <? _)%Z; [|done].
  simpl. apply SweepFacts.invalidate_lookup. exact "".
Qed.

Section WithApi.
Context (md5_hexdigest : string -> string).
Context (embed_content : string -> string -> option string -> option embedding).

#[local] Abbreviation embed_document :=
  (DocumentEmbedding.embed_document true true md5_hexdigest embed_content).
#[local] Abbreviation run :=
  (Runs.run true true md5_hexdigest embed_content).

(** One call either is served by the cache or reaches the API. *)
Lemma embed_document_counts s title content use_cache clock :
  let s' := (embed_document s title content use_cache clock).2 in
  (cache_hits (metrics s') + api_calls (metrics s')
   = S (cache_hits (metrics s) + api_calls (metrics s)))%nat /\
  (api_calls (metrics s') + cache_misses (metrics s)
   = api_calls (metrics s) + cache_misses (metrics s')
     + (if use_cache then 0 else 1))%nat /\
  (cache_hits (metrics s) <= cache_hits (metrics s'))%nat /\
  (cache_misses (metrics s) <= cache_misses (metrics s'))%nat /\
  embedding_model s' = embedding_model s.
Proof.
  unfold DocumentEmbedding.embed_document. simpl.
  destruct use_cache.
  - destruct (EmbeddingCache.get _ _ _ _ _) as [[e|] c]; simpl.
    + repeat split; lia.
    + destruct (embed_content _ _ _); simpl; repeat split; lia.
  - destruct (embed_content _ _ _); simpl; repeat split; lia.
Qed.

(** X6.  A document whose embedding came from the API is stored under its
    content: the next [embed_document] of that content, whatever its
    title, within the time to live returns the same embedding from the
    cache, counts one hit, and neither calls the API nor changes the
    cache. *)
Theorem embed_document_caches s title content clock e s1 title' clock' :
  embed_document s title content true clock = (Some e, s1) ->
  api_calls (metrics s1) = S (api_calls (metrics s)) ->
  (at_get clock' - at_set clock
   <= EmbeddingCache.timedelta_hours (EmbeddingCache.ttl_hours (cache s)))%Z ->
  let out := embed_document s1 title' content true clock' in
  out.1 = Some e /\
  api_calls (metrics out.2) = api_calls (metrics s1) /\
  cache_hits (metrics out.2) = S (cache_hits (metrics s1)) /\
  cache_misses (metrics out.2) = cache_misses (metrics s1) /\
  cache out.2 = cache s1.
Proof.
  unfold DocumentEmbedding.embed_document. simpl.
  pose proof (get_ttl md5_hexdigest (cache s) content (embedding_model s)
                (at_get clock)) as Httl.
  destruct (EmbeddingCache.get _ (cache s) _ _ _) as [[e0|] c]; simpl in *.
  - intros [= <- <-]. simpl. lia.
  - destruct (embed_content _ _ _) as [e0|]; [|done].
    intros [= -> <-] _ Hfresh. simpl.
    rewrite <- Httl in Hfresh.
    rewrite (CacheFacts.get_fresh md5_hexdigest c content (embedding_model s)
               e (at_set clock) (at_get clock') Hfresh).
    done.
Qed.

(** X7.  Over any sequence of calls of [embed_document], every call is
    either a cache hit or an API call; the API calls are the cache misses
    and the calls that went around the cache; no counter goes down; and
    there are as many results as calls. *)
Theorem metrics_account s requests :
  let out := run s requests in
  length out.1 = length requests /\
  (cache_hits (metrics out.2) + api_calls (metrics out.2)
   = cache_hits (metrics s) + api_calls (metrics s) + length requests)%nat /\
  (api_calls (metrics out.2) + cache_misses (metrics s)
   = api_calls (metrics s) + cache_misses (metrics out.2)
     + uncached requests)%nat /\
  (cache_hits (metrics s) <= cache_hits (metrics out.2))%nat /\
  (cache_misses (metrics s) <= cache_misses (metrics out.2))%nat.
Proof.
  revert s. induction requests as [|r rest IH]; intros s.
  - simpl. unfold uncached. simpl. repeat split; lia.
  - cbn [Runs.run].
    pose proof (embed_document_counts s (title r) (content r) (use_cache r)
                  (clock r)) as H.
    destruct (embed_document s (title r) (content r) (use_cache r) (clock r))
      as [e s1].
    specialize (IH s1).
    destruct (run s1 rest) as [es s2]. simpl in *.
    assert (uncached (r :: rest)
            = ((if use_cache r then 0 else 1) + uncached rest)%nat) as ->.
    { unfold uncached. destruct (use_cache r) eqn:E.
      - rewrite filter_cons_False by (by rewrite E). done.
      - rewrite filter_cons_True by done. done. }
    destruct (use_cache r); repeat split; lia.
Qed.

End WithApi.

(** The loop of [prepare_embeddings] gives every row an embedding and
    leaves the frame of the service alone. *)
Lemma embed_rows_length b1 b2 md5 api s rows clock i :
  length (embed_rows b1 b2 md5 api s rows clock i).1 = length rows.
Proof.
  revert s i. induction rows as [|[t c] rows IH]; intros s i; [done|].
  cbn [embed_rows].
  destruct (DocumentEmbedding.embed_document _ _ _ _ _ _ _ _ _) as [r s1].
  specialize (IH s1 (S i)).
  destruct (embed_rows _ _ _ _ s1 rows clock (S i)) as [es s2].
  simpl in *. by rewrite IH.
Qed.

Lemma embed_document_df b1 b2 md5 api s title content use_cache clock :
  df (embed_document b1 b2 md5 api s title content use_cache clock).2 = df s.
Proof.
  unfold embed_document.
  destruct b1; [|done]. destruct b2; [|done]. simpl.
  destruct use_cache.
  - destruct (EmbeddingCache.get _ _ _ _ _) as [[e|] c]; simpl; [done|].
    by destruct (api _ _ _).
  - by destruct (api _ _ _).
Qed.

Lemma embed_rows_df b1 b2 md5 api s rows clock i :
  df (embed_rows b1 b2 md5 api s rows clock i).2 = df s.
Proof.
  revert s i. induction rows as [|[t c] rows IH]; intros s i; [done|].
  cbn [embed_rows].
  pose proof (embed_document_df b1 b2 md5 api s t c true (clock i)) as H.
  destruct (embed_document _ _ _ _ _ _ _ _ _) as [r s1].
  specialize (IH s1 (S i)).
  destruct (embed_rows _ _ _ _ s1 rows clock (S i)) as [es s2].
  simpl in *. congruence.
Qed.

(** X8.  [prepare_embeddings] returns one embedding for each row of the
    frame and marks the embeddings as loaded; called again on the file it
    left, without [force_refresh], it returns the same column and changes
    nothing: no lookup, no API call.  When no frame is given and none is
    loaded it raises. *)
Theorem prepare_embeddings_column b1 b2 md5 api s df force_refresh npy clock :
  let out := prepare_embeddings b1 b2 md5 api s df force_refresh npy clock in
  (df = None -> DocumentEmbedding.df s = None -> out = (None, s, npy)) /\
  forall rows,
    (df = Some rows \/ (df = None /\ DocumentEmbedding.df s = Some rows)) ->
    exists column,
      out.1.1 = Some column /\ length column = length rows /\
      embeddings_loaded out.1.2 = true /\
      forall clock',
        prepare_embeddings b1 b2 md5 api out.1.2 df false out.2 clock'
        = (Some column, out.1.2, out.2).
Proof.
  intros out. split.
  - intros -> H. subst out. unfold prepare_embeddings. by rewrite H.
  - intros rows Hrows. subst out. unfold prepare_embeddings.
    assert (match df with
            | Some d => Some d
            | None => DocumentEmbedding.df s
            end = Some rows) as Hdf.
    { destruct Hrows as [->|[-> ->]]; done. }
    rewrite Hdf.
    destruct (if force_refresh then None
              else match npy with
                   | Some embeddings =>
                       if (length embeddings =? length rows)%nat
                       then Some embeddings else None
                   | None => None
                   end) as [column|] eqn:Hc.
    + assert (npy = Some column /\ length column = length rows) as [-> Hlen].
      { destruct force_refresh; [done|]. destruct npy as [e|]; [|done].
        destruct (Nat.eqb_spec (length e) (length rows)); [|done].
        by injection Hc as <-. }
      exists column. simpl. repeat split; [done|].
      intros clock'. rewrite Hdf, Hlen, Nat.eqb_refl. done.
    + pose proof (embed_rows_length b1 b2 md5 api s rows clock 0) as Hlen.
      pose proof (embed_rows_df b1 b2 md5 api s rows clock 0) as Hsame.
      destruct (embed_rows b1 b2 md5 api s rows clock 0) as [column s1].
      simpl in Hlen, Hsame. exists column. simpl. repeat split; [done|].
      intros clock'. rewrite Hsame, Hdf, Hlen, Nat.eqb_refl. done.
Qed.

(** X9.  With one of the two import flags off, scikit-learn or the Google
    client missing, [embed_document] raises before it counts or looks
    anything up, and [prepare_embeddings] then gives every row the vector
    of 768 zeros and writes that column to the file. *)
Theorem prepare_embeddings_without_libraries b1 b2 md5 api s rows npy clock :
  b1 && b2 = false ->
  (forall title content use_cache clk,
     embed_document b1 b2 md5 api s title content use_cache clk = (None, s)) /\
  prepare_embeddings b1 b2 md5 api s (Some rows) true npy clock
  = (Some (replicate (length rows) (replicate 768 0)),
     with_loaded s true,
     Some (replicate (length rows) (replicate 768 0))).
Proof.
  intros Hb.
  assert (Hdoc : forall s title content use_cache clk,
            embed_document b1 b2 md5 api s title content use_cache clk
            = (None, s)).
  { intros. unfold embed_document. destruct b1; [|done]. by destruct b2. }
  split; [apply Hdoc|].
  unfold prepare_embeddings.
  assert (forall i, embed_rows b1 b2 md5 api s rows clock i
                    = (replicate (length rows) (replicate 768 0), s)) as ->.
  { induction rows as [|[t c] rows IH]; intros i; [done|].
    cbn [embed_rows]. rewrite Hdoc, IH. done. }
  done.
Qed.

Lemma round_half_even_comp x y :
  x == y -> Score.round_half_even x = Score.round_half_even y.
Proof.
  intros E. unfold Score.round_half_even.
  rewrite (Qfloor_comp _ _ E).
  assert (x - inject_Z (Qfloor y) == y - inject_Z (Qfloor y)) as E'
    by (by rewrite E).
  by rewrite (Qcompare_comp _ _ E' _ _ (Qeq_refl _)).
Qed.

(** X10.  The reported hit rate lies between 0 and 1: it is 0 as long as
    nothing was served by the cache and 1 when nothing was missed.  The
    average processing time is not negative as long as the total is not. *)
Theorem performance_metrics_bounds s :
  let p := get_performance_metrics s in
  0 <= cache_hit_rate p <= 1 /\
  (cache_hits (metrics s) = 0%nat -> cache_hit_rate p == 0) /\
  (cache_hits (metrics s) <> 0%nat -> cache_misses (metrics s) = 0%nat ->
   cache_hit_rate p == 1) /\
  (0 <= total_processing_time (metrics s) -> 0 <= average_processing_time p) /\
  total_api_calls p = api_calls (metrics s).
Proof.
  intros p. subst p. unfold get_performance_metrics. simpl.
  set (h := cache_hits (metrics s)). set (m := cache_misses (metrics s)).
  assert (Hrate : 0 <= (if (0 <? h + m)%nat
                        then inject_Z (Z.of_nat h) / inject_Z (Z.of_nat (h + m))
                        else 0) <= 1).
  { destruct (Nat.ltb_spec 0 (h + m)); [|lra].
    assert (0 < inject_Z (Z.of_nat (h + m))).
    { change 0 with (inject_Z 0). rewrite <- Zlt_Qlt. lia. }
    split.
    - apply Qle_shift_div_l; [done|]. rewrite Qmult_0_l.
      change 0 with (inject_Z 0). rewrite <- Zle_Qle. lia.
    - apply Qle_shift_div_r; [done|]. rewrite Qmult_1_l.
      rewrite <- Zle_Qle. lia. }
  split; [by apply ScoreFacts.round3_bounds|]. split; [|split; [|split]].
  - intros ->. simpl. by destruct (0 <? m)%nat.
  - intros Hh ->. rewrite Nat.add_0_r.
    destruct (Nat.ltb_spec 0 h); [|lia].
    unfold Score.round3.
    assert (inject_Z (Z.of_nat h) / inject_Z (Z.of_nat h) * 1000 == 1000) as E.
    { field. change 0 with (inject_Z 0). rewrite inject_Z_injective. lia. }
    rewrite (round_half_even_comp _ _ E). done.
  - intros Ht. unfold Score.round3.
    set (x := total_processing_time (metrics s) / _ * 1000).
    assert (0 <= x).
    { subst x. apply Qmult_le_0_compat; [|done].
      apply Qle_shift_div_l.
      - change 0 with (inject_Z 0). rewrite <- Zlt_Qlt. lia.
      - by rewrite Qmult_0_l. }
    destruct (ScoreFacts.round_half_even_bounds x (Qceiling x)) as [H0 _].
    { split; [done|apply Qle_ceiling]. }
    unfold Qle. simpl. lia.
  - done.
Qed.

Section Health.
Context (b1 b2 : bool) (md5 : string -> string).
Context (api : string -> string -> option string -> option embedding).

(** X11.  [health_check] reports at most three issues; the status is
    [healthy] exactly when the test question is embedded to a non-empty
    vector, documents are loaded and the embeddings are prepared, and
    [unhealthy] exactly when all three fail. *)
Theorem health_check_status s :
  let h := health_check b1 b2 api s in
  let api_ok :=
    match embed_question b1 b2 api s "test" with
    | Some (_ :: _) => true
    | _ => false
    end in
  let data_ok :=
    match df s with Some (_ :: _) => true | _ => false end in
  (length (issues h) <= 3)%nat /\
  (status h = "healthy" <->
   api_ok = true /\ data_ok = true /\ embeddings_loaded s = true) /\
  (status h = "unhealthy" <->
   api_ok = false /\ data_ok = false /\ embeddings_loaded s = false) /\
  (status h = "healthy" <-> issues h = []).
Proof.
  unfold health_check.
  destruct (embed_question b1 b2 api s "test") as [[|x e]|];
    destruct (df s) as [[|r rows]|];
    destruct (embeddings_loaded s); simpl;
    (split; [lia|]); repeat split; intros; try done;
    repeat match goal with H : _ /\ _ |- _ => destruct H end; done.
Qed.

End Health.

Lemma embed_document_caches_witness :
  (embed_document true true (fun s => s) Scenarios.constant_api
     (embed_document true true (fun s => s) Scenarios.constant_api
        Scenarios.fresh_service "Grades" "passing grade" true
        Scenarios.still).2
     "Another title" "passing grade" true Scenarios.still).1
  = Some [1; 0].
Proof.
  refine (proj1 (embed_document_caches (fun s => s) Scenarios.constant_api
                   Scenarios.fresh_service "Grades" "passing grade"
                   Scenarios.still [1; 0] _ "Another title" Scenarios.still
                   _ _ _)).
  - reflexivity.
  - reflexivity.
  - vm_compute. discriminate.
Defined.

Lemma prepare_embeddings_column_witness :
  exists column,
    (prepare_embeddings true true (fun s => s) Scenarios.constant_api
       Scenarios.fresh_service (Some Scenarios.one_row) false None
       (fun _ => Scenarios.still)).1.1 = Some column /\
    length column = length Scenarios.one_row.
Proof.
  destruct (proj2 (prepare_embeddings_column true true (fun s => s)
                     Scenarios.constant_api Scenarios.fresh_service
                     (Some Scenarios.one_row) false None
                     (fun _ => Scenarios.still))
              Scenarios.one_row (or_introl eq_refl))
    as (column & H1 & H2 & _).
  exists column. exact (conj H1 H2).
Defined.

Lemma prepare_embeddings_without_libraries_witness :
  prepare_embeddings false true (fun s => s) Scenarios.constant_api
    Scenarios.fresh_service (Some Scenarios.one_row) true None
    (fun _ => Scenarios.still)
  = (Some [replicate 768 0], with_loaded Scenarios.fresh_service true,
     Some [replicate 768 0]).
Proof.
  refine (proj2 (prepare_embeddings_without_libraries false true (fun s => s)
                   Scenarios.constant_api Scenarios.fresh_service
                   Scenarios.one_row None (fun _ => Scenarios.still) _)).
  reflexivity.
Defined.

Lemma performance_metrics_bounds_witness :
  cache_hit_rate (get_performance_metrics Scenarios.fresh_service) == 0.
Proof.
  refine (proj1 (proj2 (performance_metrics_bounds Scenarios.fresh_service))
            _).
  reflexivity.
Defined.

End EmbeddingFacts.

(** ** Prompts, quality checks and section numbers *)
Module TextFacts.
Import Np Py Re AGHRAGService Spec Traces StringFacts.
#[local] Arguments String.append !_ _ / : simpl nomatch.

(** X12.  An answer that quotes an ASCII question, whatever the case of
    the letters on either side, is of low quality. *)
Theorem quoting_answer_is_low_quality question quoted pre post :
  isascii question = true -> isascii quoted = true ->
  lower question = lower quoted ->
  _is_low_quality_answer question (pre +:+ quoted +:+ post) = true.
Proof.
  intros _ _ Hq. unfold _is_low_quality_answer.
  destruct (_ || _); [done|].
  assert (contains (lower question) (lower (pre +:+ quoted +:+ post)) = true)
    as ->; [|done].
  rewrite Hq, !lower_app. apply contains_spec. eauto.
Qed.

(** X13.  Three of the five search keywords are redundant: a question
    holds a search keyword exactly when its lower-case text holds
    [search] or [google]. *)
Theorem search_keyword_is_search_or_google question :
  has_search_keyword question
  = contains "search" (strip (lower question))
    || contains "google" (strip (lower question)).
Proof.
  unfold has_search_keyword, web_search_keywords. cbn [existsb].
  set (s := strip (lower question)).
  assert (H : forall kw, contains "search" kw = true ->
                         contains "search" s = false ->
                         contains kw s = false).
  { intros kw Hkw Hs. destruct (contains kw s) eqn:E; [|done].
    by rewrite (contains_trans _ _ _ Hkw E) in Hs. }
  destruct (contains "search" s) eqn:E1; [done|].
  destruct (contains "google" s) eqn:E2; [done|].
  rewrite !H by done. done.
Qed.

Lemma add_chunks_spec max_tokens pairs :
  forall prompt prompt' cs ms,
    add_chunks max_tokens prompt pairs = (prompt', cs, ms) ->
    length ms = length cs /\
    zip cs ms = firstn (length cs) pairs /\
    prompt' = prompt +:+ blocks cs /\
    (cs <> [] -> estimate_tokens prompt' <= max_tokens) /\
    (forall chunk meta,
       pairs !! length cs = Some (chunk, meta) ->
       max_tokens < estimate_tokens (prompt' +:+ chunk +:+ nl +:+ nl)).
Proof.
  induction pairs as [|[chunk meta] rest IH]; intros prompt prompt' cs ms.
  - simpl. intros [= <- <- <-]. simpl. rewrite append_nil_r.
    repeat split; done.
  - cbn [add_chunks].
    destruct (Nat.ltb_spec max_tokens
                (estimate_tokens (prompt +:+ chunk +:+ nl +:+ nl))) as [Hgt|Hle].
    + intros [= <- <- <-]. simpl. rewrite append_nil_r.
      repeat split; try done. by intros ? ? [= <- <-].
    + destruct (add_chunks max_tokens (prompt +:+ chunk +:+ nl +:+ nl) rest)
        as [[p cs'] ms'] eqn:E.
      intros [= <- <- <-].
      destruct (IH _ _ _ _ E) as (Hlen & Hzip & Hp & Hfit & Hstop).
      simpl. rewrite Hlen, Hzip. repeat split; try done.
      * rewrite Hp. by rewrite !append_assoc.
      * intros _. destruct cs' as [|c0 cs'].
        -- simpl in Hp. rewrite append_nil_r in Hp. by rewrite Hp.
        -- by apply Hfit.
Qed.

(** X14.  [_build_prompt] uses a prefix of the chunks, each with its
    metadata: the prompt is the head followed by the used chunks, each
    closed by an empty line; once a chunk is used the prompt is within the
    budget; and the first chunk left out, if there is one, would pass the
    budget, so that no later chunk is tried. *)
Theorem build_prompt_first_fit chunks metadata question profile max_tokens :
  let out := _build_prompt chunks metadata question profile max_tokens in
  let prompt := out.1.1 in
  let used_chunks := out.1.2 in
  let used_metadata := out.2 in
  length used_metadata = length used_chunks /\
  zip used_chunks used_metadata
    = firstn (length used_chunks) (zip chunks metadata) /\
  prompt = prompt_head question profile +:+ blocks used_chunks /\
  (used_chunks <> [] -> estimate_tokens prompt <= max_tokens) /\
  (forall chunk meta,
     zip chunks metadata !! length used_chunks = Some (chunk, meta) ->
     max_tokens < estimate_tokens (prompt +:+ chunk +:+ nl +:+ nl)).
Proof.
  unfold _build_prompt.
  destruct (add_chunks max_tokens (prompt_head question profile)
              (zip chunks metadata)) as [[p cs] ms] eqn:E.
  exact (add_chunks_spec _ _ _ _ _ _ E).
Qed.

Lemma span_all_digits s : all_digits (span is_digit s).1 = true.
Proof.
  induction s as [|c s IH]; simpl; [done|].
  destruct (is_digit c) eqn:E; [|done].
  destruct (span is_digit s) as [a b]. simpl in *. by rewrite E.
Qed.

Lemma number_numeral s g r : number s = Some (g, r) -> numeral g.
Proof.
  unfold number. pose proof (span_all_digits s) as Hd.
  destruct (span is_digit s) as [d r0]. simpl in Hd.
  destruct (String.eqb_spec d ""); [done|].
  destruct r0 as [|c r'].
  - intros [= <- <-]. exists d. eauto.
  - destruct (Ascii.eqb c "."); [|intros [= <- <-]; exists d; eauto].
    pose proof (span_all_digits r') as Hd2.
    destruct (span is_digit r') as [d2 r2]. simpl in Hd2.
    destruct (String.eqb_spec d2 "").
    + intros [= <- <-]. exists d. eauto.
    + intros [= <- <-]. exists d. repeat split; try done.
      right. exists d2. eauto.
Qed.

Lemma search_section_spec s g :
  search_section s = Some g -> numeral g /\ contains "§" s = true.
Proof.
  induction s as [|c s IH].
  - simpl. unfold section_sign. simpl. done.
  - cbn [search_section].
    destruct (section_sign (String c s)) as [[g' r]|] eqn:E.
    + intros [= ->]. unfold section_sign in E.
      destruct (String.prefix "§" (String c s)) eqn:Hp; [|done].
      split; [by eapply number_numeral|].
      cbn [contains]. by rewrite Hp.
    + intros H. destruct (IH H) as [Hn Hc]. split; [done|].
      cbn [contains]. rewrite Hc. apply orb_true_r.
Qed.

(** X15.  The section number of a title written in ASCII characters and
    section signs is a decimal numeral, digits with at most one inner
    point, or else [N/A]; and it is [N/A] for every title without the
    sign. *)
Theorem extract_section_number_shape title :
  (plain_title title = true ->
   numeral (_extract_section_number title) \/
   _extract_section_number title = "N/A") /\
  (contains "§" title = false -> _extract_section_number title = "N/A").
Proof.
  unfold _extract_section_number.
  destruct (search_section title) as [g|] eqn:E; simpl.
  - destruct (search_section_spec _ _ E) as [Hn Hc]. split; [by left|].
    by rewrite Hc.
  - split; [by right|done].
Qed.

Lemma quoting_answer_is_low_quality_witness :
  _is_low_quality_answer "Passing Grade"
    "You asked about the passing grade of an exam" = true.
Proof.
  refine (quoting_answer_is_low_quality "Passing Grade" "passing grade"
            "You asked about the " " of an exam" _ _ _); reflexivity.
Defined.

Lemma build_prompt_first_fit_witness :
  estimate_tokens
    (_build_prompt ["passing grade is 50 out of 100"]
       [{| section := "19"; title := "Grades";
           content := "passing grade is 50 out of 100" |}]
       "what is the passing grade" None 7000).1.1 <= 7000.
Proof.
  refine (proj1 (proj2 (proj2 (proj2
            (build_prompt_first_fit ["passing grade is 50 out of 100"]
               [{| section := "19"; title := "Grades";
                   content := "passing grade is 50 out of 100" |}]
               "what is the passing grade" None 7000)))) _).
  vm_compute. discriminate.
Defined.

Lemma extract_section_number_shape_witness :
  numeral (_extract_section_number "§19 Grades") \/
  _extract_section_number "§19 Grades" = "N/A".
Proof.
  refine (proj1 (extract_section_number_shape "§19 Grades") _).
  reflexivity.
Defined.

End TextFacts.

(** ** Retrieval above the threshold, and its refusals *)
Module ThresholdFacts.
Import Np Spec.
Local Open Scope Q_scope.

Lemma increasing_NoDup (l : list nat) : StronglySorted lt l -> NoDup l.
Proof.
  induction 1 as [|x l _ IH Hx]; constructor; [|done].
  intros Hin. rewrite Forall_forall in Hx. specialize (Hx _ Hin). lia.
Qed.

Lemma where_gt_NoDup (v : list Q) (t : Q) : NoDup (where_gt v t).
Proof. apply increasing_NoDup, RetrievalFacts.where_gt_from_increasing. Qed.

Lemma where_gt_some (v : list Q) (t : Q) :
  (exists i, (i < length v)%nat /\ t < val v i) ->
  (length (where_gt v t) =? 0)%nat = false /\ v <> [].
Proof.
  intros (i & Hi & Ht). split.
  - assert (i ∈ where_gt v t) as Hin
      by (apply RetrievalFacts.where_gt_spec; done).
    destruct (where_gt v t); [by apply elem_of_nil in Hin|done].
  - intros ->. simpl in Hi. lia.
Qed.

Lemma nth_map_valid {A} (f : nat -> A) (l : list nat) (p : nat) (d : A) :
  (p < length l)%nat -> nth p (map f l) d = f (nth p l 0%nat).
Proof.
  intros Hp. rewrite (nth_indep _ d (f 0%nat)) by (by rewrite length_map).
  apply map_nth.
Qed.

Lemma lookup_nth {A} (l : list A) (p : nat) (d : A) :
  (p < length l)%nat -> l !! p = Some (nth p l d).
Proof. intros Hp. destruct (nth_lookup_or_length l p d); [done|lia]. Qed.

Section WithLib.
Context {L : Lib} {HL : LibSpec L}.

(** X16.  [AGHRAGService]: when some row is more similar than the
    threshold, the rows returned are exactly the rows above the threshold,
    each once, and [top_k] plays no part. *)
Theorem agh_returns_all_above_threshold column q t k sims :
  AGHRetrieval.similarities (AGHRetrieval.not_none column) q = Some sims ->
  (exists i, (i < length sims)%nat /\ t < val sims i) ->
  let r := AGHRetrieval._retrieve_relevant_chunks (Some column) (Some q) t k in
  (forall i, i ∈ r <-> (i < length sims)%nat /\ t < val sims i) /\
  NoDup r /\
  length r = length (where_gt sims t) /\
  forall k',
    AGHRetrieval._retrieve_relevant_chunks (Some column) (Some q) t k' = r.
Proof.
  intros Hs Hex r. destruct (where_gt_some sims t Hex) as [Hlen Hne].
  assert (Hr : forall k', AGHRetrieval._retrieve_relevant_chunks
                            (Some column) (Some q) t k'
                          = reorder sims (where_gt sims t)).
  { intros k'.
    pose proof (RetrievalFacts.agh_retrieve_unfold column q t k' sims Hs Hne)
      as Hu.
    rewrite RetrievalFacts.agh_select_eq in Hu. injection Hu as Hu.
    etransitivity; [symmetry; exact Hu|].
    unfold agh_kept. by rewrite Hlen. }
  assert (Hp : r ≡ₚ where_gt sims t).
  { subst r. rewrite Hr. apply RetrievalFacts.reorder_perm. }
  split; [|split; [|split]].
  - intros i. rewrite Hp. apply RetrievalFacts.where_gt_spec.
  - rewrite Hp. apply where_gt_NoDup.
  - by rewrite Hp.
  - intros k'. subst r. by rewrite !Hr.
Qed.

(** X17.  [AdvancedEmbeddingService]: when some row is more similar than
    the threshold, every row returned is above the threshold; there are
    [top_k] of them, or all the rows above the threshold when these are
    fewer; none is returned twice; and no row above the threshold that is
    left out is more similar than one returned. *)
Theorem adv_returns_top_k_above_threshold cfg column q thr topk sims :
  let t := AdvancedEmbeddingService.or_Q thr
             (AdvancedEmbeddingService.embedding_threshold cfg) in
  let k := AdvancedEmbeddingService.or_Z topk
             (AdvancedEmbeddingService.top_k_retrieval cfg) in
  AdvancedEmbeddingService.cosine_similarity q
    (AdvancedEmbeddingService.valid column) = Some sims ->
  (exists i, (i < length sims)%nat /\ t < val sims i) -> (1 <= k)%Z ->
  let r := AdvancedEmbeddingService.retrieve_relevant_chunks true cfg
             (Some column) (Some q) thr topk in
  (forall i, i ∈ r -> (i < length sims)%nat /\ t < val sims i) /\
  length r = (Z.to_nat k `min` length (where_gt sims t))%nat /\
  NoDup r /\
  (forall i j, i ∈ r -> (j < length sims)%nat -> t < val sims j -> j ∉ r ->
               val sims j <= val sims i).
Proof.
  intros t k Hs Hex Hk r. destruct (where_gt_some sims t Hex) as [Hlen Hne].
  set (above := where_gt sims t) in *.
  set (sub := map (fun i => nth i sims 0) above).
  set (S := last_k k (argsort sub)).
  assert (Hp : r ≡ₚ map (fun p => nth p above 0%nat) S).
  { pose proof (RetrievalFacts.adv_retrieve_unfold cfg column q thr topk sims
                  Hs Hne) as Hu.
    fold t k r in Hu. rewrite RetrievalFacts.adv_select_eq in Hu.
    injection Hu as Hu.
    assert (r = reorder sims (adv_kept sims t k)) as -> by (symmetry; exact Hu).
    rewrite RetrievalFacts.reorder_perm.
    unfold adv_kept. fold above. by rewrite Hlen. }
  assert (Hsub : length sub = length above) by apply length_map.
  destruct (RetrievalFacts.last_k_suffix k (argsort sub)) as [m Hm].
  fold S in Hm.
  assert (HSv : Forall (fun p => (p < length above)%nat) S).
  { rewrite Hm, <- Hsub. apply RetrievalFacts.suffix_valid. }
  assert (HSn : NoDup S).
  { apply (RetrievalFacts.suffix_NoDup sub m). by rewrite Hm. }
  assert (HSt : top_of sub S).
  { apply (RetrievalFacts.suffix_top_of sub m). by rewrite Hm. }
  assert (Hin : forall p, (p < length above)%nat -> nth p above 0%nat ∈ above).
  { intros p Hp'. apply list_elem_of_lookup. exists p.
    by apply lookup_nth. }
  assert (Hinj : forall p p', (p < length above)%nat ->
                              (p' < length above)%nat ->
                              nth p above 0%nat = nth p' above 0%nat -> p = p').
  { intros p p' H1 H2 E.
    eapply (NoDup_lookup above); [apply where_gt_NoDup| |].
    - by apply lookup_nth.
    - rewrite E. by apply lookup_nth. }
  rewrite Forall_forall in HSv.
  split; [|split; [|split]].
  - intros i. rewrite Hp. intros (p & -> & HpS)%list_elem_of_fmap.
    apply RetrievalFacts.where_gt_spec, Hin, HSv, HpS.
  - rewrite Hp, length_map. unfold S.
    by rewrite RetrievalFacts.last_k_length, RetrievalFacts.argsort_length,
      Hsub.
  - rewrite Hp. apply NoDup_fmap_2_strong; [|done].
    intros p p' H1 H2. apply Hinj; by apply HSv.
  - intros i j Hi Hj Htj Hjr. rewrite Hp in Hi, Hjr.
    apply list_elem_of_fmap in Hi as (p & -> & HpS).
    assert (j ∈ above) as (pj & Hpj)%list_elem_of_lookup
      by (by apply RetrievalFacts.where_gt_spec).
    pose proof (lookup_lt_Some _ _ _ Hpj) as Hpjlt.
    assert (nth pj above 0%nat = j) as Hnj by (by apply nth_lookup_Some).
    assert (pj ∉ S) as HpjS.
    { intros H. apply Hjr, list_elem_of_fmap. by exists pj. }
    specialize (HSt p pj HpS). rewrite Hsub in HSt.
    specialize (HSt Hpjlt HpjS). unfold val in HSt. unfold sub in HSt.
    rewrite !nth_map_valid in HSt by (first [done|by apply HSv]).
    by rewrite Hnj in HSt.
Qed.

End WithLib.

Section Refusals.
Context {L : Lib}.

Lemma agh_no_embeddings column qe t k :
  Forall (fun e => e = None) column ->
  AGHRetrieval._retrieve_relevant_chunks (Some column) qe t k = [].
Proof.
  intros Hall. unfold AGHRetrieval._retrieve_relevant_chunks.
  destruct qe as [qv|]; [|done].
  assert (AGHRetrieval.not_none column = []) as ->; [|done].
  unfold AGHRetrieval.not_none.
  induction Hall as [|x l -> _ IH]; [done|]. exact IH.
Qed.

(** X19.  In the advanced service a threshold of zero and a [top_k] of
    zero cannot be asked for: [threshold or default] and
    [top_k or default] replace them by the configured values, as they
    replace [None]. *)
Theorem zero_overrides_are_defaults b cfg df qe (z : Q) thr topk :
  z == 0 ->
  AdvancedEmbeddingService.retrieve_relevant_chunks b cfg df qe (Some z) topk
  = AdvancedEmbeddingService.retrieve_relevant_chunks b cfg df qe None topk /\
  AdvancedEmbeddingService.retrieve_relevant_chunks b cfg df qe thr (Some 0%Z)
  = AdvancedEmbeddingService.retrieve_relevant_chunks b cfg df qe thr None.
Proof.
  intros Hz. unfold AdvancedEmbeddingService.retrieve_relevant_chunks.
  unfold AdvancedEmbeddingService.or_Q, AdvancedEmbeddingService.or_Z.
  apply Qeq_bool_iff in Hz. rewrite Hz. done.
Qed.

End Refusals.

Import RetrievalFacts.

Lemma last_k_nonempty {A} (k : Z) (a : list A) :
  (0 <= k)%Z -> a <> [] -> last_k k a <> [].
Proof.
  intros Hk Ha. unfold last_k. destruct (Z.ltb_spec 0 k) as [Hpos|Hle].
  - intros Hd%(f_equal length). rewrite length_drop in Hd. simpl in Hd.
    destruct a; [done|]. simpl in Hd. lia.
  - assert (k = 0%Z) as -> by lia. by rewrite drop_0.
Qed.

Lemma not_none_nil column :
  AGHRetrieval.not_none column = [] <-> Forall (fun e => e = None) column.
Proof.
  unfold AGHRetrieval.not_none. induction column as [|[e|] l IH]; simpl.
  - split; [constructor|done].
  - split; [done|]. by intros [? _]%Forall_cons_1.
  - rewrite IH. split; [by constructor|]. by intros [_ ?]%Forall_cons_1.
Qed.

Lemma not_none_elem column e :
  e ∈ AGHRetrieval.not_none column <-> Some e ∈ column.
Proof.
  unfold AGHRetrieval.not_none. rewrite list_elem_of_omap. split.
  - by intros (x & Hx & ->).
  - intros H. by exists (Some e).
Qed.

Lemma valid_nil column :
  AdvancedEmbeddingService.valid column = [] <->
  Forall (fun e => e = None \/ e = Some []) column.
Proof.
  unfold AdvancedEmbeddingService.valid.
  induction column as [|[[|x e]|] l IH]; simpl.
  - split; [constructor|done].
  - rewrite IH. split; [constructor; auto|]. by intros [_ ?]%Forall_cons_1.
  - split; [done|]. by intros [[?|?] _]%Forall_cons_1.
  - rewrite IH. split; [constructor; auto|]. by intros [_ ?]%Forall_cons_1.
Qed.

Lemma valid_elem column e :
  e ∈ AdvancedEmbeddingService.valid column <-> Some e ∈ column /\ e <> [].
Proof.
  unfold AdvancedEmbeddingService.valid. rewrite list_elem_of_omap. split.
  - intros ([[|y x]|] & Hx & Hv); simpl in Hv; try done.
    injection Hv as <-. done.
  - intros [H Hne]. exists (Some e). split; [done|]. by destruct e.
Qed.

Lemma forallb_false_elem {A} (f : A -> bool) (l : list A) :
  forallb f l = false <-> exists x, x ∈ l /\ f x = false.
Proof.
  induction l as [|a l IH]; simpl.
  - split; [done|]. by intros (x & ?%elem_of_nil & _).
  - rewrite andb_false_iff, IH. split.
    + intros [H|(x & Hx & Hf)]; [exists a|exists x]; split; try done.
      * by left.
      * by right.
    + intros (x & [->|Hx]%elem_of_cons & Hf); [by left|right; eauto].
Qed.

Section Empty.
Context {L : Lib} {HL : LibSpec L}.

Lemma agh_kept_nonempty v t k :
  (0 <= k)%Z -> v <> [] -> agh_kept v t k <> [].
Proof.
  intros Hk Hv. unfold agh_kept.
  destruct (Nat.eqb_spec (length (where_gt v t)) 0) as [E|E].
  - apply last_k_nonempty; [done|]. intros H%(f_equal length).
    rewrite argsort_length in H. by destruct v.
  - by destruct (where_gt v t).
Qed.

Lemma adv_kept_nonempty v t k :
  (0 <= k)%Z -> v <> [] -> adv_kept v t k <> [].
Proof.
  intros Hk Hv. unfold adv_kept.
  destruct (Nat.eqb_spec (length (where_gt v t)) 0) as [E|E].
  - apply last_k_nonempty; [done|]. intros H%(f_equal length).
    rewrite argsort_length in H. by destruct v.
  - intros H%(f_equal length). rewrite length_map in H. revert H.
    change (length []) with 0%nat. intros H.
    apply (last_k_nonempty k
             (argsort (map (fun i => nth i v 0) (where_gt v t))) Hk).
    + intros H'%(f_equal length). rewrite argsort_length, length_map in H'.
      done.
    + by apply length_zero_iff_nil.
Qed.

Lemma reorder_nonempty v idx : idx <> [] -> reorder v idx <> [].
Proof.
  intros Hne H. apply Hne. apply Permutation_nil_r.
  rewrite <- H. symmetry. apply reorder_perm.
Qed.

(** X18.  With a frame and a question embedding, and a [top_k] that is
    not negative, either service returns no row in two cases only: no row
    has an embedding to compare, or the embedding of some row has another
    dimension than the question's (numpy raises, the service returns the
    empty list).  In every other case it returns a row.  The advanced
    service counts an empty embedding as none.  Without a frame or
    without a question embedding both return no row, and so does the
    advanced service with [HAS_ML_LIBS] off, the state of the module when
    scikit-learn could not be imported. *)
Theorem retrieval_refusals column qv t k cfg thr topk :
  (0 <= k)%Z ->
  (0 <= AdvancedEmbeddingService.or_Z topk
          (AdvancedEmbeddingService.top_k_retrieval cfg))%Z ->
  (AGHRetrieval._retrieve_relevant_chunks (Some column) (Some qv) t k = [] <->
   Forall (fun e => e = None) column \/
   exists e, Some e ∈ column /\ length e <> length qv) /\
  (AdvancedEmbeddingService.retrieve_relevant_chunks true cfg (Some column)
     (Some qv) thr topk = [] <->
   Forall (fun e => e = None \/ e = Some []) column \/
   exists e, Some e ∈ column /\ e <> [] /\ length e <> length qv) /\
  (forall qe, AGHRetrieval._retrieve_relevant_chunks None qe t k = []) /\
  (forall df, AGHRetrieval._retrieve_relevant_chunks df None t k = []) /\
  (forall df qe,
     AdvancedEmbeddingService.retrieve_relevant_chunks false cfg df qe thr topk
     = []) /\
  (forall b df,
     AdvancedEmbeddingService.retrieve_relevant_chunks b cfg df None thr topk
     = []) /\
  (forall b qe,
     AdvancedEmbeddingService.retrieve_relevant_chunks b cfg None qe thr topk
     = []).
Proof.
  intros Hk Hk'. split_and!.
  - split.
    + intros Hnil.
      destruct (AGHRetrieval.not_none column) as [|e0 es] eqn:Hnn.
      { left. by apply not_none_nil. }
      right.
      destruct (forallb (fun e => (length e =? length qv)%nat)
                  (AGHRetrieval.not_none column)) eqn:Hf.
      * exfalso.
        assert (exists sims,
                  AGHRetrieval.similarities (AGHRetrieval.not_none column) qv
                  = Some sims) as [sims Hs].
        { unfold AGHRetrieval.similarities. rewrite Hf. eauto. }
        pose proof (CosineFacts.similarities_length _ _ _ Hs) as Hlen.
        rewrite (RetrievalFacts.agh_retrieve_eq _ _ _ _ _ Hs) in Hnil.
        revert Hnil. apply reorder_nonempty, agh_kept_nonempty; [done|].
        intros ->. rewrite Hnn in Hlen. done.
      * apply forallb_false_elem in Hf as (e & He & Hlen).
        exists e. split; [by apply not_none_elem|].
        by apply Nat.eqb_neq.
    + intros [Hall|(e & He & Hlen)].
      * by apply agh_no_embeddings.
      * unfold AGHRetrieval._retrieve_relevant_chunks.
        destruct (_ =? _)%nat; [done|].
        assert (AGHRetrieval.similarities (AGHRetrieval.not_none column) qv
                = None) as ->; [|done].
        unfold AGHRetrieval.similarities.
        assert (forallb (fun e => (length e =? length qv)%nat)
                  (AGHRetrieval.not_none column) = false) as ->; [|done].
        apply forallb_false_elem. exists e.
        split; [by apply not_none_elem|by apply Nat.eqb_neq].
  - split.
    + intros Hnil.
      destruct (AdvancedEmbeddingService.valid column) as [|e0 es] eqn:Hnn.
      { left. by apply valid_nil. }
      right.
      destruct (forallb (fun e => (length e =? length qv)%nat)
                  (AdvancedEmbeddingService.valid column)) eqn:Hf.
      * exfalso.
        assert (exists sims,
                  AdvancedEmbeddingService.cosine_similarity qv
                    (AdvancedEmbeddingService.valid column) = Some sims)
          as [sims Hs].
        { unfold AdvancedEmbeddingService.cosine_similarity. rewrite Hf.
          eauto. }
        pose proof (cosine_similarity_length _ _ _ Hs) as Hlen.
        rewrite (RetrievalFacts.adv_retrieve_eq _ _ _ _ _ _ Hs) in Hnil.
        revert Hnil. apply reorder_nonempty, adv_kept_nonempty; [done|].
        intros ->. rewrite Hnn in Hlen. done.
      * apply forallb_false_elem in Hf as (e & He & Hlen).
        apply valid_elem in He as [He Hne].
        exists e. split_and!; [done|done|by apply Nat.eqb_neq].
    + intros [Hall|(e & He & Hne & Hlen)].
      * unfold AdvancedEmbeddingService.retrieve_relevant_chunks. simpl.
        destruct (_ =? _)%nat; [done|].
        by rewrite (proj2 (valid_nil column) Hall).
      * unfold AdvancedEmbeddingService.retrieve_relevant_chunks. simpl.
        destruct (_ =? _)%nat; [done|]. destruct (_ =? _)%nat; [done|].
        assert (AdvancedEmbeddingService.cosine_similarity qv
                  (AdvancedEmbeddingService.valid column) = None) as ->;
          [|done].
        unfold AdvancedEmbeddingService.cosine_similarity.
        assert (forallb (fun e => (length e =? length qv)%nat)
                  (AdvancedEmbeddingService.valid column) = false) as ->;
          [|done].
        apply forallb_false_elem. exists e.
        split; [by apply valid_elem|by apply Nat.eqb_neq].
  - by intros [?|].
  - by intros [?|].
  - done.
  - intros b df. unfold AdvancedEmbeddingService.retrieve_relevant_chunks.
    by destruct b.
  - intros b qe. unfold AdvancedEmbeddingService.retrieve_relevant_chunks.
    destruct b; [|done]. by destruct qe.
Qed.

End Empty.

Lemma agh_returns_all_above_threshold_witness :
  AGHRetrieval._retrieve_relevant_chunks (L := reference_lib)
    (Some [Some [1; 0]; Some [0; 1]]) (Some [1; 0]) (1 # 2) 0
  = AGHRetrieval._retrieve_relevant_chunks (L := reference_lib)
      (Some [Some [1; 0]; Some [0; 1]]) (Some [1; 0]) (1 # 2) 3.
Proof.
  refine (proj2 (proj2 (proj2
            (agh_returns_all_above_threshold (L := reference_lib)
               (HL := LibFacts.reference_lib_spec)
               [Some [1; 0]; Some [0; 1]] [1; 0] (1 # 2) 3 _ _ _))) 0%Z).
  - vm_compute. reflexivity.
  - exists 0%nat. split; [simpl; lia|]. vm_compute. reflexivity.
Defined.

Lemma adv_returns_top_k_above_threshold_witness :
  NoDup (AdvancedEmbeddingService.retrieve_relevant_chunks
           (L := reference_lib) true AdvancedEmbeddingService.default_config
           (Some [Some [1; 0]; Some [0; 1]]) (Some [1; 0]) None None).
Proof.
  refine (proj1 (proj2 (proj2
            (adv_returns_top_k_above_threshold (L := reference_lib)
               (HL := LibFacts.reference_lib_spec)
               AdvancedEmbeddingService.default_config
               [Some [1; 0]; Some [0; 1]] [1; 0] None None _ _ _ _)))).
  - vm_compute. reflexivity.
  - exists 0%nat. split; [simpl; lia|]. vm_compute. reflexivity.
  - vm_compute. discriminate.
Defined.

Lemma zero_overrides_are_defaults_witness :
  AdvancedEmbeddingService.retrieve_relevant_chunks (L := reference_lib)
    true AdvancedEmbeddingService.default_config
    (Some [Some [1; 0]; Some [0; 1]]) (Some [1; 0]) (Some 0) None
  = AdvancedEmbeddingService.retrieve_relevant_chunks (L := reference_lib)
      true AdvancedEmbeddingService.default_config
      (Some [Some [1; 0]; Some [0; 1]]) (Some [1; 0]) None None.
Proof.
  refine (proj1 (zero_overrides_are_defaults (L := reference_lib) true
                   AdvancedEmbeddingService.default_config
                   (Some [Some [1; 0]; Some [0; 1]]) (Some [1; 0]) 0
                   None None _)).
  reflexivity.
Defined.

Lemma retrieval_refusals_witness :
  AGHRetrieval._retrieve_relevant_chunks (L := reference_lib)
    (Some [Some [1; 0]; Some [1; 0; 0]]) (Some [1; 0]) (75 # 100) 3 = [].
Proof.
  refine (proj2 (proj1 (retrieval_refusals (L := reference_lib)
            (HL := LibFacts.reference_lib_spec)
            [Some [1; 0]; Some [1; 0; 0]] [1; 0] (75 # 100) 3
            AdvancedEmbeddingService.default_config None None _ _)) _).
  - lia.
  - simpl. lia.
  - right. exists [1; 0; 0]. split; [by repeat constructor|]. simpl. lia.
Defined.

End ThresholdFacts.

(** ** [AdvancedAtlasRAGEngine]: labels, local search and retries *)
Module EngineFacts.
Import AdvancedAtlasRAGEngine Retries.
Local Open Scope Q_scope.

(** X20.  The quality label.  [Basic] is never given; chunks there are,
    the label is one of four.  It does not grow with the confidence: with
    three chunks or more a confidence below 0.3 is labelled [Excellent],
    as one of 0.8 is, while a confidence from 0.3 up to 0.4 is labelled
    [Limited]. *)
Theorem chunk_quality_labels {A} (chunks : list A) (query : string) (c : Q) :
  _determine_chunk_quality chunks query c <> "📝 Basic" /\
  (chunks <> [] ->
   _determine_chunk_quality chunks query c
   ∈ ["🌟 Excellent"; "✨ Very Good"; "👍 Good"; "⚠️ Limited"]) /\
  ((3 <= length chunks)%nat -> c < 3 # 10 ->
   _determine_chunk_quality chunks query c = "🌟 Excellent") /\
  (chunks <> [] -> 8 # 10 <= c ->
   _determine_chunk_quality chunks query c = "🌟 Excellent") /\
  (chunks <> [] -> 3 # 10 <= c -> c < 4 # 10 ->
   _determine_chunk_quality chunks query c = "⚠️ Limited").
Proof.
  unfold _determine_chunk_quality.
  destruct chunks as [|x chunks];
    [split_and!; intros; first [done|simpl in *; lia]|].
  destruct (Qle_bool (8 # 10) c) eqn:E8;
    [apply Qle_bool_iff in E8|
     assert (c < 8 # 10)
       by (apply Qnot_le_lt; intros ?%Qle_bool_iff; congruence)].
  { split_and!; intros; first [done|lra|by repeat constructor]. }
  destruct (Qle_bool (6 # 10) c) eqn:E6;
    [apply Qle_bool_iff in E6|
     assert (c < 6 # 10)
       by (apply Qnot_le_lt; intros ?%Qle_bool_iff; congruence)].
  { split_and!; intros; first [done|lra|by repeat constructor]. }
  destruct (Qle_bool (4 # 10) c) eqn:E4;
    [apply Qle_bool_iff in E4|
     assert (c < 4 # 10)
       by (apply Qnot_le_lt; intros ?%Qle_bool_iff; congruence)].
  { split_and!; intros; first [done|lra|by repeat constructor]. }
  destruct (Qle_bool (3 # 10) c) eqn:E3;
    [apply Qle_bool_iff in E3|
     assert (c < 3 # 10)
       by (apply Qnot_le_lt; intros ?%Qle_bool_iff; congruence)].
  { split_and!; intros; first [done|lra|by repeat constructor]. }
  destruct chunks as [|y [|z chunks]]; simpl;
    split_and!; intros; first [done|lra|lia|by repeat constructor].
Qed.

Lemma insert_desc_perm x l : insert_desc x l ≡ₚ x :: l.
Proof.
  induction l as [|y t IH]; simpl; [done|].
  destruct (_ <=? _)%nat; [done|]. by rewrite IH, Permutation_swap.
Qed.

Lemma sort_desc_perm l : sort_desc l ≡ₚ l.
Proof.
  induction l as [|x t IH]; simpl; [done|].
  by rewrite insert_desc_perm, IH.
Qed.

Lemma insert_desc_sorted x l :
  StronglySorted (fun a b : Entry * nat => (b.2 <= a.2)%nat) l ->
  StronglySorted (fun a b : Entry * nat => (b.2 <= a.2)%nat) (insert_desc x l).
Proof.
  induction 1 as [|y t Ht IH Hy]; simpl.
  - repeat constructor.
  - destruct (Nat.leb_spec y.2 x.2) as [Hle|Hgt].
    + constructor; [by constructor|]. constructor; [done|].
      eapply Forall_impl; [exact Hy|]. simpl. intros z Hz. lia.
    + constructor; [done|]. rewrite insert_desc_perm.
      constructor; [lia|done].
Qed.

Lemma sort_desc_sorted l :
  StronglySorted (fun a b : Entry * nat => (b.2 <= a.2)%nat) (sort_desc l).
Proof.
  induction l as [|x t IH]; simpl; [constructor|].
  by apply insert_desc_sorted.
Qed.

Lemma first_k_nonneg {A} (k : Z) (a : list A) :
  (0 <= k)%Z -> first_k k a = firstn (Z.to_nat k) a.
Proof. intros H. unfold first_k. by destruct (Z.leb_spec 0 k); [|lia]. Qed.

Lemma first_k_prefix {A} (k : Z) (a : list A) :
  exists n, first_k k a = firstn n a.
Proof. unfold first_k. destruct (0 <=? k)%Z; eauto. Qed.

(** X21.  [_search_local_knowledge] returns entries of the knowledge base
    that share a word with the query, the higher score first.  For a
    [top_k] that is not negative it returns at most [top_k] of them, and
    an entry that shares a word is left out only when [top_k] entries are
    returned, none of a lower score than its own.  A query without a word
    finds nothing. *)
Theorem search_local_knowledge_ranked knowledge_base query top_k :
  let score := total_score (list_to_set (Py.split (Py.lower query))) in
  let found := _search_local_knowledge knowledge_base query top_k in
  Forall (fun e => e ∈ knowledge_base /\ (0 < score e)%nat) found /\
  StronglySorted (fun a b => (score b <= score a)%nat) found /\
  ((0 <= top_k)%Z ->
   (length found <= Z.to_nat top_k)%nat /\
   forall e, e ∈ knowledge_base -> (0 < score e)%nat -> e ∉ found ->
     length found = Z.to_nat top_k /\
     Forall (fun r => (score e <= score r)%nat) found) /\
  (Py.split (Py.lower query) = [] -> found = []).
Proof.
  intros score found. subst score.
  set (qw := list_to_set (Py.split (Py.lower query)) : gset string) in *.
  set (positive := omap (fun entry =>
                           if (0 <? total_score qw entry)%nat
                           then Some (entry, total_score qw entry)
                           else None) knowledge_base).
  set (ranked := sort_desc positive).
  assert (Hfound : found = map fst (first_k top_k ranked)).
  { subst found. unfold _search_local_knowledge.
    destruct knowledge_base; [|done].
    subst ranked positive. simpl.
    destruct (first_k_prefix top_k (@nil (Entry * nat))) as [m ->].
    by rewrite firstn_nil. }
  assert (Hpos : forall p, p ∈ ranked <->
                   p.1 ∈ knowledge_base /\ (0 < total_score qw p.1)%nat /\
                   p.2 = total_score qw p.1).
  { intros [e s]. subst ranked. rewrite sort_desc_perm. subst positive.
    rewrite list_elem_of_omap. simpl. split.
    - intros (e' & He' & Hs).
      destruct (Nat.ltb_spec 0 (total_score qw e')); [|done].
      by injection Hs as -> <-.
    - intros (He & Hs & ->). exists e. split; [done|].
      by destruct (Nat.ltb_spec 0 (total_score qw e)); [|lia]. }
  assert (Hsorted : StronglySorted (fun a b : Entry * nat => (b.2 <= a.2)%nat)
                      ranked) by apply sort_desc_sorted.
  assert (Hsub : forall n p, p ∈ firstn n ranked -> p ∈ ranked).
  { intros n p Hp. rewrite <- (take_drop n ranked). apply elem_of_app.
    by left. }
  destruct (first_k_prefix top_k ranked) as [n Hn].
  split_and!.
  - rewrite Hfound, Hn. apply Forall_forall. intros e.
    intros ([e' s] & -> & Hp)%list_elem_of_fmap. simpl.
    apply Hsub, Hpos in Hp. simpl in Hp. tauto.
  - rewrite Hfound, Hn.
    apply (StronglySorted_fmap fst
             (fun a b : Entry * nat =>
                a ∈ firstn n ranked /\ b ∈ firstn n ranked /\ (b.2 <= a.2)%nat)).
    + intros [e1 s1] [e2 s2] (H1 & H2 & Hle). simpl in *.
      apply Hsub, Hpos in H1. apply Hsub, Hpos in H2. simpl in *.
      destruct H1 as (_ & _ & ->). destruct H2 as (_ & _ & ->). done.
    + apply (RetrievalFacts.StronglySorted_on _
               (fun p => p ∈ firstn n ranked)).
      * by apply Forall_forall.
      * rewrite <- (take_drop n ranked) in Hsorted.
        by apply StronglySorted_app_1_l in Hsorted.
  - intros Hk. rewrite Hfound, (first_k_nonneg _ _ Hk), length_map.
    split; [rewrite length_take; lia|].
    intros e He Hs Hout.
    assert ((e, total_score qw e) ∈ ranked) as Hin by (by apply Hpos).
    rewrite <- (take_drop (Z.to_nat top_k) ranked) in Hin, Hsorted.
    apply elem_of_app in Hin as [Hin|Hin].
    { exfalso. apply Hout, list_elem_of_fmap. by exists (e, total_score qw e). }
    split.
    + rewrite length_take. apply Nat.min_l.
      destruct (Nat.le_gt_cases (Z.to_nat top_k) (length ranked)); [done|].
      rewrite drop_ge in Hin by lia. by apply elem_of_nil in Hin.
    + apply Forall_forall. intros r ([e' s] & -> & Hp)%list_elem_of_fmap.
      pose proof (StronglySorted_app_1_elem_of _ _ _ _ _ Hsorted Hp Hin) as Hle.
      apply Hsub, Hpos in Hp. simpl in *. destruct Hp as (_ & _ & ->). done.
  - intros Hq. rewrite Hfound.
    assert (ranked = []) as ->.
    2: { destruct (first_k_prefix top_k (@nil (Entry * nat))) as [m ->].
         by rewrite firstn_nil. }
    assert (positive = []) as Hp; [|by subst ranked; rewrite Hp].
    subst positive. apply SweepFacts.omap_nil, Forall_forall. intros e _.
    assert (total_score qw e = 0%nat) as ->; [|done].
    unfold total_score. subst qw. rewrite Hq. simpl.
    rewrite !intersection_empty_l_L, size_empty. done.
Qed.

Lemma pow2_succ (a : nat) :
  inject_Z (2 ^ Z.of_nat (S a)) == 2 * inject_Z (2 ^ Z.of_nat a).
Proof.
  rewrite Nat2Z.inj_succ, Z.pow_succ_r by lia. by rewrite inject_Z_mult.
Qed.

Lemma attempts_success post max_retries r :
  forall n a f,
    (a <= f < a + n)%nat ->
    (forall i, (a <= i < f)%nat -> post i = None) ->
    (Z.of_nat f <= max_retries)%Z ->
    post f = Some r ->
    exists steps,
      attempts post max_retries a n = (Some r, steps) /\
      posts steps = S (f - a) /\
      slept steps
      == (inject_Z (2 ^ Z.of_nat f) - inject_Z (2 ^ Z.of_nat a)) * (1 # 2).
Proof.
  induction n as [|n IH]; intros a f Hf Hfail Hmax Hr; [lia|].
  cbn [attempts]. destruct (decide (a = f)) as [->|Hne].
  - rewrite Hr. eexists. split; [done|]. simpl. split; [f_equal; lia|].
    lra.
  - rewrite Hfail by lia.
    destruct (Z.ltb_spec (Z.of_nat a) max_retries); [|lia].
    destruct (IH (S a) f) as (steps & -> & Hp & Hs); [lia| |done|done|].
    { intros i Hi. apply Hfail. lia. }
    eexists. split; [done|]. simpl. split; [lia|].
    rewrite Hs, pow2_succ. lra.
Qed.

Lemma attempts_exhausted post max_retries :
  forall n a,
    (Z.of_nat a + Z.of_nat n = max_retries + 1)%Z -> (0 < n)%nat ->
    (forall i, (a <= i)%nat -> (Z.of_nat i <= max_retries)%Z -> post i = None) ->
    exists steps,
      attempts post max_retries a n = (Some MockResponse, steps) /\
      posts steps = n /\
      slept steps
      == (inject_Z (2 ^ max_retries) - inject_Z (2 ^ Z.of_nat a)) * (1 # 2).
Proof.
  induction n as [|n IH]; intros a Hn Hpos Hfail; [lia|].
  cbn [attempts]. rewrite Hfail by lia.
  destruct (Z.ltb_spec (Z.of_nat a) max_retries) as [Hlt|Hge].
  - destruct (IH (S a)) as (steps & -> & Hp & Hs); [lia|lia| |].
    { intros i Hi. apply Hfail. lia. }
    eexists. split; [done|]. simpl. split; [lia|].
    rewrite Hs, pow2_succ. lra.
  - assert (max_retries = Z.of_nat a) as -> by lia.
    eexists. split; [done|]. simpl. split; [lia|]. lra.
Qed.

Lemma attempts_posts post max_retries n a :
  (posts (attempts post max_retries a n).2 <= n)%nat.
Proof.
  revert a. induction n as [|n IH]; intros a; [done|].
  cbn [attempts]. destruct (post a); [simpl; lia|].
  destruct (_ <? _)%Z; [|simpl; lia].
  specialize (IH (S a)). destruct (attempts post max_retries (S a) n).
  simpl in *. lia.
Qed.

(** X22.  [_make_ollama_request_with_retry] posts at most
    [max_retries + 1] times.  It returns the response of the first post
    that does not raise, having slept 0.5, 1, 2, ... seconds after the
    failed ones, [(2^f - 1) / 2] seconds after [f] failures; when all
    [max_retries + 1] posts raise it returns the mock response of status
    500.  For a negative [max_retries] it posts nothing and returns
    [None]. *)
Theorem retry_schedule post max_retries :
  let out := _make_ollama_request_with_retry post max_retries in
  (posts out.2 <= Z.to_nat (max_retries + 1))%nat /\
  (forall f r,
     (Z.of_nat f <= max_retries)%Z ->
     (forall i, (i < f)%nat -> post i = None) -> post f = Some r ->
     out.1 = Some r /\ posts out.2 = S f /\
     slept out.2 == (inject_Z (2 ^ Z.of_nat f) - 1) * (1 # 2)) /\
  ((0 <= max_retries)%Z ->
   (forall i, (Z.of_nat i <= max_retries)%Z -> post i = None) ->
   out.1 = Some MockResponse /\ status_code_of MockResponse = 500%Z /\
   posts out.2 = Z.to_nat (max_retries + 1) /\
   slept out.2 == (inject_Z (2 ^ max_retries) - 1) * (1 # 2)) /\
  ((max_retries < 0)%Z -> out = (None, [])).
Proof.
  intros out. subst out. unfold _make_ollama_request_with_retry.
  split_and!.
  - apply attempts_posts.
  - intros f r Hf Hfail Hr.
    destruct (attempts_success post max_retries r (Z.to_nat (max_retries + 1))
                0 f) as (steps & -> & Hp & Hs); [lia| |done|done|].
    { intros i Hi. apply Hfail. lia. }
    simpl. split; [done|]. split; [lia|]. by rewrite Hs.
  - intros Hmax Hfail.
    destruct (attempts_exhausted post max_retries (Z.to_nat (max_retries + 1))
                0) as (steps & -> & Hp & Hs); [lia|lia| |].
    { intros i _. apply Hfail. }
    simpl. split; [done|]. split; [done|]. split; [done|]. by rewrite Hs.
  - intros Hneg. assert (Z.to_nat (max_retries + 1) = 0%nat) as -> by lia.
    done.
Qed.

Lemma chunk_quality_labels_witness :
  _determine_chunk_quality [1; 2; 3]%nat "what is the passing grade" (1 # 10)
  = "🌟 Excellent".
Proof.
  refine (proj1 (proj2 (proj2
            (chunk_quality_labels [1; 2; 3]%nat "what is the passing grade"
               (1 # 10)))) _ _).
  - simpl. lia.
  - reflexivity.
Defined.

Lemma retry_schedule_witness :
  (_make_ollama_request_with_retry Scenarios.third_time 2).1
    = Some (Http 200 "ok") /\
  posts (_make_ollama_request_with_retry Scenarios.third_time 2).2 = 3%nat /\
  slept (_make_ollama_request_with_retry Scenarios.third_time 2).2
  == (inject_Z (2 ^ Z.of_nat 2) - 1) * (1 # 2).
Proof.
  refine (proj1 (proj2 (retry_schedule Scenarios.third_time 2))
            2%nat (Http 200 "ok") _ _ _).
  - simpl. lia.
  - intros [|[|i]] Hi; [reflexivity|reflexivity|lia].
  - reflexivity.
Defined.

End EngineFacts.

(** ** [answer_question]: every path *)
Module PathFacts.
Import Np Py Re AGHRAGService Spec Traces.
Local Open Scope Q_scope.

Section WithLib.
Context {L : Lib}.

Lemma explicit_web_search_cases w q n :
  explicit_web_search w q n = (None, [SearchCall (agh_search_query q) 5]) \/
  exists r p,
    explicit_web_search w q n
    = (Some r, [SearchCall (agh_search_query q) 5; GenerateCall p]) /\
    trust_score r = 7 # 10 /\ warning r = None /\ sources_type r = "web" /\
    language r = "en" /\ section_refs r = [].
Proof.
  unfold explicit_web_search.
  destruct (search_and_extract w _ 5) as [[|r rs]|]; [by left| |by left].
  right. destruct (_generate_answer w _) as [a t]. simpl.
  eexists _, _. split; [reflexivity|]. done.
Qed.

Lemma fallback_web_search_cases w q :
  fallback_web_search w q = (None, [SearchCall (agh_search_query q) 3]) \/
  exists r p,
    fallback_web_search w q
    = (Some r, [SearchCall (agh_search_query q) 3; GenerateCall p]) /\
    trust_score r = 6 # 10 /\ warning r <> None /\ sources_type r = "web" /\
    language r = "en" /\ section_refs r = [].
Proof.
  unfold fallback_web_search.
  destruct (search_and_extract w _ 3) as [[|r rs]|]; [by left| |by left].
  right. destruct (_generate_answer w _) as [a t]. simpl.
  eexists _, _. split; [reflexivity|]. done.
Qed.

Lemma document_answer_cases w rows indices q profile n :
  indices <> [] ->
  document_answer w rows indices q profile n = None \/
  exists r p,
    document_answer w rows indices q profile n = Some (r, [GenerateCall p]) /\
    0 <= trust_score r <= 1 /\
    (warning r = None ->
     65 # 100 <= trust_score r /\
     _is_low_quality_answer q (answer r) = false) /\
    (stopwords w = None -> trust_score r = 5 # 10 /\ warning r <> None) /\
    sources_type r = "document" /\ language r = "en".
Proof.
  intros Hne. unfold document_answer.
  destruct (mapM (fun i => rows !! i) indices) as [picked|]; [|by left].
  right. simpl.
  match goal with
  | |- context [_build_prompt ?a ?b ?c ?d ?k] =>
      destruct (_build_prompt a b c d k) as [[prompt used_chunks] used_metadata]
  end.
  destruct (_generate_answer w prompt) as [generated tokens_generated].
  assert ((length indices =? 0)%nat = false) as ->.
  { destruct indices; [done|reflexivity]. }
  rewrite andb_false_r. eexists _, _. split; [reflexivity|]. simpl.
  split; [apply ScoreFacts.trust_score_bounds|]. split; [|split; [|done]].
  - destruct (_is_low_quality_answer q _); simpl; [done|].
    match goal with |- context [Qltb ?a ?b] =>
      destruct (Qltb a b) eqn:E; [done|] end.
    intros _. split; [|done]. by apply LibFacts.Qltb_ge.
  - intros ->. simpl. split; [done|].
    by destruct (_is_low_quality_answer q _).
Qed.

(** A response with a fixed text, of type [document]. *)
#[local] Ltac fixed_response :=
  simpl; split_and!; try done; try (by intros _ _; split; [|left]);
  left; (split; [done|]); by repeat constructor.

(** A response from the web. *)
#[local] Ltac web_response Ht Hl Hs side :=
  simpl; rewrite Ht, Hl; split_and!; try done;
  try (intros _ H; rewrite Hs in H; discriminate);
  right; split_and!; try done; side.

(** A response from the documents. *)
#[local] Ltac document_response Hb Hw Hn :=
  simpl; split_and!; try apply Hb; try done;
  [ intros H; by apply Hw
  | intros H _; destruct (Hn H) as [-> ?]; eauto
  | left; (split; [done|]); by repeat constructor ].

(** What every run of [answer_question] satisfies. *)
Lemma answer_question_profile w question flag profile :
  let out := answer_question w question flag profile in
  let web := web_requested question flag in
  (0 <= trust_score out.1 <= 1) /\
  (warning out.1 = None -> 65 # 100 <= trust_score out.1) /\
  language out.1 = "en" /\
  (stopwords w = None -> sources_type out.1 = "document" ->
   warning out.1 <> None /\
   (trust_score out.1 = 0 \/ trust_score out.1 = 5 # 10)) /\
  (sources_type out.1 = "document" /\
   map kind out.2
   ∈ [[]; [Embed]] ++
     (if web
      then [[Embed; Retrieve; Search 5];
            [Embed; Retrieve; Search 5; Generate];
            [Embed; Retrieve; Search 5; Search 3]]
      else [[Embed; Retrieve]; [Embed; Retrieve; Generate]])
   \/
   sources_type out.1 = "web" /\ web = true /\ section_refs out.1 = [] /\
   (trust_score out.1 = 7 # 10 /\
    map kind out.2 = [Embed; Retrieve; Search 5; Generate]
    \/
    trust_score out.1 = 6 # 10 /\
    map kind out.2 = [Embed; Retrieve; Search 5; Search 3; Generate])).
Proof.
  unfold answer_question, _embed_question, _generate_embedding.
  fold (embedded_text question) (web_requested question flag).
  set (q := embedded_text question). set (n := length (split question)).
  destruct (df w) as [rows|]; [|fixed_response].
  destruct (ollama_embeddings w q) as [[|x e]|]; [fixed_response| |fixed_response].
  set (indices := AGHRetrieval._retrieve_relevant_chunks _ _ _ _).
  destruct (web_requested question flag) eqn:Hweb.
  - destruct (explicit_web_search_cases w q n)
      as [->|(r & p & -> & Ht & Hw & Hs & Hl & Hr)];
      [|web_response Ht Hl Hs ltac:(by left)].
    destruct indices as [|i l] eqn:Hi.
    + destruct (fallback_web_search_cases w q)
        as [->|(r & p & -> & Ht & Hw & Hs & Hl & Hr)];
        [fixed_response|web_response Ht Hl Hs ltac:(by right)].
    + destruct (document_answer_cases w rows (i :: l) q profile n)
        as [->|(r & p & -> & Hb & Hw & Hn & Hs & Hl)];
        [done|fixed_response|document_response Hb Hw Hn].
  - destruct indices as [|i l] eqn:Hi; [fixed_response|].
    destruct (document_answer_cases w rows (i :: l) q profile n)
      as [->|(r & p & -> & Hb & Hw & Hn & Hs & Hl)];
      [done|fixed_response|document_response Hb Hw Hn].
Qed.

(** X23.  A response without a warning has a trust score of 0.65 at
    least. *)
Theorem unwarned_answer_is_trusted w question flag profile :
  warning (answer_question w question flag profile).1 = None ->
  65 # 100 <= trust_score (answer_question w question flag profile).1.
Proof. apply answer_question_profile. Qed.

(** X24.  Every response has a trust score between 0 and 1, the language
    [en] and the source type [document] or [web].  The source type is
    [web] only when web search was asked for, by the flag or by a keyword;
    the response then cites no section and its trust score is 0.7, after
    the first search, or 0.6, after the second. *)
Theorem response_invariants w question flag profile :
  let r := (answer_question w question flag profile).1 in
  0 <= trust_score r <= 1 /\
  language r = "en" /\
  (sources_type r = "document" \/ sources_type r = "web") /\
  (sources_type r = "web" ->
   web_requested question flag = true /\ section_refs r = [] /\
   (trust_score r = 7 # 10 \/ trust_score r = 6 # 10)).
Proof.
  destruct (answer_question_profile w question flag profile)
    as (Hb & _ & Hl & _ & [[Hs _]|(Hs & Hweb & Hr & Ht)]).
  - split_and!; [apply Hb..|done|by left|]. intros H. congruence.
  - split_and!; [apply Hb..|done|by right|]. intros _.
    split_and!; [done..|]. destruct Ht as [[-> _]|[-> _]]; eauto.
Qed.

(** X25.  Unless web search is asked for, by the flag or by a keyword,
    nothing is searched and the response is of type [document]: the calls
    are none, the embedding, the embedding and the retrieval, or these two
    and one generation. *)
Theorem no_search_unless_requested w question flag profile :
  web_requested question flag = false ->
  let out := answer_question w question flag profile in
  sources_type out.1 = "document" /\
  (forall query max_results, SearchCall query max_results ∉ out.2) /\
  map kind out.2 ∈ [[]; [Embed]; [Embed; Retrieve];
                    [Embed; Retrieve; Generate]].
Proof.
  intros Hweb.
  destruct (answer_question_profile w question flag profile)
    as (_ & _ & _ & _ & [[Hs Hk]|(_ & Hw & _)]); [|congruence].
  rewrite Hweb in Hk. simpl in Hk. split_and!; [done| |done].
  intros query m Hin. apply list_elem_of_In, (in_map kind) in Hin.
  apply list_elem_of_In in Hin. simpl in Hin.
  repeat (apply elem_of_cons in Hk as [Hk|Hk];
          [rewrite Hk in Hin;
           repeat (apply elem_of_cons in Hin as [Hin|Hin]; [discriminate|]);
           by apply elem_of_nil in Hin|]).
  by apply elem_of_nil in Hk.
Qed.

(** X26.  The calls of one [answer_question] come in one of eight orders.
    The question is embedded first and the rows are retrieved next, also
    when the web is searched; at most two searches are made, the first for
    five results and the second for three; and the generator is called at
    most once, last: the relevance question of lines 625-640 is never
    asked. *)
Theorem call_orders w question flag profile :
  map kind (answer_question w question flag profile).2
  ∈ [[]; [Embed]; [Embed; Retrieve]; [Embed; Retrieve; Generate];
     [Embed; Retrieve; Search 5]; [Embed; Retrieve; Search 5; Generate];
     [Embed; Retrieve; Search 5; Search 3];
     [Embed; Retrieve; Search 5; Search 3; Generate]].
Proof.
  destruct (answer_question_profile w question flag profile)
    as (_ & _ & _ & _ & [[_ Hk]|(_ & _ & _ & [[_ ->]|[_ ->]])]).
  - destruct (web_requested question flag); simpl in Hk;
      repeat (apply elem_of_cons in Hk as [->|Hk];
              [by repeat constructor|]);
      by apply elem_of_nil in Hk.
  - by repeat constructor.
  - by repeat constructor.
Qed.

(** X27.  When nltk's stop words cannot be read the trust score of an
    answer from the documents is 0.5, below the 0.65 that a response
    without a warning needs: every response of type [document] then
    carries a warning. *)
Theorem no_stopwords_always_warns w question flag profile :
  stopwords w = None ->
  sources_type (answer_question w question flag profile).1 = "document" ->
  warning (answer_question w question flag profile).1 <> None /\
  (trust_score (answer_question w question flag profile).1 = 0 \/
   trust_score (answer_question w question flag profile).1 = 5 # 10).
Proof. apply answer_question_profile. Qed.

(** X28.  When no row is retrieved and web search is not asked for, the
    answer is that no relevant regulation was found, with trust score 0;
    this is so for an empty frame and for a frame without embeddings. *)
Theorem nothing_retrieved_no_answer w question flag profile rows e :
  df w = Some rows ->
  ollama_embeddings w (embedded_text question) = Some e -> e <> [] ->
  web_requested question flag = false ->
  (retrieved rows e = [] ->
   answer_question w question flag profile
   = (no_answer (length (split question)),
      [EmbedCall (embedded_text question); RetrieveCall e])) /\
  (Forall (fun row => Embedding row = None) rows -> retrieved rows e = []).
Proof.
  intros Hdf He Hne Hweb. split.
  - intros Hr.
    rewrite (PipelineFacts.answer_question_embedded _ _ _ _ _ _ Hdf He Hne).
    cbv zeta. by rewrite Hweb, Hr.
  - intros Hall. unfold retrieved.
    apply ThresholdFacts.agh_no_embeddings. by apply Forall_fmap.
Qed.

End WithLib.

Lemma unwarned_answer_is_trusted_witness :
  65 # 100
  <= trust_score
       (Examples.ask
          (Examples.demo_world (Some [1; 0]) "x" (Some Scenarios.one_page))
          "what is the passing grade" true).1.
Proof.
  refine (unwarned_answer_is_trusted (L := reference_lib)
            (Examples.demo_world (Some [1; 0]) "x" (Some Scenarios.one_page))
            "what is the passing grade" true None _).
  reflexivity.
Defined.

Lemma no_search_unless_requested_witness :
  sources_type
    (Examples.ask (Examples.demo_world (Some [1; 0]) "x" (Some []))
       "what is the passing grade" false).1 = "document".
Proof.
  refine (proj1 (no_search_unless_requested (L := reference_lib)
                   (Examples.demo_world (Some [1; 0]) "x" (Some []))
                   "what is the passing grade" false None _)).
  reflexivity.
Defined.

Lemma nothing_retrieved_no_answer_witness :
  answer_question (L := reference_lib) Scenarios.bare_world "hello" false None
  = (no_answer 1, [EmbedCall "hello"; RetrieveCall [1; 0]]).
Proof.
  refine (proj1 (nothing_retrieved_no_answer (L := reference_lib)
                   Scenarios.bare_world "hello" false None
                   Scenarios.bare_rows [1; 0] _ _ _ _) _).
  - reflexivity.
  - reflexivity.
  - discriminate.
  - reflexivity.
  - reflexivity.
Defined.

Lemma no_stopwords_always_warns_witness :
  warning (answer_question (L := reference_lib) Scenarios.no_corpus_world
             "what is the passing grade" false None).1 <> None.
Proof.
  refine (proj1 (no_stopwords_always_warns (L := reference_lib)
                   Scenarios.no_corpus_world "what is the passing grade"
                   false None _ _)).
  - reflexivity.
  - reflexivity.
Defined.

End PathFacts.

(** ** [AGHRAGService]: preparing the embeddings *)
Module PreparationFacts.
Import Np Py Re AGHRAGService AGHPreparation.
Local Open Scope Q_scope.

Lemma zip_with_rows (df : list (string * string)) (es : list embedding) :
  length df = length es ->
  map (fun r => (Title r, Content r))
      (zip_with (fun row e => with_embedding row (Some e)) df es) = df /\
  map Embedding (zip_with (fun row e => with_embedding row (Some e)) df es)
  = map Some es.
Proof.
  revert es. induction df as [|[t c] df IH]; intros [|e es] Hlen; try done.
  simpl in Hlen. injection Hlen as Hlen. destruct (IH es Hlen) as [H1 H2].
  simpl. by rewrite H1, H2.
Qed.

Section WithLib.
Context {L : Lib}.

(** X29.  [_prepare_embeddings] keeps the rows and their order.  Unless a
    saved column of the right length is found, every row gets an embedding
    that is not empty, the vector of 768 zeros standing for one that
    Ollama did not give; the column is saved, and a second call reads it
    back without asking Ollama.  When the file cannot be read no row gets
    an embedding, and no question retrieves a row. *)
Theorem prepare_embeddings_fills w df npy :
  let out := _prepare_embeddings w df npy in
  map (fun r => (Title r, Content r)) out.1 = df /\
  ((forall es, npy = Saved es -> length es <> length df) ->
   npy <> Unreadable ->
   Forall (fun r => exists x e, Embedding r = Some (x :: e)) out.1 /\
   (forall i title content,
      df !! i = Some (title, content) ->
      _generate_embedding w content title = None \/
      _generate_embedding w content title = Some [] ->
      Embedding <$> out.1 !! i = Some (Some (replicate 768 0))) /\
   exists es, out.2 = Saved es /\ map Embedding out.1 = map Some es /\
     forall w', _prepare_embeddings w' df out.2 = out) /\
  (npy = Unreadable ->
   forall q t k,
     AGHRetrieval._retrieve_relevant_chunks (Some (map Embedding out.1))
       (Some q) t k = []).
Proof.
  intros out. subst out.
  set (g := fun row : string * string =>
              match _generate_embedding w row.2 row.1 with
              | Some (x :: e) => x :: e
              | _ => replicate 768 0
              end).
  assert (Hgen : (forall es, npy = Saved es -> length es <> length df) ->
                 npy <> Unreadable ->
                 _prepare_embeddings w df npy
                 = (zip_with (fun row e => with_embedding row (Some e)) df
                      (map g df), Saved (map g df))).
  { intros Hlen Hread. unfold _prepare_embeddings.
    destruct npy as [| |es]; [done|done|].
    destruct (Nat.eqb_spec (length es) (length df)) as [E|_]; [|done].
    by destruct (Hlen es eq_refl). }
  assert (Hg : length df = length (map g df)) by (by rewrite length_map).
  split_and!.
  - unfold _prepare_embeddings. destruct npy as [| |es].
    + by apply zip_with_rows.
    + simpl. rewrite map_map. simpl. clear.
      induction df as [|[t c] df IH]; simpl; [done|]. by rewrite IH.
    + destruct (Nat.eqb_spec (length es) (length df)) as [E|_].
      * by apply zip_with_rows.
      * by apply zip_with_rows.
  - intros Hlen Hread. rewrite (Hgen Hlen Hread). simpl.
    destruct (zip_with_rows df (map g df) Hg) as [Hrows Hemb].
    split_and!.
    + apply Forall_forall. intros r Hr.
      assert (Embedding r
              ∈ map Embedding
                  (zip_with (fun row e => with_embedding row (Some e)) df
                     (map g df))) as Hin
        by apply list_elem_of_In, in_map, list_elem_of_In, Hr.
      rewrite Hemb in Hin.
      apply list_elem_of_In, in_map_iff in Hin as (e & <- & Hin).
      apply in_map_iff in Hin as (row & <- & _).
      unfold g. destruct (_generate_embedding w row.2 row.1) as [[|x e]|];
        simpl; eauto.
    + intros i title content Hi Hfail.
      rewrite lookup_zip_with, Hi. simpl.
      change (map g df) with (g <$> df). rewrite list_lookup_fmap, Hi.
      simpl. unfold g. simpl. by destruct Hfail as [-> | ->].
    + exists (map g df). split; [done|]. split; [done|].
      intros w'. unfold _prepare_embeddings.
      by rewrite length_map, Nat.eqb_refl.
  - intros -> q t k. cbn [_prepare_embeddings fst].
    apply ThresholdFacts.agh_no_embeddings.
    rewrite map_map. simpl. apply Forall_forall.
    by intros e (row & -> & _)%list_elem_of_fmap.
Qed.

End WithLib.
End PreparationFacts.

(** ** [AdvancedAtlasRAGEngine]: [process_question] *)
Module ProcessFacts.
Import Np Py AdvancedAtlasRAGEngine ProcessQuestion.
Local Open Scope Q_scope.

Lemma gemma_confidence eng query context :
  1 # 10 <= (_generate_answer_with_gemma eng query context).2 <= 95 # 100.
Proof.
  unfold _generate_answer_with_gemma.
  destruct (ollama_available eng); simpl; [|lra].
  destruct (gemma_reply eng query context); simpl; try lra.
  apply ScoreFacts.estimate_confidence_bounds.
Qed.

Lemma direct_confidence eng query :
  1 # 10 <= (_generate_direct_answer eng query).2 <= 95 # 100.
Proof.
  unfold _generate_direct_answer.
  destruct (direct_reply eng query); simpl; lra.
Qed.

(** The search gave a result with some text. *)
Lemma perform_web_search_nonempty eng query :
  _perform_web_search eng query <> [] <->
  exists results hit,
    search_and_extract eng query 5 = Some results /\ hit ∈ results /\
    truthy_key (hit_content hit) || truthy_key (hit_snippet hit) = true.
Proof.
  unfold _perform_web_search.
  destruct (search_and_extract eng query 5) as [results|].
  - split.
    + intros Hne.
      destruct (omap _ results) as [|r rs] eqn:E; [done|].
      assert (r ∈ omap (fun result =>
                if truthy_key (hit_content result)
                   || truthy_key (hit_snippet result)
                then Some {| result_title :=
                               default "Web Result" (hit_title result);
                             result_content :=
                               match hit_content result with
                               | Some c => c
                               | None => default "" (hit_snippet result)
                               end;
                             result_url := default "" (hit_url result);
                             result_source := "web_search" |}
                else None) results) as Hin by (rewrite E; left).
      apply list_elem_of_omap in Hin as (hit & Hhit & Hsome).
      exists results, hit. split_and!; [done|done|].
      by destruct (_ || _).
    + intros (results' & hit & [= <-] & Hhit & Htext) Hnil.
      assert (forall r, r ∉ omap (fun result =>
                if truthy_key (hit_content result)
                   || truthy_key (hit_snippet result)
                then Some {| result_title :=
                               default "Web Result" (hit_title result);
                             result_content :=
                               match hit_content result with
                               | Some c => c
                               | None => default "" (hit_snippet result)
                               end;
                             result_url := default "" (hit_url result);
                             result_source := "web_search" |}
                else None) results) as Hno.
      { intros r. rewrite Hnil. apply not_elem_of_nil. }
      eapply Hno. apply list_elem_of_omap. exists hit. split; [done|].
      rewrite Htext. reflexivity.
  - split; [done|]. by intros (? & ? & ? & _).
Qed.

(** X30.  Every response of [process_question] has a confidence between
    0.1 and 0.95 and counts as chunks the web results it lists as
    sources.  It is web-enhanced exactly when web search is enabled and
    the search gave a result with some text; with web search enabled the
    sources are the titles of the results kept by [_perform_web_search],
    one chunk each.  Only a web-enhanced response has source type [web]
    and mode [GEMMA3_WEB]; without web search there is no chunk, no
    source, and the label is that of no relevant information, whatever the
    confidence. *)
Theorem process_question_invariants eng user_question enable_web_search :
  let r := process_question eng user_question enable_web_search in
  1 # 10 <= confidence_score r <= 95 # 100 /\
  chunks_used r = length (sources r) /\
  (web_enhanced r = true <-> chunks_used r <> 0%nat) /\
  (web_enhanced r = true <-> sources_type r = "web") /\
  (web_enhanced r = true <-> mode r = "GEMMA3_WEB") /\
  (web_enhanced r = true <->
   enable_web_search = true /\
   exists results hit,
     search_and_extract eng user_question 5 = Some results /\
     hit ∈ results /\
     truthy_key (hit_content hit) || truthy_key (hit_snippet hit) = true) /\
  (enable_web_search = true ->
   sources r
   = map (fun result => "🌐 " +:+ result_title result)
       (_perform_web_search eng user_question) /\
   chunks_used r = length (_perform_web_search eng user_question)) /\
  (enable_web_search = false ->
   chunks_used r = 0%nat /\ sources r = [] /\ web_source_urls r = None /\
   sources_type r = "general" /\ mode r = "GEMMA3_DIRECT" /\
   chunk_quality r = "⚠️ No relevant info") /\
  chunk_quality r
  = _determine_chunk_quality (sources r) user_question (confidence_score r).
Proof.
  unfold process_question.
  set (web_results := if enable_web_search
                      then _perform_web_search eng user_question else []).
  set (context := join _ _).
  set (urls := omap _ web_results).
  pose proof (gemma_confidence eng user_question context) as Hg.
  pose proof (direct_confidence eng user_question) as Hd.
  destruct (_generate_answer_with_gemma eng user_question context)
    as [a1 c1].
  destruct (_generate_direct_answer eng user_question) as [a2 c2].
  simpl in Hg, Hd.
  assert (Hq : forall c,
            _determine_chunk_quality web_results user_question c
            = _determine_chunk_quality
                (map (fun result => "🌐 " +:+ result_title result) web_results)
                user_question c).
  { intros c. unfold _determine_chunk_quality. rewrite length_map.
    by destruct web_results. }
  assert (Hflag : enable_web_search = false -> web_results = []).
  { intros ->. done. }
  assert (Hon : enable_web_search = true ->
                web_results = _perform_web_search eng user_question).
  { intros ->. done. }
  assert (Hweb : web_results <> [] <->
                 enable_web_search = true /\
                 exists results hit,
                   search_and_extract eng user_question 5 = Some results /\
                   hit ∈ results /\
                   truthy_key (hit_content hit)
                   || truthy_key (hit_snippet hit) = true).
  { rewrite <- perform_web_search_nonempty. subst web_results.
    destruct enable_web_search; [tauto|]. split; [done|]. by intros [? _]. }
  assert (Hen : (match web_results with [] => false | _ => true end) = true
                <-> web_results <> []).
  { by destruct web_results. }
  destruct (truthy (strip context)); [|destruct (ollama_available eng)];
    cbn [answer sources confidence_score chunks_used chunk_quality mode
         web_enhanced sources_type web_source_urls];
    rewrite length_map;
    (split_and!;
     [lra|lra|done| | | | | | |apply Hq]);
    try (destruct web_results; split; intros; done);
    try (rewrite Hen; exact Hweb);
    try (intros H; rewrite (Hon H); done);
    try (intros H; specialize (Hflag H); subst urls; rewrite Hflag;
         split_and!; done).
Qed.

End ProcessFacts.
